(** * acspmon: the sensing and layout core of the ACSP monitor

    A shallow embedding of [acspmon.py] (Python 2): the channel-to-frequency
    map, the FSPL distance and coverage radius, the neighbor score, the
    smoothing windows, the parsers of the poller, host detection and the
    positioning sweep, followed by the properties established about them.

    Conventions of the embedding.
    - A Python [int] is a [Z]; [/] between two ints is Python 2 floor
      division, [Z.div].
    - A Python [float] is a real number [R]: rounding is outside the model,
      sums, differences and quotients are exact.  The range of the format
      is inside it where the source raises on it: an int beyond
      [Py.DBL_MAX] that is converted to float, a power of [math.pow]
      beyond it, and [int] of a quotient beyond it, which the doubles hold
      as an infinity, raise [OverflowError] ([Py.float], [Py.pow10],
      [Py.int]).  [int(x)] on a finite float truncates toward zero
      ([Py.int_of_float]).
    - [None] is [None]; a field that starts as [None] is an [option].
    - A [dict] is an association list in iteration order, with at most one
      binding per key.
    - A reference to a [Radio] object is the pair (IP of its AP, interface
      name), resolved through [APS]; a reference to an [AP] is its IP.
    - A raised exception is a value of [exn] in the [inl] summand.
    - Each function is modelled as run by one thread: the interleaving of
      the threads is outside the model, and so are the canvas and the log.
      Of the locks the model keeps [APS_LOCK] in the poller, which takes it
      once per radio and turn (lines 409 and 472) and can find it held by
      its own earlier turn; a thread that waits for a lock nobody releases
      ends as [Blocked].  The sweep, the detection and the handlers of the
      window are modelled from the point where they hold the lock.  The
      shell transport is an input: the [Wire] of an AP lists what the
      device will answer. *)

From Stdlib Require Import ZArith List String Ascii Bool Lia.
From Stdlib Require Import Reals Lra.
From Stdlib Require Import HexString Sorted Permutation.
Import ListNotations.

Local Open Scope Z_scope.

(** ** Python numerics *)

Module Py.

(** [int(x)] for a finite float [x]: truncation toward zero. *)
Definition int_of_float (x : R) : Z :=
  if Rle_dec 0 x then Int_part x else - Int_part (- x).

(** [sys.float_info.max], the largest finite double: (2 - 2^-52) * 2^1023. *)
Definition DBL_MAX : R := IZR (2 ^ 1024 - 2 ^ 971).

(** Whether [x] lies within the range of the doubles; beyond it [x] stands
    for an infinity. *)
Definition finite (x : R) : bool :=
  if Rle_dec (Rabs x) DBL_MAX then true else false.

(** An int where a float is wanted; raises [OverflowError] ("long int too
    large to convert to float") beyond the range. *)
Definition float (n : Z) : option R :=
  if finite (IZR n) then Some (IZR n) else None.

(** [int(x)] for a float [x]; raises [OverflowError] on an infinity. *)
Definition int (x : R) : option Z :=
  if finite x then Some (int_of_float x) else None.

(** [math.log10]; raises [ValueError] outside the positive reals. *)
Definition log10 (x : R) : option R :=
  if Rlt_dec 0 x then Some (ln x / ln 10)%R else None.

(** [pow(10, y)], which is [math.pow] after [from math import *] (line 23);
    raises [OverflowError] ("math range error") when the power leaves the
    range. *)
Definition pow10 (y : R) : option R :=
  if finite (Rpower 10 y) then Some (Rpower 10 y) else None.

(** Float division; raises [ZeroDivisionError] on a zero divisor. *)
Definition fdiv (x y : R) : option R :=
  if Req_dec_T y 0 then None else Some (x / y)%R.

End Py.

(** ** Exceptions

    Exceptions of the source: its own [SSHLostException] and the builtin
    ones its statements can raise.  [Blocked] is no exception: it marks a
    thread that waits in [Lock.acquire] for a lock that stays held; nothing
    after that point runs and no [except] clause sees it. *)
Inductive exn :=
  | SSHLostException
  | NameError | TypeError | AttributeError | IndexError | KeyError
  | ValueError | ZeroDivisionError | OverflowError
  | Blocked.

Definition is_ssh_lost (e : exn) : bool :=
  match e with SSHLostException => true | _ => false end.

(** ** Tunable constants (module-level globals of the source)

    [CANVAS_METER_PER_DOT] is a float: the 0.1 of line 60 and its steps of
    0.01; an int given with the option [-p] is held as the float of its
    value.  [RF_AVR_NFLOOR_MARGIN] is an int, held as a real. *)

Record Globals := mkGlobals {
  RF_AVR_NFLOOR : Z;
  RF_AVR_NFLOOR_MARGIN : R;
  RF_SMOOTH_WINDOW : Z;
  CANVAS_WIDTH : Z;
  CANVAS_HEIGHT : Z;
  CANVAS_METER_PER_DOT : R;
  CANVAS_FREEZE : bool;
  RADIO_DISPLAYED : string;
  APS_COORD_METHOD : string;
  APS_COORD_NBRSCORE_ORDER : bool;
  CANVAS_COLOR_TRANSP : bool;
  ACSP_RUN_TIMESTAMP : bool
}.

(** The values the source assigns at module load. *)
Definition default_globals : Globals :=
  {| RF_AVR_NFLOOR := -90;
     RF_AVR_NFLOOR_MARGIN := 50;
     RF_SMOOTH_WINDOW := 3;
     CANVAS_WIDTH := 800;
     CANVAS_HEIGHT := 600;
     CANVAS_METER_PER_DOT := 0.1;
     CANVAS_FREEZE := false;
     RADIO_DISPLAYED := "a";
     APS_COORD_METHOD := "auto";
     APS_COORD_NBRSCORE_ORDER := false;
     CANVAS_COLOR_TRANSP := false;
     ACSP_RUN_TIMESTAMP := false |}.

Definition IFNAME_WIFI0 : string := "wifi0".
Definition IFNAME_WIFI1 : string := "wifi1".

(** ** Radio.ieee2ghz *)

Definition ieee2mhz (chnl : Z) : Z :=
  let chnl := if chnl =? 0 then 200 else chnl in
  if chnl =? 14 then 2484
  else if chnl <? 14 then 2407 + chnl * 5
  else if chnl <? 27 then 2512 + (chnl - 15) * 20
  else 5000 + chnl * 5.

Definition ieee2ghz (chnl : Z) : R := (IZR (ieee2mhz chnl) / 1000)%R.

(** ** FSPL distance and coverage radius

    [pow(10, (fspl - 32.44 - 20*log10(ghz)) / 20) / CANVAS_METER_PER_DOT],
    truncated by [int]: the expression of lines 1074, 1095 and 1124.  Its
    operations run in the order of the source: [fspl] is converted to
    float, then come [log10], [pow], the division and [int]. *)

Definition fspl_dots (fspl : Z) (ghz : R) (meter_per_dot : R) : exn + Z :=
  match Py.float fspl with
  | None => inl OverflowError
  | Some f =>
  match Py.log10 ghz with
  | None => inl ValueError
  | Some lg =>
  match Py.pow10 ((f - 32.44 - 20 * lg) / 20) with
  | None => inl OverflowError
  | Some p =>
  match Py.fdiv p meter_per_dot with
  | None => inl ZeroDivisionError
  | Some d =>
  match Py.int d with
  | None => inl OverflowError
  | Some n => inr n
  end end end end end.

(** The radius computed by [Radio.show], lines 610-612.  Line 576 of
    [ieee2ghz] converts the int [mhz] to float; line 611 adds two ints
    ([RF_AVR_NFLOOR_MARGIN] is an int: the 50 of line 65, the option [-m],
    the steps of line 1491), and line 612 converts [txpwr],
    takes [log10], converts the sum, and then come [pow], the division and
    [int]. *)
Definition coverage_radius (txpwr chnl : Z) (avr_nfloor : Z) (margin : R)
    (meter_per_dot : R) : exn + Z :=
  match Py.float (ieee2mhz chnl) with
  | None => inl OverflowError
  | Some _ =>
  let ghz := ieee2ghz chnl in
  let nfloor := (IZR avr_nfloor + margin)%R in
  match Py.float txpwr with
  | None => inl OverflowError
  | Some t =>
  match Py.log10 ghz with
  | None => inl ValueError
  | Some lg =>
  if negb (Py.finite nfloor) then inl OverflowError else
  match Py.pow10 ((t - 32.44 - 20 * lg - nfloor) / 20) with
  | None => inl OverflowError
  | Some p =>
  match Py.fdiv p meter_per_dot with
  | None => inl ZeroDivisionError
  | Some d =>
  match Py.int d with
  | None => inl OverflowError
  | Some r => inr r
  end end end end end end.

(** ** Python strings and lists

    The string operations and the four regular expressions the parsers use.
    A [str] is a [string]; an index that Python reports as [-1] or through
    [IndexError] is an [option]. *)

Module Str.
Local Open Scope string_scope.
Local Open Scope nat_scope.

Definition tab : ascii := ascii_of_nat 9.
Definition newline : ascii := ascii_of_nat 10.

(** [c.isspace()] on an ASCII byte. *)
Definition is_space (c : ascii) : bool :=
  let n := nat_of_ascii c in
  (n =? 32) || ((9 <=? n) && (n <=? 13)).

Definition is_blank (c : ascii) : bool := Ascii.eqb c " " || Ascii.eqb c tab.

Definition is_digit (c : ascii) : bool :=
  let n := nat_of_ascii c in (48 <=? n) && (n <=? 57).

Definition is_empty (s : string) : bool :=
  match s with EmptyString => true | _ => false end.

Definition snoc (s : string) (c : ascii) : string := s ++ String c "".

(** [sub in s] *)
Definition contains (sub s : string) : bool :=
  match index 0 sub s with Some _ => true | None => false end.

(** [s.split()] *)
Fixpoint split_from (cur s : string) : list string :=
  match s with
  | EmptyString => if is_empty cur then [] else [cur]
  | String c s' =>
      if is_space c
      then (if is_empty cur then split_from "" s' else cur :: split_from "" s')
      else split_from (snoc cur c) s'
  end.
Definition split (s : string) : list string := split_from "" s.

(** [s.split(sep)] for a one-character separator *)
Fixpoint split_on_from (sep : ascii) (cur s : string) : list string :=
  match s with
  | EmptyString => [cur]
  | String c s' =>
      if Ascii.eqb c sep then cur :: split_on_from sep "" s'
      else split_on_from sep (snoc cur c) s'
  end.
Definition split_on (sep : ascii) (s : string) : list string := split_on_from sep "" s.

(** [''.join(l)] *)
Definition join (l : list string) : string := concat "" l.

(** [s[n:]] and [s[:n]] for [n >= 0] *)
Fixpoint drop (n : nat) (s : string) : string :=
  match n, s with
  | O, _ => s
  | S n', String _ s' => drop n' s'
  | S _, EmptyString => EmptyString
  end.
Fixpoint take (n : nat) (s : string) : string :=
  match n, s with
  | S n', String c s' => String c (take n' s')
  | _, _ => EmptyString
  end.
(** [s[a:b]] for [0 <= a], [0 <= b] *)
Definition slice (a b : nat) (s : string) : string := take (b - a) (drop a s).

(** [s[:-1]] and [s[-1]] *)
Definition drop_last (s : string) : string := take (length s - 1) s.
Definition last_char (s : string) : option ascii :=
  match length s with O => None | S n => get n s end.

(** [s.replace(a, b)] for single characters *)
Fixpoint replace (a b : ascii) (s : string) : string :=
  match s with
  | EmptyString => EmptyString
  | String c s' => String (if Ascii.eqb c a then b else c) (replace a b s')
  end.

(** [s.find(sub, start, len(s))]: [None] stands for [-1] *)
Definition find (sub s : string) (start : nat) : option nat := index start sub s.

(** [s.strip()] *)
Fixpoint lstrip (s : string) : string :=
  match s with
  | String c s' => if is_space c then lstrip s' else s
  | EmptyString => EmptyString
  end.
Fixpoint rstrip (s : string) : string :=
  match s with
  | EmptyString => EmptyString
  | String c s' =>
      match rstrip s' with
      | EmptyString => if is_space c then EmptyString else String c EmptyString
      | t => String c t
      end
  end.
Definition strip (s : string) : string := rstrip (lstrip s).

(** [int(s)]: optional blanks around an optional sign and at least one
    decimal digit; anything else raises [ValueError]. *)
Fixpoint digits_val (acc : Z) (s : string) : option Z :=
  match s with
  | EmptyString => Some acc
  | String c s' =>
      if is_digit c
      then digits_val (acc * 10 + (Z.of_nat (nat_of_ascii c) - 48))%Z s'
      else None
  end.
Definition unsigned_val (s : string) : option Z :=
  if is_empty s then None else digits_val 0%Z s.
Definition int (s : string) : option Z :=
  match strip s with
  | EmptyString => None
  | String c s' =>
      if Ascii.eqb c "-" then option_map Z.opp (unsigned_val s')
      else if Ascii.eqb c "+" then unsigned_val s'
      else unsigned_val (String c s')
  end.

(** [l[-k]] for [k >= 1], and [l[1:-1]] *)
Definition nth_last {A} (l : list A) (k : nat) : option A := nth_error (rev l) (k - 1).
Definition strip_ends {A} (l : list A) : list A := removelast (tl l).

(** *** Regular expressions

    [.] matches any character except a newline; [+?] is lazy. *)
Definition dot (c : ascii) : bool := negb (Ascii.eqb c newline).

(** [.*?suf] at the head of [s], [cap] being what the group holds so far;
    the result is the group and what follows the match. *)
Fixpoint lazy_until (suf cap s : string) : option (string * string) :=
  if prefix suf s then Some (cap, drop (length suf) s)
  else match s with
       | String c s' => if dot c then lazy_until suf (snoc cap c) s' else None
       | EmptyString => None
       end.

(** [pre(.+?)suf] matched at the head of [s]. *)
Definition match_lazy (pre suf s : string) : option (string * string) :=
  if prefix pre s then
    match drop (length pre) s with
    | String c s' => if dot c then lazy_until suf (String c "") s' else None
    | EmptyString => None
    end
  else None.

(** [re.compile(pre + '(.+?)' + suf).search(s).group(1)]; [None] when
    there is no match. *)
Fixpoint search_lazy (pre suf s : string) : option string :=
  match match_lazy pre suf s with
  | Some (g, _) => Some g
  | None =>
      match s with
      | String _ s' => search_lazy pre suf s'
      | EmptyString => None
      end
  end.

(** PTN_ACSP['disabled_reason'] = [(\(.+?\))]: the group keeps the
    parentheses. *)
Definition search_reason (s : string) : option string :=
  option_map (fun g => "(" ++ g ++ ")") (search_lazy "(" ")" s).

(** [PTN_ACSP['disabled_reason'].sub('', s)]: every match, leftmost first
    and not overlapping, is deleted. *)
Fixpoint sub_reason_fuel (fuel : nat) (s : string) : string :=
  match fuel with
  | O => s
  | S fuel' =>
      match match_lazy "(" ")" s with
      | Some (_, rest) => sub_reason_fuel fuel' rest
      | None =>
          match s with
          | String c s' => String c (sub_reason_fuel fuel' s')
          | EmptyString => EmptyString
          end
      end
  end.
Definition sub_reason (s : string) : string := sub_reason_fuel (S (length s)) s.

(** PTN_ACSP['nbr_rssi'] = [[ \t]+(-[0-9]+)[ \t]+] *)
Fixpoint skip_blanks (s : string) : string :=
  match s with
  | String c s' => if is_blank c then skip_blanks s' else s
  | EmptyString => EmptyString
  end.
Fixpoint span_digits (acc s : string) : string * string :=
  match s with
  | String c s' => if is_digit c then span_digits (snoc acc c) s' else (acc, s)
  | EmptyString => (acc, s)
  end.
Definition match_rssi (s : string) : option string :=
  match s with
  | String b s0 =>
      if is_blank b then
        match skip_blanks s0 with
        | String m s1 =>
            if Ascii.eqb m "-" then
              match span_digits "" s1 with
              | (EmptyString, _) => None
              | (ds, String e _) => if is_blank e then Some (String "-" ds) else None
              | (_, EmptyString) => None
              end
            else None
        | EmptyString => None
        end
      else None
  | EmptyString => None
  end.
Fixpoint search_rssi (s : string) : option string :=
  match match_rssi s with
  | Some g => Some g
  | None =>
      match s with
      | String _ s' => search_rssi s'
      | EmptyString => None
      end
  end.

End Str.

(** ** fillwhite (lines 94-116)

    [while e > s >= 0] runs at most once per character of [text], for [e]
    grows at every turn; [fuel] bounds the turns. *)

Fixpoint fillwhite_loop (fuel : nat) (text start end_ : string) (c : ascii)
    (newt : string) (a : nat) (s e : option nat) : string * nat :=
  match fuel, s, e with
  | S fuel', Some s_, Some e_ =>
      if (s_ <? e_)%nat then
        let newt := (newt ++ Str.slice a s_ text)%string in
        let newt := (newt ++
          Str.replace Str.tab c (Str.replace " " c (Str.slice s_ (e_ + 1) text)))%string in
        fillwhite_loop fuel' text start end_ c newt (e_ + 1)%nat
          (Str.find start text (e_ + 1)) (Str.find end_ text (e_ + 1))
      else (newt, a)
  | _, _, _ => (newt, a)
  end.

Definition fillwhite (text start end_ : string) (c : ascii) : string :=
  let '(newt, a) :=
    fillwhite_loop (S (String.length text)) text start end_ c EmptyString 0%nat
      (Str.find start text 0) (Str.find end_ text 0) in
  (newt ++ Str.slice a (String.length text) text)%string.


(** ** Data model *)

(** A reference to a Radio object: the IP of its AP and its interface name. *)
Definition rid : Type := string * string.

Definition rid_eqb (a b : rid) : bool :=
  String.eqb (fst a) (fst b) && String.eqb (snd a) (snd b).

(** A [dict] with string keys. *)
Module Dict.
Section Ops.
Context {V : Type}.

Fixpoint get (k : string) (d : list (string * V)) : option V :=
  match d with
  | [] => None
  | (k', v) :: d' => if String.eqb k k' then Some v else get k d'
  end.

Fixpoint set (k : string) (v : V) (d : list (string * V)) : list (string * V) :=
  match d with
  | [] => [(k, v)]
  | (k', v') :: d' => if String.eqb k k' then (k, v) :: d' else (k', v') :: set k v d'
  end.

Definition mem (k : string) (d : list (string * V)) : bool :=
  match get k d with Some _ => true | None => false end.

Definition values (d : list (string * V)) : list V := map snd d.
Definition keys (d : list (string * V)) : list string := map fst d.

End Ops.
End Dict.

(** class ACSPNbr.  An entry is stored in [nbrs] only on the path that has
    assigned [rssi], [sta_cnt] and [crc_err] (lines 420-438 and 464), so a
    stored entry carries numbers; [max_txpwr], [mgmt_tpbo], [data_tpbo] and
    [tot_cu] are never assigned and are left out. *)
Module ACSPNbr.
Record t := mk {
  radio : rid;
  rssi : Z;
  rssi_window : list Z;
  sta_cnt : Z;
  crc_err : Z
}.
End ACSPNbr.

(** class Radio(ACSP, GUICircle).  Of GUICircle the model keeps the centre
    [c], the radius [r] and the outline [width], which is the attribute
    that ACSP uses for the channel width; the canvas items belong to the
    rendering surface. *)
Module Radio.
Record t := mk {
  (* class Radio *)
  name : string;
  mac : string;
  state : string;
  mode : option string;
  phymode : option string;
  band : option Z;
  nfloor : option Z;
  nfloor_window : list Z;
  nbr_score : option Z;
  ap : string;
  (* class ACSP *)
  acsp_supported : bool;
  chnl_state : option string;
  chnl_disabled_reason : option string;
  chnl_run_ts : option string;
  chnl : option Z;
  width : option Z;
  pwr_state : option string;
  pwr_disabled_reason : option string;
  txpwr : option Z;
  nbrs : list (string * ACSPNbr.t);
  nbrs_bydist : list ACSPNbr.t;
  nbrs_radios : list rid;
  (* class GUICircle: the geometry *)
  c : R * R;
  r : Z
}.

Definition set_mode (v : option string) (x : t) : t :=
  mk (name x) (mac x) (state x) v (phymode x) (band x) (nfloor x)
     (nfloor_window x) (nbr_score x) (ap x) (acsp_supported x) (chnl_state x)
     (chnl_disabled_reason x) (chnl_run_ts x) (chnl x) (width x) (pwr_state x)
     (pwr_disabled_reason x) (txpwr x) (nbrs x) (nbrs_bydist x) (nbrs_radios x)
     (c x) (r x).
Definition set_phymode (v : option string) (x : t) : t :=
  mk (name x) (mac x) (state x) (mode x) v (band x) (nfloor x) (nfloor_window x)
     (nbr_score x) (ap x) (acsp_supported x) (chnl_state x)
     (chnl_disabled_reason x) (chnl_run_ts x) (chnl x) (width x) (pwr_state x)
     (pwr_disabled_reason x) (txpwr x) (nbrs x) (nbrs_bydist x) (nbrs_radios x)
     (c x) (r x).
Definition set_band (v : option Z) (x : t) : t :=
  mk (name x) (mac x) (state x) (mode x) (phymode x) v (nfloor x)
     (nfloor_window x) (nbr_score x) (ap x) (acsp_supported x) (chnl_state x)
     (chnl_disabled_reason x) (chnl_run_ts x) (chnl x) (width x) (pwr_state x)
     (pwr_disabled_reason x) (txpwr x) (nbrs x) (nbrs_bydist x) (nbrs_radios x)
     (c x) (r x).
Definition set_nfloor (v : option Z) (x : t) : t :=
  mk (name x) (mac x) (state x) (mode x) (phymode x) (band x) v (nfloor_window x)
     (nbr_score x) (ap x) (acsp_supported x) (chnl_state x)
     (chnl_disabled_reason x) (chnl_run_ts x) (chnl x) (width x) (pwr_state x)
     (pwr_disabled_reason x) (txpwr x) (nbrs x) (nbrs_bydist x) (nbrs_radios x)
     (c x) (r x).
Definition set_nfloor_window (v : list Z) (x : t) : t :=
  mk (name x) (mac x) (state x) (mode x) (phymode x) (band x) (nfloor x) v
     (nbr_score x) (ap x) (acsp_supported x) (chnl_state x)
     (chnl_disabled_reason x) (chnl_run_ts x) (chnl x) (width x) (pwr_state x)
     (pwr_disabled_reason x) (txpwr x) (nbrs x) (nbrs_bydist x) (nbrs_radios x)
     (c x) (r x).
Definition set_nbr_score (v : option Z) (x : t) : t :=
  mk (name x) (mac x) (state x) (mode x) (phymode x) (band x) (nfloor x)
     (nfloor_window x) v (ap x) (acsp_supported x) (chnl_state x)
     (chnl_disabled_reason x) (chnl_run_ts x) (chnl x) (width x) (pwr_state x)
     (pwr_disabled_reason x) (txpwr x) (nbrs x) (nbrs_bydist x) (nbrs_radios x)
     (c x) (r x).
Definition set_acsp_supported (v : bool) (x : t) : t :=
  mk (name x) (mac x) (state x) (mode x) (phymode x) (band x) (nfloor x)
     (nfloor_window x) (nbr_score x) (ap x) v (chnl_state x)
     (chnl_disabled_reason x) (chnl_run_ts x) (chnl x) (width x) (pwr_state x)
     (pwr_disabled_reason x) (txpwr x) (nbrs x) (nbrs_bydist x) (nbrs_radios x)
     (c x) (r x).
Definition set_chnl_state (v : option string) (x : t) : t :=
  mk (name x) (mac x) (state x) (mode x) (phymode x) (band x) (nfloor x)
     (nfloor_window x) (nbr_score x) (ap x) (acsp_supported x) v
     (chnl_disabled_reason x) (chnl_run_ts x) (chnl x) (width x) (pwr_state x)
     (pwr_disabled_reason x) (txpwr x) (nbrs x) (nbrs_bydist x) (nbrs_radios x)
     (c x) (r x).
Definition set_chnl_disabled_reason (v : option string) (x : t) : t :=
  mk (name x) (mac x) (state x) (mode x) (phymode x) (band x) (nfloor x)
     (nfloor_window x) (nbr_score x) (ap x) (acsp_supported x) (chnl_state x) v
     (chnl_run_ts x) (chnl x) (width x) (pwr_state x) (pwr_disabled_reason x)
     (txpwr x) (nbrs x) (nbrs_bydist x) (nbrs_radios x) (c x) (r x).
Definition set_chnl_run_ts (v : option string) (x : t) : t :=
  mk (name x) (mac x) (state x) (mode x) (phymode x) (band x) (nfloor x)
     (nfloor_window x) (nbr_score x) (ap x) (acsp_supported x) (chnl_state x)
     (chnl_disabled_reason x) v (chnl x) (width x) (pwr_state x)
     (pwr_disabled_reason x) (txpwr x) (nbrs x) (nbrs_bydist x) (nbrs_radios x)
     (c x) (r x).
Definition set_chnl (v : option Z) (x : t) : t :=
  mk (name x) (mac x) (state x) (mode x) (phymode x) (band x) (nfloor x)
     (nfloor_window x) (nbr_score x) (ap x) (acsp_supported x) (chnl_state x)
     (chnl_disabled_reason x) (chnl_run_ts x) v (width x) (pwr_state x)
     (pwr_disabled_reason x) (txpwr x) (nbrs x) (nbrs_bydist x) (nbrs_radios x)
     (c x) (r x).
Definition set_width (v : option Z) (x : t) : t :=
  mk (name x) (mac x) (state x) (mode x) (phymode x) (band x) (nfloor x)
     (nfloor_window x) (nbr_score x) (ap x) (acsp_supported x) (chnl_state x)
     (chnl_disabled_reason x) (chnl_run_ts x) (chnl x) v (pwr_state x)
     (pwr_disabled_reason x) (txpwr x) (nbrs x) (nbrs_bydist x) (nbrs_radios x)
     (c x) (r x).
Definition set_pwr_state (v : option string) (x : t) : t :=
  mk (name x) (mac x) (state x) (mode x) (phymode x) (band x) (nfloor x)
     (nfloor_window x) (nbr_score x) (ap x) (acsp_supported x) (chnl_state x)
     (chnl_disabled_reason x) (chnl_run_ts x) (chnl x) (width x) v
     (pwr_disabled_reason x) (txpwr x) (nbrs x) (nbrs_bydist x) (nbrs_radios x)
     (c x) (r x).
Definition set_pwr_disabled_reason (v : option string) (x : t) : t :=
  mk (name x) (mac x) (state x) (mode x) (phymode x) (band x) (nfloor x)
     (nfloor_window x) (nbr_score x) (ap x) (acsp_supported x) (chnl_state x)
     (chnl_disabled_reason x) (chnl_run_ts x) (chnl x) (width x) (pwr_state x) v
     (txpwr x) (nbrs x) (nbrs_bydist x) (nbrs_radios x) (c x) (r x).
Definition set_txpwr (v : option Z) (x : t) : t :=
  mk (name x) (mac x) (state x) (mode x) (phymode x) (band x) (nfloor x)
     (nfloor_window x) (nbr_score x) (ap x) (acsp_supported x) (chnl_state x)
     (chnl_disabled_reason x) (chnl_run_ts x) (chnl x) (width x) (pwr_state x)
     (pwr_disabled_reason x) v (nbrs x) (nbrs_bydist x) (nbrs_radios x) (c x)
     (r x).
Definition set_nbrs (v : list (string * ACSPNbr.t)) (x : t) : t :=
  mk (name x) (mac x) (state x) (mode x) (phymode x) (band x) (nfloor x)
     (nfloor_window x) (nbr_score x) (ap x) (acsp_supported x) (chnl_state x)
     (chnl_disabled_reason x) (chnl_run_ts x) (chnl x) (width x) (pwr_state x)
     (pwr_disabled_reason x) (txpwr x) v (nbrs_bydist x) (nbrs_radios x) (c x)
     (r x).
Definition set_nbrs_bydist (v : list ACSPNbr.t) (x : t) : t :=
  mk (name x) (mac x) (state x) (mode x) (phymode x) (band x) (nfloor x)
     (nfloor_window x) (nbr_score x) (ap x) (acsp_supported x) (chnl_state x)
     (chnl_disabled_reason x) (chnl_run_ts x) (chnl x) (width x) (pwr_state x)
     (pwr_disabled_reason x) (txpwr x) (nbrs x) v (nbrs_radios x) (c x) (r x).
Definition set_nbrs_radios (v : list rid) (x : t) : t :=
  mk (name x) (mac x) (state x) (mode x) (phymode x) (band x) (nfloor x)
     (nfloor_window x) (nbr_score x) (ap x) (acsp_supported x) (chnl_state x)
     (chnl_disabled_reason x) (chnl_run_ts x) (chnl x) (width x) (pwr_state x)
     (pwr_disabled_reason x) (txpwr x) (nbrs x) (nbrs_bydist x) v (c x) (r x).
Definition set_c (v : R * R) (x : t) : t :=
  mk (name x) (mac x) (state x) (mode x) (phymode x) (band x) (nfloor x)
     (nfloor_window x) (nbr_score x) (ap x) (acsp_supported x) (chnl_state x)
     (chnl_disabled_reason x) (chnl_run_ts x) (chnl x) (width x) (pwr_state x)
     (pwr_disabled_reason x) (txpwr x) (nbrs x) (nbrs_bydist x) (nbrs_radios x) v
     (r x).
Definition set_r (v : Z) (x : t) : t :=
  mk (name x) (mac x) (state x) (mode x) (phymode x) (band x) (nfloor x)
     (nfloor_window x) (nbr_score x) (ap x) (acsp_supported x) (chnl_state x)
     (chnl_disabled_reason x) (chnl_run_ts x) (chnl x) (width x) (pwr_state x)
     (pwr_disabled_reason x) (txpwr x) (nbrs x) (nbrs_bydist x) (nbrs_radios x)
     (c x) v.

(** [Radio(name, mac, state, ap)]: [ACSP.__init__] runs first and
    [GUICircle.__init__] after it (lines 543-544), so [width] ends as the 0
    of line 233. *)
Definition init (name mac state ap : string) : t :=
  mk name mac state None None None None [] None ap
     false None None None None (Some 0) None None None [] [] []
     (0%R, 0%R) 0.

End Radio.

(** What the device at the other end of the shell will do next: the outcome
    of each coming connection attempt, and the bytes each coming command
    reads back ([None]: the read times out).  An exhausted list means
    failure. *)
Record Wire := mkWire {
  connects : list bool;
  answers : list (option string)
}.

(** class AP(SSHNode). [shell] tells whether [self.shell] is set. *)
Module AP.
Record t := mk {
  ip : string;
  shell : bool;
  active : bool;
  name : option string;
  mac : option string;
  hive : option string;
  radios : list (string * Radio.t);
  wire : Wire
}.

Definition set_shell (v : bool) (x : t) : t :=
  mk (ip x) v (active x) (name x) (mac x) (hive x) (radios x) (wire x).
Definition set_active (v : bool) (x : t) : t :=
  mk (ip x) (shell x) v (name x) (mac x) (hive x) (radios x) (wire x).
Definition set_name (v : option string) (x : t) : t :=
  mk (ip x) (shell x) (active x) v (mac x) (hive x) (radios x) (wire x).
Definition set_mac (v : option string) (x : t) : t :=
  mk (ip x) (shell x) (active x) (name x) v (hive x) (radios x) (wire x).
Definition set_hive (v : option string) (x : t) : t :=
  mk (ip x) (shell x) (active x) (name x) (mac x) v (radios x) (wire x).
Definition set_radios (v : list (string * Radio.t)) (x : t) : t :=
  mk (ip x) (shell x) (active x) (name x) (mac x) (hive x) v (wire x).
Definition set_wire (v : Wire) (x : t) : t :=
  mk (ip x) (shell x) (active x) (name x) (mac x) (hive x) (radios x) v.

(** [AP(ip)] talking to a device that behaves as [w]. *)
Definition init (ip : string) (w : Wire) : t :=
  mk ip false false None None None [] w.

End AP.

(** The module-level state: the tunables, the keys of [NODES], [APS], and
    whether [APS_LOCK] is held. *)
Record World := mkWorld {
  G : Globals;
  NODES : list string;
  APS : list (string * AP.t);
  APS_LOCK : bool
}.

Definition set_G (v : Globals) (w : World) : World :=
  mkWorld v (NODES w) (APS w) (APS_LOCK w).
Definition set_NODES (v : list string) (w : World) : World :=
  mkWorld (G w) v (APS w) (APS_LOCK w).
Definition set_APS (v : list (string * AP.t)) (w : World) : World :=
  mkWorld (G w) (NODES w) v (APS_LOCK w).
Definition set_APS_LOCK (v : bool) (w : World) : World :=
  mkWorld (G w) (NODES w) (APS w) v.

(** Resolving and updating a Radio through its reference. *)
Definition get_radio (w : World) (i : rid) : option Radio.t :=
  match Dict.get (fst i) (APS w) with
  | Some a => Dict.get (snd i) (AP.radios a)
  | None => None
  end.

Definition put_radio (i : rid) (rd : Radio.t) (w : World) : World :=
  match Dict.get (fst i) (APS w) with
  | Some a => set_APS (Dict.set (fst i) (AP.set_radios (Dict.set (snd i) rd (AP.radios a)) a) (APS w)) w
  | None => w
  end.

(** ** State and exceptions

    A statement runs in a [World] and either completes or raises; what it
    assigned before raising stays assigned. *)

Definition M (A : Type) : Type := World -> World * (exn + A).

Definition ret {A} (a : A) : M A := fun w => (w, inr a).
Definition raise {A} (e : exn) : M A := fun w => (w, inl e).
Definition bind {A B} (m : M A) (k : A -> M B) : M B :=
  fun w => match m w with
           | (w', inr a) => k a w'
           | (w', inl e) => (w', inl e)
           end.
Definition gets {A} (f : World -> A) : M A := fun w => (w, inr (f w)).
Definition modify (f : World -> World) : M unit := fun w => (f w, inr tt).
Definition lift {A} (x : exn + A) : M A := fun w => (w, x).
Definition or_raise {A} (e : exn) (o : option A) : M A :=
  match o with Some a => ret a | None => raise e end.
(** [try: m / except Exception as e: handler]; a thread that is blocked
    inside [m] reaches no handler. *)
Definition try_except {A} (m : M A) (handler : exn -> M A) : M A :=
  fun w => match m w with
           | (w', inl Blocked) => (w', inl Blocked)
           | (w', inl e) => handler e w'
           | done => done
           end.

(** [APS_LOCK.acquire()] and [APS_LOCK.release()] of a [threading.Lock],
    which no thread can take twice.  The release of line 472 is reached
    only after the acquire of line 409, with the lock held. *)
Definition acquire_APS_LOCK : M unit :=
  fun w => if APS_LOCK w then (w, inl Blocked) else (set_APS_LOCK true w, inr tt).
Definition release_APS_LOCK : M unit := modify (set_APS_LOCK false).

Declare Scope py_scope.
Delimit Scope py_scope with py.
Notation "x <- m ;; k" := (bind m (fun x => k))
  (at level 61, m at next level, right associativity) : py_scope.
Notation "m ;;; k" := (bind m (fun _ => k))
  (at level 61, right associativity) : py_scope.
Local Open Scope py_scope.

Fixpoint for_each {A} (l : list A) (body : A -> M unit) : M unit :=
  match l with
  | [] => ret tt
  | x :: l' => body x ;;; for_each l' body
  end.

(** A Radio object read and assigned through its reference.  In a world
    where every reference resolves the [KeyError] is never raised. *)
Definition the_radio (i : rid) : M Radio.t :=
  fun w => (w, match get_radio w i with Some rd => inr rd | None => inl KeyError end).
Definition assign (i : rid) (f : Radio.t -> Radio.t) : M unit :=
  fun w => match get_radio w i with
           | Some rd => (put_radio i (f rd) w, inr tt)
           | None => (w, inl KeyError)
           end.

(** ** class SSHNode *)

Definition nl : string := String Str.newline EmptyString.

(** What [ssh_cmd] returns: [None] or a [str]. *)
Inductive pyout := ONone | OStr (s : string).

(** What [ssh_cmd_lines] returns: [None], the empty [str] or a list of
    lines. *)
Inductive pylines := LNone | LEmptyStr | LLines (l : list string).

Definition ssh_open (self : AP.t) : AP.t * bool :=
  match connects (AP.wire self) with
  | true :: cs =>
      (AP.set_active true (AP.set_shell true
         (AP.set_wire (mkWire cs (answers (AP.wire self))) self)), true)
  | false :: cs =>
      (AP.set_active false (AP.set_shell false
         (AP.set_wire (mkWire cs (answers (AP.wire self))) self)), false)
  | [] => (AP.set_active false (AP.set_shell false self), false)
  end.

(** Line 196 calls [node.ssh_cmd] where no [node] is bound: once the
    session is reopened the call raises [NameError]. *)
Definition ssh_cmd (self : AP.t) (cmd : string) : AP.t * (exn + pyout) :=
  if AP.shell self then
    match answers (AP.wire self) with
    | Some out :: rest =>
        (AP.set_active true (AP.set_wire (mkWire (connects (AP.wire self)) rest) self),
         inr (OStr out))
    | None :: rest =>
        (AP.set_shell false (AP.set_active false
           (AP.set_wire (mkWire (connects (AP.wire self)) rest) self)),
         inl SSHLostException)
    | [] => (AP.set_shell false (AP.set_active false self), inl SSHLostException)
    end
  else
    let '(self, opened) := ssh_open self in
    if opened then (self, inl NameError) else (self, inr ONone).

Definition ssh_cmd_lines (self : AP.t) (cmd : string) : AP.t * (exn + pylines) :=
  match ssh_cmd self cmd with
  | (self, inl e) => (self, inl e)
  | (self, inr ONone) => (self, inr LNone)
  | (self, inr (OStr out)) =>
      if Str.is_empty out then (self, inr LEmptyStr)
      else (self, inr (LLines (Str.strip_ends (Str.split_on Str.newline out))))
  end.

(** A method of the AP with address [ip], run on the object stored in [APS]. *)
Definition on_ap {A} (ip : string) (f : AP.t -> AP.t * (exn + A)) : M A :=
  fun w => match Dict.get ip (APS w) with
           | Some a => let '(a', res) := f a in
                       (set_APS (Dict.set ip a' (APS w)) w, res)
           | None => (w, inl KeyError)
           end.

(** ** class ACSP: the neighbor table *)

Definition CHNL_STATE_DISABLE : string := "Disable".
Definition CHNL_STATE_INIT : string := "Init".
Definition CHNL_STATE_SCAN : string := "Scanning".
Definition CHNL_STATE_REQ : string := "Channel_Req".
Definition CHNL_STATE_LISTEN_DFS : string := "DFS_CAC".
Definition CHNL_STATE_LISTEN : string := "Listening".
Definition CHNL_STATE_RUN : string := "Enable".
Definition CHNL_STATE_SCHED_WAIT : string := "Sched_Waiting".

(** [state == CONST], where [state] may be [None]. *)
Definition state_is (s : option string) (k : string) : bool :=
  match s with Some s => String.eqb s k | None => false end.

Definition sum_Z (l : list Z) : Z := fold_left Z.add l 0.

(** [window.append(x); if len(window) > RF_SMOOTH_WINDOW: window.pop(0)] *)
Definition window_push (smooth_window : Z) (window : list Z) (x : Z) : list Z :=
  let window := window ++ [x] in
  if Z.of_nat (List.length window) >? smooth_window then tl window else window.

(** [sum(window) / len(window)] *)
Definition window_mean (window : list Z) : exn + Z :=
  match window with
  | [] => inl ZeroDivisionError
  | _ => inr (sum_Z window / Z.of_nat (List.length window))
  end.

(** The body of the [try] of lines 424-429 on one row of the table. *)
Definition parse_vap (vap : string) : exn + (Z * Z * Z * Z) :=
  let vap_cols := Str.split vap in
  match Str.search_rssi vap with
  | None => inl AttributeError
  | Some g =>
  match Str.int g with
  | None => inl ValueError
  | Some rssi =>
  match Str.nth_last vap_cols 2 with
  | None => inl IndexError
  | Some c2 =>
  match Str.int c2 with
  | None => inl ValueError
  | Some sta =>
  match Str.nth_last vap_cols 3 with
  | None => inl IndexError
  | Some c3 =>
  match Str.last_char c3 with
  | None => inl IndexError
  | Some d =>
  match Str.int (String d EmptyString) with
  | None => inl ValueError
  | Some crc =>
  match (if (3 <? String.length c3)%nat then Some (Str.take 3 c3)
         else Str.nth_last vap_cols 4) with
  | None => inl IndexError
  | Some cu =>
  match Str.int cu with
  | None => inl ValueError
  | Some cu => inr (rssi, sta, crc, cu)
  end end end end end end end end end.

(** The [for vap in vaps] of lines 422-432. *)
Fixpoint sum_vaps (vaps : list string) (tot : Z * Z * Z * Z) : exn + (Z * Z * Z * Z) :=
  match vaps with
  | [] => inr tot
  | vap :: vaps' =>
      match parse_vap vap with
      | inl e => inl e
      | inr (rssi, sta, crc, cu) =>
          let '(tot_rssi, tot_sta, tot_crc, tot_cu) := tot in
          sum_vaps vaps' (tot_rssi + rssi, tot_sta + sta, tot_crc + crc, tot_cu + cu)
      end
  end.

(** [[vap for vap in nbrtab if radio.mac[:-1] in vap]] *)
Definition vaps_of (nbrtab : pylines) (mac : string) : exn + list string :=
  match nbrtab with
  | LNone => inl TypeError
  | LEmptyStr => inr []
  | LLines l => inr (filter (Str.contains (Str.drop_last mac)) l)
  end.

(** Lines 415-465 for one radio of another AP: a new [ACSPNbr] with an
    empty [rssi_window] is filled and stored under the radio's MAC. *)
Definition update_one_nbr (self : rid) (nbrtab : pylines) (ref : rid) (radio : Radio.t)
    : M unit :=
  vaps <- lift (vaps_of nbrtab (Radio.mac radio)) ;;
  match vaps with
  | [] => ret tt
  | _ :: _ =>
      tot <- lift (sum_vaps vaps (0, 0, 0, 0)) ;;
      let '(tot_rssi, tot_sta, tot_crc, tot_cu) := tot in
      smooth_window <- gets (fun w => RF_SMOOTH_WINDOW (G w)) ;;
      let rssi_window :=
        window_push smooth_window [] (tot_rssi / Z.of_nat (List.length vaps)) in
      rssi <- lift (window_mean rssi_window) ;;
      let nbr := ACSPNbr.mk ref rssi rssi_window tot_sta
                   (tot_crc / Z.of_nat (List.length vaps)) in
      assign self (fun rd => Radio.set_nbrs (Dict.set (Radio.mac radio) nbr (Radio.nbrs rd)) rd)
  end.

(** [sort_nbr_bydist], the key of the sort: it assigns 20 to a neighbor
    radio whose [txpwr] is [None] or 0. *)
Definition sort_nbr_bydist (n : ACSPNbr.t) : M Z :=
  radio <- the_radio (ACSPNbr.radio n) ;;
  match Radio.txpwr radio with
  | Some t =>
      if t =? 0 then assign (ACSPNbr.radio n) (Radio.set_txpwr (Some 20)) ;;; ret (20 - ACSPNbr.rssi n)
      else ret (t - ACSPNbr.rssi n)
  | None => assign (ACSPNbr.radio n) (Radio.set_txpwr (Some 20)) ;;; ret (20 - ACSPNbr.rssi n)
  end.

Fixpoint keyed (l : list ACSPNbr.t) : M (list (Z * ACSPNbr.t)) :=
  match l with
  | [] => ret []
  | n :: l' => k <- sort_nbr_bydist n ;; rest <- keyed l' ;; ret ((k, n) :: rest)
  end.

(** [sorted] is stable: an element goes after those whose key is not larger. *)
Fixpoint insert_by_key {A} (x : Z * A) (l : list (Z * A)) : list (Z * A) :=
  match l with
  | [] => [x]
  | y :: l' => if fst x <? fst y then x :: y :: l' else y :: insert_by_key x l'
  end.
Definition sorted_by_key {A} (l : list (Z * A)) : list A :=
  map snd (fold_left (fun acc x => insert_by_key x acc) l []).

(** ACSP.update_acsp_nbrs (lines 397-475).  [APS_LOCK] is taken at line
    409 and released at line 472 only: an exception in between leaves it
    held. *)
Definition update_acsp_nbrs (self : rid) : M unit :=
  nbrtab <- on_ap (fst self) (fun ssh => ssh_cmd_lines ssh ("show acsp neighbor" ++ nl)) ;;
  assign self (Radio.set_nbrs []) ;;;
  acquire_APS_LOCK ;;;
  aps <- gets APS ;;
  for_each aps (fun '(ip, ap) =>
    if String.eqb ip (fst self) then ret tt
    else for_each (AP.radios ap) (fun '(name, radio) =>
           update_one_nbr self nbrtab (ip, name) radio)) ;;;
  rd <- the_radio self ;;
  match Radio.nbrs rd with
  | [] => ret tt
  | _ :: _ =>
      ks <- keyed (Dict.values (Radio.nbrs rd)) ;;
      let nbrs_bydist := sorted_by_key ks in
      assign self (fun rd =>
        Radio.set_nbrs_radios (map ACSPNbr.radio nbrs_bydist)
          (Radio.set_nbrs_bydist nbrs_bydist rd))
  end ;;;
  release_APS_LOCK.

(** ** class ACSP: the per-radio row of [show acsp] *)

Definition is_acsp_mode (m : option string) : bool :=
  state_is m "access" || state_is m "backhaul" || state_is m "dual".

(** [l[n]] on a list, and [out[n]] on what [ssh_cmd_lines] returned. *)
Definition list_get {A} (l : list A) (n : nat) : exn + A :=
  match nth_error l n with Some x => inr x | None => inl IndexError end.
Definition lines_get (out : pylines) (n : nat) : exn + string :=
  match out with
  | LNone => inl TypeError
  | LEmptyStr => inl IndexError
  | LLines l => list_get l n
  end.

(** ACSP.update_acsp_stats (lines 477-526); [now] is what
    [datetime.now().strftime(...)] returns during the call. *)
Definition update_acsp_stats (self : rid) (now : string) : M unit :=
  rd <- the_radio self ;;
  if is_acsp_mode (Radio.mode rd) then
    assign self (Radio.set_acsp_supported true) ;;;
    out <- on_ap (fst self) (fun ssh => ssh_cmd_lines ssh ("show acsp" ++ nl)) ;;
    let line := if String.eqb (Radio.name rd) IFNAME_WIFI0 then 3%nat else 4%nat in
    row <- lift (lines_get out line) ;;
    let row := fillwhite row "(" ")" "-" in
    let row := fillwhite row "Channel" "Req" "-" in
    let row := fillwhite row "DFS" "CAC" "-" in
    let row := fillwhite row "Sched" "Waiting" "-" in
    let acsp_infos := Str.split row in
    info1 <- lift (list_get acsp_infos 1) ;;
    info1 <- match Str.search_reason info1 with
             | Some reason =>
                 assign self (Radio.set_chnl_disabled_reason (Some reason)) ;;;
                 ret (Str.sub_reason info1)
             | None =>
                 assign self (Radio.set_chnl_disabled_reason None) ;;; ret info1
             end ;;
    rd <- the_radio self ;;
    (if negb (state_is (Radio.chnl_state rd) CHNL_STATE_RUN) && String.eqb info1 CHNL_STATE_RUN
     then assign self (Radio.set_chnl_run_ts (Some now)) else ret tt) ;;;
    assign self (Radio.set_chnl_state (Some info1)) ;;;
    info2 <- lift (list_get acsp_infos 2) ;;
    chnl <- or_raise ValueError (Str.int info2) ;;
    assign self (Radio.set_chnl (Some chnl)) ;;;
    header <- lift (lines_get out 1) ;;
    pwr_idx <- (if Str.contains "width" header then
                  info3 <- lift (list_get acsp_infos 3) ;;
                  width <- or_raise ValueError (Str.int info3) ;;
                  assign self (Radio.set_width (Some width)) ;;; ret 4%nat
                else ret 3%nat) ;;
    infop <- lift (list_get acsp_infos pwr_idx) ;;
    infop <- match Str.search_reason infop with
             | Some reason =>
                 assign self (Radio.set_chnl_disabled_reason (Some reason)) ;;;
                 ret (Str.sub_reason infop)
             | None =>
                 assign self (Radio.set_pwr_disabled_reason None) ;;; ret infop
             end ;;
    assign self (Radio.set_pwr_state (Some infop)) ;;;
    infot <- lift (list_get acsp_infos (pwr_idx + 1)) ;;
    txpwr <- or_raise ValueError (Str.int infot) ;;
    assign self (Radio.set_txpwr (Some txpwr)) ;;;
    update_acsp_nbrs self
  else
    assign self (Radio.set_acsp_supported false).

(** ** class Radio *)

(** GUICircle.draw (lines 250-274), as far as the geometry goes: the
    centre, the radius and the outline width, which is 1 for a transparent
    or an inactive circle and 0 otherwise.  [transp] is
    [CANVAS_COLOR_TRANSP] at the call. *)
Definition draw (c : R * R) (r : Z) (transp active : bool) (self : Radio.t) : Radio.t :=
  Radio.set_width (Some (if transp || negb active then 1 else 0))
    (Radio.set_r r (Radio.set_c c self)).

(** Radio.show (lines 603-633): the radius is computed from the radio's
    [txpwr] and [chnl] and from the three tunables, and handed to [draw]
    with [active=self.ap.active].  The text of the circle is built in
    between; its line 624 concatenates [chnl_run_ts], which raises
    [TypeError] on [None]. *)
Definition show (self : rid) (c : R * R) : M unit :=
  rd <- the_radio self ;;
  g <- gets G ;;
  hidden <- (if String.eqb (RADIO_DISPLAYED g) "a" then ret false
             else last <- or_raise IndexError (Str.last_char (Radio.name rd)) ;;
                  ret (negb (String.eqb (RADIO_DISPLAYED g) (String last EmptyString)))) ;;
  if (hidden : bool) then ret tt
  else if is_acsp_mode (Radio.mode rd) then
    chnl <- or_raise TypeError (Radio.chnl rd) ;;
    txpwr <- or_raise TypeError (Radio.txpwr rd) ;;
    r <- lift (coverage_radius txpwr chnl (RF_AVR_NFLOOR g) (RF_AVR_NFLOOR_MARGIN g)
                 (CANVAS_METER_PER_DOT g)) ;;
    (if ACSP_RUN_TIMESTAMP g && state_is (Radio.chnl_state rd) CHNL_STATE_RUN
     then or_raise TypeError (Radio.chnl_run_ts rd) else ret EmptyString) ;;;
    ap <- gets (fun w => Dict.get (fst self) (APS w)) ;;
    ap <- or_raise KeyError ap ;;
    assign self (draw c r (CANVAS_COLOR_TRANSP g) (AP.active ap))
  else ret tt.

(** [sys.maxint] of CPython 2 on an LP64 platform. *)
Definition sys_maxint : Z := 2 ^ 63 - 1.

(** The [chnl_state] seen through [nbr.radio]. *)
Definition nbr_chnl_state (w : World) (nbr : ACSPNbr.t) : option string :=
  match get_radio w (ACSPNbr.radio nbr) with
  | Some rd => Radio.chnl_state rd
  | None => None
  end.

(** Radio.calc_nbr_score (lines 635-653). *)
Definition calc_nbr_score (w : World) (self : Radio.t) : Z :=
  match Radio.nbrs self with
  | [] => - sys_maxint - 1
  | _ :: _ =>
      fold_left
        (fun score nbr =>
           let s := nbr_chnl_state w nbr in
           let snr := ACSPNbr.rssi nbr - RF_AVR_NFLOOR (G w) in
           if state_is s CHNL_STATE_DISABLE || state_is s CHNL_STATE_RUN then score + snr / 2
           else if state_is s CHNL_STATE_SCAN || state_is s CHNL_STATE_LISTEN then score + snr / 4
           else if state_is s CHNL_STATE_INIT || state_is s CHNL_STATE_SCHED_WAIT then score + snr / 6
           else score + snr / 8)
        (Dict.values (Radio.nbrs self)) 0
  end.

(** The [try] block of lines 657-664 on the text [out]. *)
Definition parse_interface (self : rid) (out : pyout) : M unit :=
  text <- match out with ONone => raise TypeError | OStr s => ret s end ;;
  mode <- or_raise AttributeError (Str.search_lazy "Mode=" ";" text) ;;
  assign self (Radio.set_mode (Some mode)) ;;;
  phymode <- or_raise AttributeError (Str.search_lazy "Phymode=" ";" text) ;;
  assign self (Radio.set_phymode (Some phymode)) ;;;
  assign self (Radio.set_band (Some (if Str.contains "a" phymode then 5 else 2))) ;;;
  nf <- or_raise AttributeError (Str.search_lazy "Noise floor=" "dBm;" text) ;;
  nf <- or_raise ValueError (Str.int nf) ;;
  rd <- the_radio self ;;
  smooth_window <- gets (fun w => RF_SMOOTH_WINDOW (G w)) ;;
  let window := window_push smooth_window (Radio.nfloor_window rd) nf in
  assign self (Radio.set_nfloor_window window) ;;;
  nfloor <- lift (window_mean window) ;;
  assign self (Radio.set_nfloor (Some nfloor)).

(** Lines 675-693: both radios of the AP are redrawn on one centre.  Line
    676 concatenates the AP's [name] and [mac], which raises [TypeError]
    while one of them is [None]; the [apname] it builds goes to the canvas
    only. *)
Definition redraw (self : rid) : M unit :=
  rd <- the_radio self ;;
  ap <- gets (fun w => Dict.get (fst self) (APS w)) ;;
  ap <- or_raise KeyError ap ;;
  let c := Radio.c rd in
  name <- or_raise TypeError (AP.name ap) ;;
  mac <- or_raise TypeError (AP.mac ap) ;;
  let apname := (name ++ "/" ++ mac)%string in
  if (2 <=? List.length (AP.radios ap))%nat then
    c <- (if negb (String.eqb (Radio.name rd) IFNAME_WIFI0)
          then rd0 <- or_raise KeyError (Dict.get IFNAME_WIFI0 (AP.radios ap)) ;; ret (Radio.c rd0)
          else ret c) ;;
    rd0 <- or_raise KeyError (Dict.get IFNAME_WIFI0 (AP.radios ap)) ;;
    rd1 <- or_raise KeyError (Dict.get IFNAME_WIFI1 (AP.radios ap)) ;;
    if Radio.r rd0 >? Radio.r rd1 then
      show (fst self, IFNAME_WIFI0) c ;;; show (fst self, IFNAME_WIFI1) c
    else
      show (fst self, IFNAME_WIFI1) c ;;; show (fst self, IFNAME_WIFI0) c
  else show self c.

(** Radio.update_radio_stats (lines 655-693). *)
Definition update_radio_stats (self : rid) (now : string) : M unit :=
  rd <- the_radio self ;;
  out <- on_ap (fst self) (fun ssh => ssh_cmd ssh ("show interface " ++ Radio.name rd ++ nl)) ;;
  try_except (parse_interface self out) (fun e => raise e) ;;;
  update_acsp_stats self now ;;;
  w <- gets (fun w => w) ;;
  rd <- the_radio self ;;
  assign self (Radio.set_nbr_score (Some (calc_nbr_score w rd))) ;;;
  redraw self.

(** ** class AP *)

(** The handlers of lines 726-733: a lost session has every radio redrawn
    as inactive, where it is; any other exception is logged. *)
Definition radio_failed (self : string) (names : list string) (e : exn) : M unit :=
  if is_ssh_lost e then
    g <- gets G ;;
    for_each names (fun name =>
      assign (self, name) (fun r => draw (Radio.c r) (Radio.r r) (CANVAS_COLOR_TRANSP g) false r))
  else ret tt.

(** The [try] statement of lines 722-733 for the radio [name]. *)
Definition update_radio_guarded (self : string) (names : list string) (name : string)
    (now : string) : M unit :=
  try_except (update_radio_stats (self, name) now) (radio_failed self names).

(** AP.update_ap_stats (lines 720-733): no exception of a radio's update
    leaves the loop. *)
Definition update_ap_stats (self : string) (now : string) : M unit :=
  ap <- gets (fun w => Dict.get self (APS w)) ;;
  ap <- or_raise KeyError ap ;;
  for_each (Dict.keys (AP.radios ap)) (fun name =>
    update_radio_guarded self (Dict.keys (AP.radios ap)) name now).

(** The poller's loop, [while True: node.update_ap_stats(); time.sleep(0.5)],
    run for [n] turns; [now k] is the clock during turn [k]. *)
Fixpoint poll (n : nat) (self : string) (now : nat -> string) : M unit :=
  match n with
  | O => ret tt
  | S n' => update_ap_stats self (now O) ;;; poll n' self (fun k => now (S k))
  end.

(** ** detect_ap (lines 737-792) *)

(** How the thread that runs [detect_ap] ends up: it returned, it died of
    an exception nothing caught, or it entered the poller's loop. *)
Inductive outcome := Returned | Died (e : exn) | Polling.

(** [del NODES[ip]] *)
Definition del_NODES (ip : string) (w : World) : exn + World :=
  if existsb (String.eqb ip) (NODES w)
  then inr (set_NODES (filter (fun k => negb (String.eqb ip k)) (NODES w)) w)
  else inl KeyError.

(** The negation of line 747:
    [not out or len(out) == 0 or 'Wifi0' not in ''.join(out)]. *)
Definition looks_like_ap (out : pylines) : bool :=
  match out with
  | LLines (l0 :: l) => Str.contains "Wifi0" (Str.join (l0 :: l))
  | _ => false
  end.

(** [line.split()[k]] *)
Definition col (line : string) (k : nat) : exn + string :=
  list_get (Str.split line) k.

(** AP.setup_radio *)
Definition setup_radio (name mac state : string) (self : AP.t) : AP.t :=
  AP.set_radios (Dict.set name (Radio.init name mac state (AP.ip self)) (AP.radios self)) self.

(** [setup_radio(name, out[0].split()[1], out[0].split()[3], node)] *)
Definition setup_radio_from (name : string) (out : pylines) (node : AP.t) : exn + AP.t :=
  match lines_get out 0 with
  | inl e => inl e
  | inr l0 =>
      match col l0 1 with
      | inl e => inl e
      | inr mac =>
          match col l0 3 with
          | inl e => inl e
          | inr state => inr (setup_radio name mac state node)
          end
      end
  end.

(** The [try] block of lines 757-761.  The boolean tells whether [tmp] was
    bound when the block stopped. *)
Definition identify (node : AP.t) : AP.t * bool * (exn + unit) :=
  match ssh_cmd_lines node ("show interface | in mgt0" ++ nl) with
  | (node, inl e) => (node, false, inl e)
  | (node, inr tmp) =>
  match lines_get tmp 0 with
  | inl e => (node, true, inl e)
  | inr l0 =>
  match col l0 1 with
  | inl e => (node, true, inl e)
  | inr mac =>
  let node := AP.set_mac (Some mac) node in
  match col l0 7 with
  | inl e => (node, true, inl e)
  | inr hive =>
  let node := AP.set_hive (Some hive) node in
  match ssh_cmd_lines node ("show version | in Platform" ++ nl) with
  | (node, inl e) => (node, true, inl e)
  | (node, inr tmp) =>
  match lines_get tmp 0 with
  | inl e => (node, true, inl e)
  | inr l0 =>
  match col l0 1 with
  | inl e => (node, true, inl e)
  | inr name => (AP.set_name (Some name) node, true, inr tt)
  end end end end end end end.

(** [node.name[:2] == 'SR'] *)
Definition is_SR (name : string) : bool := String.eqb (Str.take 2 name) "SR".

(** Lines 771-792, entered with the probe output [out] of [wifi0].  Once
    [APS[node.ip] = node] has run, [APS] and [node] name one object: what is
    assigned to [node] afterwards is written to [APS] as well. *)
Definition register_and_poll (w : World) (node : AP.t) (out : pylines)
    : World * AP.t * outcome :=
  let ip := AP.ip node in
  let known := Dict.mem ip (APS w) in
  if known && AP.active node then (w, node, Returned)
  else
    let node := if known then AP.set_active true node else node in
    let publish (node : AP.t) (w : World) : World :=
      if known then w else set_APS (Dict.set ip node (APS w)) w in
    match setup_radio_from IFNAME_WIFI0 out node with
    | inl e => (publish node w, node, Died e)
    | inr node =>
        match ssh_cmd_lines node ("show interface | in " ++ IFNAME_WIFI1 ++ nl) with
        | (node, inl e) => (publish node w, node, Died e)
        | (node, inr (LLines (l0 :: l))) =>
            match setup_radio_from IFNAME_WIFI1 (LLines (l0 :: l)) node with
            | inl e => (publish node w, node, Died e)
            | inr node => (publish node w, node, Polling)
            end
        | (node, inr _) => (publish node w, node, Polling)
        end
    end.

Definition detect_ap (w : World) (node : AP.t) : World * AP.t * outcome :=
  let ip := AP.ip node in
  let forget (w : World) (node : AP.t) : World * AP.t * outcome :=
    match del_NODES ip w with
    | inl e => (w, node, Died e)
    | inr w => (w, node, Returned)
    end in
  match ssh_open node with
  | (node, false) => forget w node
  | (node, true) =>
  match ssh_cmd_lines node ("show interface | in " ++ IFNAME_WIFI0 ++ nl) with
  | (node, inl e) => (w, node, Died e)
  | (node, inr out) =>
  if negb (looks_like_ap out) then forget w node
  else
  match ssh_cmd node ("console timeout 0" ++ nl) with
  | (node, inl e) => (w, node, Died e)
  | (node, inr _) =>
  match ssh_cmd node ("console page 0" ++ nl) with
  | (node, inl e) => (w, node, Died e)
  | (node, inr _) =>
  let '(node, tmp_bound, res) := identify node in
  (* the handler of lines 762-766: its LOG reads [tmp], then the node is
     forgotten, and the function goes on *)
  match (match res with
         | inr _ => inr w
         | inl _ => if tmp_bound then del_NODES ip w else inl NameError
         end) with
  | inl e => (w, node, Died e)
  | inr w =>
  match AP.name node with
  | None => (w, node, Died TypeError)
  | Some name =>
      (* lines 768-769: when [is_SR name] holds an ALERT is logged, and
         nothing else *)
      register_and_poll w node out
  end end end end end end.

(** ** Geometry (lines 825-875) *)

Definition Reqb (a b : R) : bool := if Req_dec_T a b then true else false.
Definition Rltb (a b : R) : bool := if Rlt_dec a b then true else false.
Definition Rleb (a b : R) : bool := if Rle_dec a b then true else false.

Definition distance (p1 p2 : R * R) : R :=
  let '(x1, y1) := p1 in
  let '(x2, y2) := p2 in
  sqrt ((x1 - x2) ^ 2 + (y1 - y2) ^ 2)%R.

Module Cpoints.
Local Open Scope R_scope.

(** The numerators and denominators of the closed forms of lines 863 and
    864, term for term. *)
Definition p1x_num (x1 y1 r1 x2 y2 r2 : R) : R :=
  ((y1 - y2)*(-x1^2*y1 - x1^2*y2 + 2*x1*x2*y1 + 2*x1*x2*y2 - x2^2*y1 - x2^2*y2 - y1^3 +
  y1^2*y2 + y1*y2^2 + y1*r1^2 - y1*r2^2 - y2^3 - y2*r1^2 + y2*r2^2 + sqrt ((x1 -
  x2)^2*(-x1^2 + 2*x1*x2 - x2^2 - y1^2 + 2*y1*y2 - y2^2 + r1^2 + 2*r1*r2 + r2^2)*(x1^2 -
  2*x1*x2 + x2^2 + y1^2 - 2*y1*y2 + y2^2 - r1^2 + 2*r1*r2 - r2^2))) + (x1^2 - x2^2 + y1^2
  - y2^2 - r1^2 + r2^2)*(x1^2 - 2*x1*x2 + x2^2 + y1^2 - 2*y1*y2 + y2^2)).

Definition p1x_den (x1 y1 r1 x2 y2 r2 : R) : R :=
  (2*(x1 - x2)*(x1^2 - 2*x1*x2 + x2^2 + y1^2 - 2*y1*y2 + y2^2)).

Definition p1y_num (x1 y1 r1 x2 y2 r2 : R) : R :=
  (sqrt ((x1 - x2)^2*(-x1^2 + 2*x1*x2 - x2^2 - y1^2 + 2*y1*y2 - y2^2 + r1^2 + 2*r1*r2 +
  r2^2)*(x1^2 - 2*x1*x2 + x2^2 + y1^2 - 2*y1*y2 + y2^2 - r1^2 + 2*r1*r2 - r2^2))*(-x1^2 +
  2*x1*x2 - x2^2 - y1^2 + 2*y1*y2 - y2^2) + (x1^2 - 2*x1*x2 + x2^2 + y1^2 - 2*y1*y2 +
  y2^2)*(x1^2*y1 + x1^2*y2 - 2*x1*x2*y1 - 2*x1*x2*y2 + x2^2*y1 + x2^2*y2 + y1^3 - y1^2*y2
  - y1*y2^2 - y1*r1^2 + y1*r2^2 + y2^3 + y2*r1^2 - y2*r2^2)).

Definition p1y_den (x1 y1 r1 x2 y2 r2 : R) : R :=
  (2*(x1^2 - 2*x1*x2 + x2^2 + y1^2 - 2*y1*y2 + y2^2)^2).

Definition p2x_num (x1 y1 r1 x2 y2 r2 : R) : R :=
  -((y1 - y2)*(x1^2*y1 + x1^2*y2 - 2*x1*x2*y1 - 2*x1*x2*y2 + x2^2*y1 + x2^2*y2 + y1^3 -
  y1^2*y2 - y1*y2^2 - y1*r1^2 + y1*r2^2 + y2^3 + y2*r1^2 - y2*r2^2 + sqrt ((x1 -
  x2)^2*(-x1^2 + 2*x1*x2 - x2^2 - y1^2 + 2*y1*y2 - y2^2 + r1^2 + 2*r1*r2 + r2^2)*(x1^2 -
  2*x1*x2 + x2^2 + y1^2 - 2*y1*y2 + y2^2 - r1^2 + 2*r1*r2 - r2^2))) - (x1^2 - x2^2 + y1^2
  - y2^2 - r1^2 + r2^2)*(x1^2 - 2*x1*x2 + x2^2 + y1^2 - 2*y1*y2 + y2^2)).

Definition p2x_den (x1 y1 r1 x2 y2 r2 : R) : R :=
  (2*(x1 - x2)*(x1^2 - 2*x1*x2 + x2^2 + y1^2 - 2*y1*y2 + y2^2)).

Definition p2y_num (x1 y1 r1 x2 y2 r2 : R) : R :=
  (x1^2*y1 + x1^2*y2 - 2*x1*x2*y1 - 2*x1*x2*y2 + x2^2*y1 + x2^2*y2 + y1^3 - y1^2*y2 -
  y1*y2^2 - y1*r1^2 + y1*r2^2 + y2^3 + y2*r1^2 - y2*r2^2 + sqrt ((x1 - x2)^2*(-x1^2 +
  2*x1*x2 - x2^2 - y1^2 + 2*y1*y2 - y2^2 + r1^2 + 2*r1*r2 + r2^2)*(x1^2 - 2*x1*x2 + x2^2 +
  y1^2 - 2*y1*y2 + y2^2 - r1^2 + 2*r1*r2 - r2^2))).

Definition p2y_den (x1 y1 r1 x2 y2 r2 : R) : R :=
  (2*(x1^2 - 2*x1*x2 + x2^2 + y1^2 - 2*y1*y2 + y2^2)).

End Cpoints.

(** circles_cpoints: the return code and the list of points; [(-1, None)]
    is [(-1, [])].  Between [abs(r1 - r2)] and [r1 + r2] the argument of
    each [sqrt] is not negative, so only the divisions can raise. *)
Definition circles_cpoints (c1 : R * R) (r1 : R) (c2 : R * R) (r2 : R)
    (compensate : bool) : exn + (Z * list (R * R)) :=
  let '(x1, y1) := c1 in
  let '(x2, y2) := c2 in
  let d := distance c1 c2 in
  if Reqb d 0 then inr (-1, [])
  else
    let has_compensated := Rltb d (Rabs (r1 - r2)) && compensate in
    let '(r1, r2) :=
      if has_compensated then
        if Rltb r1 r2 then ((r1 + (r2 - r1 - d))%R, r2)
        else (r1, (r2 + (r1 - r2 - d))%R)
      else (r1, r2) in
    if Rleb (Rabs (r1 - r2)) d && Rleb d (r1 + r2) then
      if Reqb (Cpoints.p1x_den x1 y1 r1 x2 y2 r2) 0
         || Reqb (Cpoints.p1y_den x1 y1 r1 x2 y2 r2) 0
         || Reqb (Cpoints.p2x_den x1 y1 r1 x2 y2 r2) 0
         || Reqb (Cpoints.p2y_den x1 y1 r1 x2 y2 r2) 0
      then inl ZeroDivisionError
      else
        let p1 := ((Cpoints.p1x_num x1 y1 r1 x2 y2 r2 / Cpoints.p1x_den x1 y1 r1 x2 y2 r2)%R,
                   (Cpoints.p1y_num x1 y1 r1 x2 y2 r2 / Cpoints.p1y_den x1 y1 r1 x2 y2 r2)%R) in
        let p2 := ((Cpoints.p2x_num x1 y1 r1 x2 y2 r2 / Cpoints.p2x_den x1 y1 r1 x2 y2 r2)%R,
                   (Cpoints.p2y_num x1 y1 r1 x2 y2 r2 / Cpoints.p2y_den x1 y1 r1 x2 y2 r2)%R) in
        if Reqb d (r1 + r2) || Reqb d (Rabs (r1 - r2))
        then inr ((if has_compensated then 0 else 1), [p1])
        else inr (2, [p1; p2])
    else inr (-1, []).

(** ** get_ref_nbr (lines 894-947) *)

(** The four lists the caller hands over; [pop] changes them in place. *)
Record Pools := mkPools {
  ref_nbrs0 : list rid;
  rref_nbrs0 : list rid;
  ref_nbrs1 : list rid;
  rref_nbrs1 : list rid
}.

Definition all_refs (p : Pools) : list rid :=
  ref_nbrs0 p ++ rref_nbrs0 p ++ ref_nbrs1 p ++ rref_nbrs1 p.

Definition ebind {A B} (m : exn + A) (k : A -> exn + B) : exn + B :=
  match m with inl e => inl e | inr a => k a end.
Notation "x <~ m ;; k" := (ebind m (fun x => k))
  (at level 61, m at next level, right associativity) : py_scope.

Definition deref (w : World) (i : rid) : exn + Radio.t :=
  match get_radio w i with Some rd => inr rd | None => inl KeyError end.
Definition some_or {A} (e : exn) (o : option A) : exn + A :=
  match o with Some a => inr a | None => inl e end.

(** [l.pop(i)] for an index inside the list *)
Fixpoint pop {A} (i : nat) (l : list A) : list A :=
  match i, l with
  | _, [] => []
  | O, _ :: l' => l'
  | S i', x :: l' => x :: pop i' l'
  end.

(** [d = distance(ref_rd.c, other.c); d != 0 and d <= ref_rd.r + other.r] *)
Definition crosses (w : World) (ref_rd other : rid) : exn + bool :=
  a <~ deref w ref_rd ;;
  b <~ deref w other ;;
  let d := distance (Radio.c a) (Radio.c b) in
  inr (negb (Reqb d 0) && Rleb d (IZR (Radio.r a + Radio.r b))).

(** Whether the loop of lines 905-918 breaks at [ref_rd]. *)
Definition ref_accepted (w : World) (ref1_rd ref2_rd : option rid) (need_cross : bool)
    (ref_rd : rid) : exn + bool :=
  let differs (o : option rid) :=
    match o with Some r => negb (String.eqb (fst ref_rd) (fst r)) | None => true end in
  if differs ref1_rd && differs ref2_rd then
    if need_cross then
      ref1_cross <~ match ref1_rd with
                    | Some r1 => crosses w ref_rd r1
                    | None => inr true
                    end ;;
      ref2_cross <~ match ref2_rd with
                    | Some r2 => crosses w ref_rd r2
                    | None => inr true
                    end ;;
      inr (ref1_cross && ref2_cross)
    else inr true
  else inr false.

(** The value of [i] when the [for] is left: the first accepted index, or
    the last index when nothing was accepted; on an empty list [i] is never
    bound and line 920 raises. *)
Fixpoint scan_refs (accepted : rid -> exn + bool) (l : list rid) (i : nat) : exn + nat :=
  match l with
  | [] => inl NameError
  | ref_rd :: l' =>
      ok <~ accepted ref_rd ;;
      if (ok : bool) then inr i
      else match l' with
           | [] => inr i
           | _ :: _ => scan_refs accepted l' (S i)
           end
  end.

(** [fspl] and [ghz] when [tx] is heard by [hearer]:
    [tx.txpwr - hearer.nbrs[tx.mac].rssi] and [ieee2ghz(tx.chnl)]. *)
Definition path_loss (w : World) (tx hearer : rid) : exn + (Z * R) :=
  t <~ deref w tx ;;
  h <~ deref w hearer ;;
  nbr <~ some_or KeyError (Dict.get (Radio.mac t) (Radio.nbrs h)) ;;
  txpwr <~ some_or TypeError (Radio.txpwr t) ;;
  chnl <~ some_or TypeError (Radio.chnl t) ;;
  inr (txpwr - ACSPNbr.rssi nbr, ieee2ghz chnl).

Definition get_ref_nbr (w : World) (p : Pools) (rd : rid)
    (ref1_rd ref2_rd : option rid) (need_cross : bool)
    : Pools * (exn + (rid * Z * R)) :=
  let ref_nbrs := all_refs p in
  let rlen0 := List.length (ref_nbrs0 p) in
  let rrlen0 := List.length (rref_nbrs0 p) in
  let rlen1 := List.length (ref_nbrs1 p) in
  let rrlen1 := List.length (rref_nbrs1 p) in
  match scan_refs (ref_accepted w ref1_rd ref2_rd need_cross) ref_nbrs 0 with
  | inl e => (p, inl e)
  | inr i =>
      match nth_error ref_nbrs i with
      | None => (p, inl IndexError)
      | Some ref_rd =>
          if (i <? rlen0)%nat then
            (mkPools (pop i (ref_nbrs0 p)) (rref_nbrs0 p) (ref_nbrs1 p) (rref_nbrs1 p),
             fg <~ path_loss w ref_rd rd ;; inr (ref_rd, fst fg, snd fg))
          else if (i <? rlen0 + rrlen0)%nat then
            (mkPools (ref_nbrs0 p) (pop (i - rlen0) (rref_nbrs0 p)) (ref_nbrs1 p) (rref_nbrs1 p),
             fg <~ path_loss w rd ref_rd ;; inr (ref_rd, fst fg, snd fg))
          else if (i <? rlen0 + rrlen0 + rlen1)%nat then
            (mkPools (ref_nbrs0 p) (rref_nbrs0 p) (pop (i - rlen0 - rrlen0) (ref_nbrs1 p)) (rref_nbrs1 p),
             fg <~ path_loss w ref_rd rd ;; inr (ref_rd, fst fg, snd fg))
          else
            (mkPools (ref_nbrs0 p) (rref_nbrs0 p) (ref_nbrs1 p)
               (pop (i - rlen0 - rrlen0 - rlen1) (rref_nbrs1 p)),
             fg <~ path_loss w rd ref_rd ;; inr (ref_rd, fst fg, snd fg))
      end
  end.

(** ** calc_ap_coord (lines 951-1155): one turn of its [while True] *)

Definition set_RF_AVR_NFLOOR (v : Z) (g : Globals) : Globals :=
  mkGlobals v (RF_AVR_NFLOOR_MARGIN g) (RF_SMOOTH_WINDOW g) (CANVAS_WIDTH g)
    (CANVAS_HEIGHT g) (CANVAS_METER_PER_DOT g) (CANVAS_FREEZE g) (RADIO_DISPLAYED g)
    (APS_COORD_METHOD g) (APS_COORD_NBRSCORE_ORDER g)
    (CANVAS_COLOR_TRANSP g) (ACSP_RUN_TIMESTAMP g).

(** Truth value of an attribute that holds [None] or an int. *)
Definition truthy (o : option Z) : bool :=
  match o with Some n => negb (n =? 0) | None => false end.

(** Lines 956-965: the fleet-wide mean of the noise floors. *)
Definition update_avr_nfloor (w : World) : World :=
  let nfloors :=
    flat_map (fun '(_, ap) =>
      flat_map (fun '(_, radio) =>
        match Radio.nfloor radio with
        | Some n => if truthy (Some n) then [n] else []
        | None => []
        end) (AP.radios ap)) (APS w) in
  let tot_nfloor := sum_Z nfloors in
  let tot_radios := Z.of_nat (List.length nfloors) in
  if tot_radios >? 0 then set_G (set_RF_AVR_NFLOOR (tot_nfloor / tot_radios) (G w)) w
  else w.

(** The condition of the comprehension of line 997:
    [a.radios and a.radios[IFNAME_WIFI0].nbr_score]. *)
Definition has_nbr_score (a : AP.t) : exn + bool :=
  match AP.radios a with
  | [] => inr false
  | _ :: _ =>
      rd0 <~ some_or KeyError (Dict.get IFNAME_WIFI0 (AP.radios a)) ;;
      inr (truthy (Radio.nbr_score rd0))
  end.

Fixpoint filter_nscore (aps : list (string * AP.t)) : exn + list (string * AP.t) :=
  match aps with
  | [] => inr []
  | (ip, a) :: aps' =>
      keep <~ has_nbr_score a ;;
      rest <~ filter_nscore aps' ;;
      inr (if (keep : bool) then (ip, a) :: rest else rest)
  end.

(** The key of line 999 on an AP that passed the filter. *)
Definition wifi0_score (a : AP.t) : Z :=
  match Dict.get IFNAME_WIFI0 (AP.radios a) with
  | Some rd0 => match Radio.nbr_score rd0 with Some n => n | None => 0 end
  | None => 0
  end.

(** Lines 997-999.  [sorted(..., reverse=True)] keeps the order of equal
    keys, as sorting on the negated key does. *)
Definition candidates (w : World) : exn + list string :=
  l <~ filter_nscore (APS w) ;;
  if APS_COORD_NBRSCORE_ORDER (G w)
  then inr (sorted_by_key (map (fun '(ip, a) => (- wifi0_score a, ip)) l))
  else inr (map fst l).

(** The lists of the loop: [aps_nscore], which the loop extends while it
    walks it, [aps] and [aps_delayed]. *)
Record Locals := mkLocals {
  aps_nscore : list string;
  aps : list string;
  aps_delayed : list string
}.

Definition mem_str (x : string) (l : list string) : bool := existsb (String.eqb x) l.
Definition mem_rid (x : rid) (l : list rid) : bool := existsb (rid_eqb x) l.

(** [if ap not in aps_delayed: aps_delayed.append(ap); aps_nscore.append(ap)] *)
Definition delay (ap : string) (s : Locals) : Locals :=
  if mem_str ap (aps_delayed s) then s
  else mkLocals (aps_nscore s ++ [ap]) (aps s) (aps_delayed s ++ [ap]).

(** [rd0.c = c; if rd1: rd1.c = rd0.c; aps.append(ap)] *)
Definition place (ap : string) (c : R * R) (s : Locals) : M Locals :=
  assign (ap, IFNAME_WIFI0) (Radio.set_c c) ;;;
  assign (ap, IFNAME_WIFI1) (Radio.set_c c) ;;;
  ret (mkLocals (aps_nscore s) (aps s ++ [ap]) (aps_delayed s)).

(** What the circles decide: put the AP somewhere, or delay it. *)
Inductive verdict := Defer | Put (c : R * R).

(** Lines 1100-1113, the third AP. *)
Definition locate2 (c1 c2 : R * R) (d1 d2 : Z) : exn + verdict :=
  points <~ circles_cpoints c1 (IZR d1) c2 (IZR d2) false ;;
  if fst points <? 0 then inr Defer
  else p <~ list_get (snd points) 0 ;; inr (Put p).

(** Lines 1128-1152, the APs after the third. *)
Definition locate3 (c1 c2 c3 : R * R) (d1 d2 d3 : Z) : exn + verdict :=
  points <~ circles_cpoints c1 (IZR d1) c2 (IZR d2) false ;;
  if fst points <? 0 then inr Defer
  else if fst points <=? 1 then p <~ list_get (snd points) 0 ;; inr (Put p)
  else
    let n1 := distance c1 c3 in
    let n2 := distance c2 c3 in
    if Rltb (Rabs (IZR d3 - n1)) (Rabs (IZR d3 - n2))
    then p <~ list_get (snd points) 0 ;; inr (Put p)
    else p <~ list_get (snd points) 1 ;; inr (Put p).

(** Lines 1031-1040: the four pools of [rd0] against the placed APs. *)
Fixpoint reverse_refs (w : World) (ifname : string) (rd0 : rid) (aps : list string)
    : exn + list rid :=
  match aps with
  | [] => inr []
  | a :: aps' =>
      rd <~ deref w (a, ifname) ;;
      rest <~ reverse_refs w ifname rd0 aps' ;;
      inr (if mem_rid rd0 (Radio.nbrs_radios rd) then (a, ifname) :: rest else rest)
  end.

Definition collect_pools (w : World) (self : rid) (rd0 : Radio.t) (aps : list string)
    : exn + Pools :=
  let forward (ifname : string) :=
    filter (fun r => mem_str (fst r) aps && String.eqb (snd r) ifname)
           (Radio.nbrs_radios rd0) in
  let ref_nbrs0 := forward IFNAME_WIFI0 in
  let ref_nbrs1 := forward IFNAME_WIFI1 in
  rref_nbrs0 <~ reverse_refs w IFNAME_WIFI0 self aps ;;
  rref_nbrs1 <~ reverse_refs w IFNAME_WIFI1 self aps ;;
  inr (mkPools ref_nbrs0 rref_nbrs0 ref_nbrs1 rref_nbrs1).

(** Lines 1044-1046: the APs the pools touch. *)
Definition uaps (p : Pools) : list string :=
  nodup string_dec
    (map fst (ref_nbrs0 p ++ ref_nbrs1 p ++ rref_nbrs0 p ++ rref_nbrs1 p)).

Section Sweep.

(** [random.randint]: [randint lo hi k] is the [k]-th number drawn during
    the sweep. *)
Variable randint : Z -> Z -> nat -> Z.

(** The body of [for ap in aps_nscore], at position [i] of the list. *)
Definition place_ap (ap : string) (i : nat) (s : Locals) : M Locals :=
  if mem_str ap (aps s) then ret s
  else
    a <- gets (fun w => Dict.get ap (APS w)) ;;
    a <- or_raise KeyError a ;;
    rd0 <- or_raise KeyError (Dict.get IFNAME_WIFI0 (AP.radios a)) ;;
    rd1 <- (if (1 <? List.length (AP.radios a))%nat
            then rd1 <- or_raise KeyError (Dict.get IFNAME_WIFI1 (AP.radios a)) ;; ret (Some rd1)
            else ret None) ;;
    (* line 1016 reads [rd1.nbrs_bydist] *)
    rd1 <- or_raise AttributeError rd1 ;;
    g <- gets G ;;
    if String.eqb (APS_COORD_METHOD g) "random" then
      let c := (IZR (randint 50 (CANVAS_WIDTH g - 50) (2 * i)),
                IZR (randint 50 (CANVAS_HEIGHT g - 50) (2 * i + 1))) in
      assign (ap, IFNAME_WIFI0) (Radio.set_c c) ;;;
      assign (ap, IFNAME_WIFI1) (Radio.set_c c) ;;;
      ret s
    else if String.eqb (APS_COORD_METHOD g) "manual" then ret s
    else
      let required_ref_nbrs := if (List.length (aps s) <? 3)%nat then List.length (aps s) else 3%nat in
      w <- gets (fun w => w) ;;
      pools <- lift (collect_pools w (ap, IFNAME_WIFI0) rd0 (aps s)) ;;
      if (List.length (uaps pools) <? required_ref_nbrs)%nat then ret (delay ap s)
      else if (required_ref_nbrs =? 0)%nat then
        place ap (IZR (CANVAS_WIDTH g / 2), IZR (CANVAS_HEIGHT g / 2)) s
      else
        match get_ref_nbr w pools (ap, IFNAME_WIFI0) None None false with
        | (_, inl _) => ret s
        | (pools, inr (ref1_rd, fspl, ghz)) =>
        d1 <- lift (fspl_dots fspl ghz (CANVAS_METER_PER_DOT g)) ;;
        ref1 <- the_radio ref1_rd ;;
        if (required_ref_nbrs =? 1)%nat then
          place ap ((fst (Radio.c ref1) + IZR d1)%R, snd (Radio.c ref1)) s
        else
          match get_ref_nbr w pools (ap, IFNAME_WIFI0) (Some ref1_rd) None false with
          | (_, inl _) => ret s
          | (pools, inr (ref2_rd, fspl, ghz)) =>
          d2 <- lift (fspl_dots fspl ghz (CANVAS_METER_PER_DOT g)) ;;
          ref2 <- the_radio ref2_rd ;;
          if (required_ref_nbrs =? 2)%nat then
            v <- lift (locate2 (Radio.c ref1) (Radio.c ref2) d1 d2) ;;
            match v with
            | Defer => ret (delay ap s)
            | Put c => place ap c s
            end
          else
            match get_ref_nbr w pools (ap, IFNAME_WIFI0) (Some ref1_rd) (Some ref2_rd) false with
            | (_, inl _) => ret s
            | (pools, inr (ref3_rd, fspl, ghz)) =>
            d3 <- lift (fspl_dots fspl ghz (CANVAS_METER_PER_DOT g)) ;;
            ref3 <- the_radio ref3_rd ;;
            v <- lift (locate3 (Radio.c ref1) (Radio.c ref2) (Radio.c ref3) d1 d2 d3) ;;
            match v with
            | Defer => ret (delay ap s)
            | Put c => place ap c s
            end
            end
          end
        end.

(** [for ap in aps_nscore]: the list grows by at most one entry per AP, so
    the walk ends; [None] reports that [fuel] did not suffice. *)
Fixpoint walk (fuel : nat) (i : nat) (s : Locals) : M (option Locals) :=
  match fuel with
  | O => ret None
  | S fuel' =>
      match nth_error (aps_nscore s) i with
      | None => ret (Some s)
      | Some ap => s <- place_ap ap i s ;; walk fuel' (S i) s
      end
  end.

(** One turn of [while True] in [calc_ap_coord]. *)
Definition calc_ap_coord : M (option Locals) :=
  modify update_avr_nfloor ;;;
  w <- gets (fun w => w) ;;
  aps_nscore <- lift (candidates w) ;;
  walk (2 * List.length aps_nscore + 1) 0 (mkLocals aps_nscore [] []).

End Sweep.

(** ** Radio.chnl2color (lines 578-601) *)

(** ['{0:02x}'.format(n)]: lower-case hexadecimal digits, a [-] before those
    of a negative number, and a zero in front when that makes one character
    only. *)
Definition format_02x (n : Z) : string :=
  let digits :=
    match n with
    | Z0 => "0"%string
    | Zpos p => HexString.Raw.of_pos p EmptyString
    | Zneg p => String "-" (HexString.Raw.of_pos p EmptyString)
    end in
  if (String.length digits <? 2)%nat then String "0" digits else digits.

(** The three branches on [n], in the order each band assigns its three
    components. *)
Definition shade (n : Z) : Z * Z * Z :=
  if n <? 128 then (128 + n, 0, 0)
  else if n <? 384 then (255, n - 127, 0)
  else (255, 255, n - 382).

(** [(r, g, b)] as handed to [colorfmt.format]: channels below 15 fill red
    first, the others blue first. *)
Definition chnl2rgb (chnl : Z) : Z * Z * Z :=
  if chnl <? 15 then
    let n := Py.int_of_float (512 - 511 / 14 * IZR chnl)%R in
    let '(r, g, b) := shade n in (r, g, b)
  else
    let chnl := if chnl =? 36 then chnl + 1 else chnl in
    let n := Py.int_of_float (512 - 511 / IZR (165 - 36) * IZR (chnl - 36))%R in
    let '(b, g, r) := shade n in (r, g, b).

Definition chnl2color (chnl : Z) : string :=
  let '(r, g, b) := chnl2rgb chnl in
  String "#" (format_02x r ++ format_02x g ++ format_02x b).

(** ** detect_new_aps (lines 796-822): one turn of its [while True] *)

(** [ans] lists the source addresses of the answers to the port scan, in
    the order of the answers.  A host that is not in [NODES] is entered
    there and a thread running [detect_ap] is started for it; the result
    lists the hosts of these threads, in starting order. *)
Fixpoint detect_new_aps (ans : list string) (w : World) : World * list string :=
  match ans with
  | [] => (w, [])
  | ip :: ans' =>
      if mem_str ip (NODES w) then detect_new_aps ans' w
      else
        let '(w', started) := detect_new_aps ans' (set_NODES (NODES w ++ [ip]) w) in
        (w', ip :: started)
  end.

(** ** find_ap_at_xy (lines 1210-1233) *)




(** ** key_press_callback (lines 1417-1507) *)

Definition set_RF_AVR_NFLOOR_MARGIN (v : R) (g : Globals) : Globals :=
  mkGlobals (RF_AVR_NFLOOR g) v (RF_SMOOTH_WINDOW g) (CANVAS_WIDTH g)
    (CANVAS_HEIGHT g) (CANVAS_METER_PER_DOT g) (CANVAS_FREEZE g) (RADIO_DISPLAYED g)
    (APS_COORD_METHOD g) (APS_COORD_NBRSCORE_ORDER g)
    (CANVAS_COLOR_TRANSP g) (ACSP_RUN_TIMESTAMP g).
Definition set_RF_SMOOTH_WINDOW (v : Z) (g : Globals) : Globals :=
  mkGlobals (RF_AVR_NFLOOR g) (RF_AVR_NFLOOR_MARGIN g) v (CANVAS_WIDTH g)
    (CANVAS_HEIGHT g) (CANVAS_METER_PER_DOT g) (CANVAS_FREEZE g) (RADIO_DISPLAYED g)
    (APS_COORD_METHOD g) (APS_COORD_NBRSCORE_ORDER g)
    (CANVAS_COLOR_TRANSP g) (ACSP_RUN_TIMESTAMP g).
Definition set_CANVAS_METER_PER_DOT (v : R) (g : Globals) : Globals :=
  mkGlobals (RF_AVR_NFLOOR g) (RF_AVR_NFLOOR_MARGIN g) (RF_SMOOTH_WINDOW g) (CANVAS_WIDTH g)
    (CANVAS_HEIGHT g) v (CANVAS_FREEZE g) (RADIO_DISPLAYED g)
    (APS_COORD_METHOD g) (APS_COORD_NBRSCORE_ORDER g)
    (CANVAS_COLOR_TRANSP g) (ACSP_RUN_TIMESTAMP g).
Definition set_CANVAS_FREEZE (v : bool) (g : Globals) : Globals :=
  mkGlobals (RF_AVR_NFLOOR g) (RF_AVR_NFLOOR_MARGIN g) (RF_SMOOTH_WINDOW g) (CANVAS_WIDTH g)
    (CANVAS_HEIGHT g) (CANVAS_METER_PER_DOT g) v (RADIO_DISPLAYED g)
    (APS_COORD_METHOD g) (APS_COORD_NBRSCORE_ORDER g)
    (CANVAS_COLOR_TRANSP g) (ACSP_RUN_TIMESTAMP g).
Definition set_RADIO_DISPLAYED (v : string) (g : Globals) : Globals :=
  mkGlobals (RF_AVR_NFLOOR g) (RF_AVR_NFLOOR_MARGIN g) (RF_SMOOTH_WINDOW g) (CANVAS_WIDTH g)
    (CANVAS_HEIGHT g) (CANVAS_METER_PER_DOT g) (CANVAS_FREEZE g) v
    (APS_COORD_METHOD g) (APS_COORD_NBRSCORE_ORDER g)
    (CANVAS_COLOR_TRANSP g) (ACSP_RUN_TIMESTAMP g).
Definition set_APS_COORD_METHOD (v : string) (g : Globals) : Globals :=
  mkGlobals (RF_AVR_NFLOOR g) (RF_AVR_NFLOOR_MARGIN g) (RF_SMOOTH_WINDOW g) (CANVAS_WIDTH g)
    (CANVAS_HEIGHT g) (CANVAS_METER_PER_DOT g) (CANVAS_FREEZE g) (RADIO_DISPLAYED g)
    v (APS_COORD_NBRSCORE_ORDER g)
    (CANVAS_COLOR_TRANSP g) (ACSP_RUN_TIMESTAMP g).
Definition set_CANVAS_COLOR_TRANSP (v : bool) (g : Globals) : Globals :=
  mkGlobals (RF_AVR_NFLOOR g) (RF_AVR_NFLOOR_MARGIN g) (RF_SMOOTH_WINDOW g) (CANVAS_WIDTH g)
    (CANVAS_HEIGHT g) (CANVAS_METER_PER_DOT g) (CANVAS_FREEZE g) (RADIO_DISPLAYED g)
    (APS_COORD_METHOD g) (APS_COORD_NBRSCORE_ORDER g) v (ACSP_RUN_TIMESTAMP g).
Definition set_ACSP_RUN_TIMESTAMP (v : bool) (g : Globals) : Globals :=
  mkGlobals (RF_AVR_NFLOOR g) (RF_AVR_NFLOOR_MARGIN g) (RF_SMOOTH_WINDOW g) (CANVAS_WIDTH g)
    (CANVAS_HEIGHT g) (CANVAS_METER_PER_DOT g) (CANVAS_FREEZE g) (RADIO_DISPLAYED g)
    (APS_COORD_METHOD g) (APS_COORD_NBRSCORE_ORDER g) (CANVAS_COLOR_TRANSP g) v.

(** The module-level globals that only the keyboard and mouse handlers,
    the log and the shell transport use.  [TARGET_APS] holds references to
    APs, their IPs here. *)
Record Keys := mkKeys {
  DEBUG_ENABLE : bool;
  SSH_CMD_DELAY_EXTRA : R;
  TARGET_APS_SELECTION : bool;
  TARGET_APS : list string;
  radio_displayed : Z;
  shortcut_key : string;
  shortcut_num : string
}.

(** The values the source assigns at module load. *)
Definition default_keys : Keys :=
  {| DEBUG_ENABLE := false;
     SSH_CMD_DELAY_EXTRA := 0;
     TARGET_APS_SELECTION := false;
     TARGET_APS := [];
     radio_displayed := 0;
     shortcut_key := "";
     shortcut_num := "" |}.

Definition set_DEBUG_ENABLE (v : bool) (k : Keys) : Keys :=
  mkKeys v (SSH_CMD_DELAY_EXTRA k)
    (TARGET_APS_SELECTION k) (TARGET_APS k) (radio_displayed k) (shortcut_key k)
    (shortcut_num k).
Definition set_SSH_CMD_DELAY_EXTRA (v : R) (k : Keys) : Keys :=
  mkKeys (DEBUG_ENABLE k) v
    (TARGET_APS_SELECTION k) (TARGET_APS k) (radio_displayed k) (shortcut_key k)
    (shortcut_num k).
Definition set_TARGET_APS_SELECTION (v : bool) (k : Keys) : Keys :=
  mkKeys (DEBUG_ENABLE k) (SSH_CMD_DELAY_EXTRA k)
    v (TARGET_APS k) (radio_displayed k) (shortcut_key k) (shortcut_num k).
Definition set_TARGET_APS (v : list string) (k : Keys) : Keys :=
  mkKeys (DEBUG_ENABLE k) (SSH_CMD_DELAY_EXTRA k)
    (TARGET_APS_SELECTION k) v (radio_displayed k) (shortcut_key k) (shortcut_num k).
Definition set_radio_displayed (v : Z) (k : Keys) : Keys :=
  mkKeys (DEBUG_ENABLE k) (SSH_CMD_DELAY_EXTRA k)
    (TARGET_APS_SELECTION k) (TARGET_APS k) v (shortcut_key k) (shortcut_num k).
Definition set_shortcut_key (v : string) (k : Keys) : Keys :=
  mkKeys (DEBUG_ENABLE k) (SSH_CMD_DELAY_EXTRA k)
    (TARGET_APS_SELECTION k) (TARGET_APS k) (radio_displayed k) v (shortcut_num k).
Definition set_shortcut_num (v : string) (k : Keys) : Keys :=
  mkKeys (DEBUG_ENABLE k) (SSH_CMD_DELAY_EXTRA k)
    (TARGET_APS_SELECTION k) (TARGET_APS k) (radio_displayed k) (shortcut_key k) v.

Definition RADIO_DISPLAYED_LIST : list string := ["a"; "0"; "1"]%string.

(** [s.isdigit()] on an ASCII string. *)
Fixpoint all_digits (s : string) : bool :=
  match s with
  | EmptyString => true
  | String c s' => Str.is_digit c && all_digits s'
  end.
Definition isdigit (s : string) : bool := negb (Str.is_empty s) && all_digits s.

Section Keyboard.
Local Open Scope string_scope.

(** The builtin [float] on a [str]; [None] when it raises [ValueError]. *)
Variable float : string -> option R.

(** The chain of [if]/[elif] of lines 1432-1503 on the key [keysym].
    - [APS_COORD_NBRSCORE_ORDER] is assigned in the function and is not in
      its [global] statement, so it is a local name there: reading it on
      the key [s] raises [UnboundLocalError], a [NameError].
    - The test of line 1486, [event.keysym == 'minus' or 'equal'], is the
      disjunction of a comparison and a string that is not empty.
    - [RF_SMOOTH_WINDOW] is only ever compared with a length: a float
      assigned to it is kept as its floor, which decides these comparisons
      alike. *)
Definition key_branch (keysym : string) (g : Globals) (k : Keys)
    : Globals * Keys * (exn + unit) :=
  let minus := String.eqb keysym "minus" in
  if String.eqb keysym "d" then (g, set_DEBUG_ENABLE (negb (DEBUG_ENABLE k)) k, inr tt)
  else if String.eqb keysym "f" then (set_CANVAS_FREEZE (negb (CANVAS_FREEZE g)) g, k, inr tt)
  else if String.eqb keysym "h" then (g, k, inr tt)
  else if String.eqb keysym "t" then
    (set_CANVAS_COLOR_TRANSP (negb (CANVAS_COLOR_TRANSP g)) g, k, inr tt)
  else if Str.contains keysym "cempw" then
    if Str.is_empty (shortcut_key k) then (g, set_shortcut_key keysym k, inr tt)
    else if String.eqb (shortcut_key k) "c" && String.eqb keysym "m"
    then (set_APS_COORD_METHOD "manual" g, set_shortcut_key "" k, inr tt)
    else (g, k, inr tt)
  else if String.eqb keysym "a" then
    if String.eqb (shortcut_key k) "c" then (set_APS_COORD_METHOD "auto" g, k, inr tt)
    else (g, k, inr tt)
  else if String.eqb keysym "r" then
    if String.eqb (shortcut_key k) "c" then (set_APS_COORD_METHOD "random" g, k, inr tt)
    else (set_ACSP_RUN_TIMESTAMP (negb (ACSP_RUN_TIMESTAMP g)) g, k, inr tt)
  else if String.eqb keysym "s" then (g, k, inl NameError)
  else if String.eqb keysym "x" then
    (g, set_TARGET_APS [] (set_TARGET_APS_SELECTION (negb (TARGET_APS_SELECTION k)) k), inr tt)
  else if String.eqb keysym "Return" then
    if negb (Str.is_empty (shortcut_key k)) && negb (String.eqb (shortcut_key k) "c")
       && negb (Str.is_empty (shortcut_num k))
    then
      match float (shortcut_num k) with
      | None => (g, k, inl ValueError)
      | Some value =>
          if String.eqb (shortcut_key k) "e" then (g, set_SSH_CMD_DELAY_EXTRA value k, inr tt)
          else if String.eqb (shortcut_key k) "m" then (set_RF_AVR_NFLOOR_MARGIN value g, k, inr tt)
          else if String.eqb (shortcut_key k) "p" then (set_CANVAS_METER_PER_DOT value g, k, inr tt)
          else if String.eqb (shortcut_key k) "w"
          then (set_RF_SMOOTH_WINDOW (Int_part value) g, k, inr tt)
          else (g, k, inr tt)
      end
    else (g, k, inr tt)
  else if minus || negb (Str.is_empty "equal") then
    if String.eqb (shortcut_key k) "e" then
      (g, set_SSH_CMD_DELAY_EXTRA (SSH_CMD_DELAY_EXTRA k + (if minus then -0.2 else 0.2))%R k,
       inr tt)
    else if String.eqb (shortcut_key k) "m" then
      (set_RF_AVR_NFLOOR_MARGIN (RF_AVR_NFLOOR_MARGIN g + (if minus then -1 else 1))%R g, k,
       inr tt)
    else if String.eqb (shortcut_key k) "p" then
      (set_CANVAS_METER_PER_DOT (CANVAS_METER_PER_DOT g + (if minus then -0.01 else 0.01))%R g, k,
       inr tt)
    else if String.eqb (shortcut_key k) "w" then
      (set_RF_SMOOTH_WINDOW (RF_SMOOTH_WINDOW g + (if minus then -1 else 1)) g, k, inr tt)
    else (g, k, inr tt)
  else if isdigit keysym then (g, set_shortcut_num (shortcut_num k ++ keysym) k, inr tt)
  else if String.eqb keysym "period" then (g, set_shortcut_num (shortcut_num k ++ ".") k, inr tt)
  else (g, k, inr tt).

(** key_press_callback: the globals it leaves and how it ends.  The [if]
    of lines 1428-1431 comes first, then the chain, then the reset of
    lines 1505-1507. *)
Definition key_press_callback (keysym : string) (g : Globals) (k : Keys)
    : Globals * Keys * (exn + unit) :=
  let first : Globals * Keys * (exn + unit) :=
    if String.eqb keysym "a" then
      let k :=
        set_radio_displayed
          ((radio_displayed k + 1) mod Z.of_nat (List.length RADIO_DISPLAYED_LIST)) k in
      match nth_error RADIO_DISPLAYED_LIST (Z.to_nat (radio_displayed k)) with
      | Some v => (set_RADIO_DISPLAYED v g, k, inr tt)
      | None => (g, k, inl IndexError)
      end
    else (g, k, inr tt) in
  match first with
  | (g, k, inl e) => (g, k, inl e)
  | (g, k, inr _) =>
      match key_branch keysym g k with
      | (g, k, inl e) => (g, k, inl e)
      | (g, k, inr _) =>
          if negb (Str.contains keysym "cempw" || mem_str keysym ["minus"; "equal"])
             && negb (isdigit keysym || String.eqb keysym "period")
          then (g, set_shortcut_num "" (set_shortcut_key "" k), inr tt)
          else (g, k, inr tt)
      end
  end.

(** The keys [keys] pressed one after the other: Tk reports an exception of
    the handler and goes on, with the globals as the handler left them. *)
Fixpoint press_keys (keys : list string) (g : Globals) (k : Keys) : Globals * Keys :=
  match keys with
  | [] => (g, k)
  | keysym :: keys' =>
      let '(g, k, _) := key_press_callback keysym g k in press_keys keys' g k
  end.

End Keyboard.

(** ** The weights of the neighbor score, as the specification tables them *)

Definition score_weight (s : option string) : Z :=
  if state_is s "Disable" || state_is s "Enable" then 2
  else if state_is s "Scanning" || state_is s "Listening" then 4
  else if state_is s "Init" || state_is s "Sched_Waiting" then 6
  else 8.



(** ** The coverage radius, as the specification writes it *)


(** The centre of the circle of a radio, [rd.c]. *)
Definition centre (w : World) (i : rid) : option (R * R) :=
  option_map Radio.c (get_radio w i).

(** ** Vocabulary of the properties

    [stable I m]: the statement [m] keeps the property [I] of the world,
    whether it completes or raises.  [returns Q m]: what [m] returns when
    it completes satisfies [Q]. *)

Definition stable {A} (I : World -> Prop) (m : M A) : Prop :=
  forall w, I w -> I (fst (m w)).

Definition returns {A} (Q : A -> Prop) (m : M A) : Prop :=
  forall w w' a, m w = (w', inr a) -> Q a.




(** The AP record stored under [ip] is what it was. *)
Definition untouched (ip : string) (a0 : AP.t) (w : World) : Prop :=
  Dict.get ip (APS w) = Some a0.

(** The output of [show interface] on which the [try] of lines 657-664
    raises: one of the three patterns finds nothing, or what stands for the
    noise floor is no number. *)
Definition interface_parse_fails (text : string) : Prop :=
  Str.search_lazy "Mode=" ";" text = None
  \/ Str.search_lazy "Phymode=" ";" text = None
  \/ match Str.search_lazy "Noise floor=" "dBm;" text with
     | None => True
     | Some nf => Str.int nf = None
     end.

(** The AP map has the keys [K] and the node map the keys [N]. *)
Definition known (K N : list string) (w : World) : Prop :=
  Dict.keys (APS w) = K /\ NODES w = N.

(** The radios [names] of the AP [ip] are there. *)
Definition has_radios (ip : string) (names : list string) (w : World) : Prop :=
  forall name, In name names -> get_radio w (ip, name) <> None.

(** No neighbor entry of the radio [self] holds more than one sample. *)
Definition fresh_windows (self : rid) (w : World) : Prop :=
  forall rd, get_radio w self = Some rd ->
    Forall (fun kv => (List.length (ACSPNbr.rssi_window (snd kv)) <= 1)%nat) (Radio.nbrs rd).

(** The lists of the loop against the list [l0] it started from: an AP is
    delayed once at most, and each delay appends one entry. *)
Definition walk_inv (l0 : list string) (s : Locals) : Prop :=
  NoDup (aps_delayed s)
  /\ incl (aps_delayed s) l0
  /\ incl (aps_nscore s) l0
  /\ List.length (aps_nscore s) = (List.length l0 + List.length (aps_delayed s))%nat.

(** [v] is [u] with some of its blanks replaced by [c], and nothing else
    changed. *)
Fixpoint blanks_filled (c : ascii) (u v : string) : bool :=
  match u, v with
  | EmptyString, EmptyString => true
  | String a u', String b v' =>
      (Ascii.eqb a b || (Str.is_blank a && Ascii.eqb b c)) && blanks_filled c u' v'
  | _, _ => false
  end.

(** No newline in [s]. *)
Fixpoint one_line (s : string) : bool :=
  match s with
  | EmptyString => true
  | String c s' => Str.dot c && one_line s'
  end.

(** [RF_SMOOTH_WINDOW] is at least 1, every radio's noise-floor window
    holds at most that many samples, and [nfloor] is [None] while the
    window is empty and [sum(window) / len(window)] afterwards. *)
Definition nfloor_smoothed (w : World) : Prop :=
  1 <= RF_SMOOTH_WINDOW (G w)
  /\ forall i rd, get_radio w i = Some rd ->
       let window := Radio.nfloor_window rd in
       Z.of_nat (List.length window) <= RF_SMOOTH_WINDOW (G w)
       /\ Radio.nfloor rd = match window with
                            | [] => None
                            | _ :: _ => Some (sum_Z window / Z.of_nat (List.length window))
                            end.

(** The key of [sort_nbr_bydist] as the world has it:
    [n.radio.txpwr - n.rssi]. *)
Definition nbr_path_loss (w : World) (n : ACSPNbr.t) : option Z :=
  match get_radio w (ACSPNbr.radio n) with
  | Some rd =>
      match Radio.txpwr rd with
      | Some t => Some (t - ACSPNbr.rssi n)
      | None => None
      end
  | None => None
  end.

(** The path loss to [a] is not above the path loss to [b]. *)
Definition nearer (w : World) (a b : ACSPNbr.t) : Prop :=
  exists ka kb, nbr_path_loss w a = Some ka /\ nbr_path_loss w b = Some kb /\ ka <= kb.

(** The radio [self] has these [nbrs_bydist] and [nbrs_radios]. *)
Definition nbr_lists (w : World) (self : rid) (bydist : list ACSPNbr.t)
    (radios : list rid) : Prop :=
  forall rd, get_radio w self = Some rd ->
    Radio.nbrs_bydist rd = bydist /\ Radio.nbrs_radios rd = radios.

(** The radio [self] has this [nbrs]. *)
Definition has_nbrs (w : World) (self : rid) (nbrs : list (string * ACSPNbr.t)) : Prop :=
  forall rd, get_radio w self = Some rd -> Radio.nbrs rd = nbrs.

(** The radio [i] is there and transmits at [t]. *)
Definition has_txpwr (w : World) (i : rid) (t : Z) : Prop :=
  exists rd, get_radio w i = Some rd /\ Radio.txpwr rd = Some t.


(** ** Worlds of the scenarios *)

Section Scenarios.
Local Open Scope string_scope.

Definition no_wire : Wire := mkWire [] [].

(** An AP with two radios whose [wifi0] is in channel state [s]. *)
Definition ap_in_state (ip : string) (s : string) : AP.t :=
  let wifi0 := Radio.set_chnl_state (Some s) (Radio.init IFNAME_WIFI0 (ip ++ ":0") "U" ip) in
  let wifi1 := Radio.init IFNAME_WIFI1 (ip ++ ":1") "U" ip in
  AP.set_radios [(IFNAME_WIFI0, wifi0); (IFNAME_WIFI1, wifi1)] (AP.init ip no_wire).

(** A neighbor entry for [wifi0] of the AP [ip], heard at [rssi]. *)
Definition heard (ip : string) (rssi : Z) : string * ACSPNbr.t :=
  (ip ++ ":0", ACSPNbr.mk (ip, IFNAME_WIFI0) rssi [rssi] 0 0).

(** Three neighbors in the states Enable, Scanning and Init, each heard 40 dB
    above the fleet noise floor of -90. *)
Definition score_radio : Radio.t :=
  Radio.set_nbrs [heard "n1" (-50); heard "n2" (-50); heard "n3" (-50)]
    (Radio.init IFNAME_WIFI0 "me:0" "U" "me").

Definition score_world : World :=
  mkWorld default_globals []
    [ ("me", AP.set_radios [(IFNAME_WIFI0, score_radio)] (AP.init "me" no_wire));
      ("n1", ap_in_state "n1" CHNL_STATE_RUN);
      ("n2", ap_in_state "n2" CHNL_STATE_SCAN);
      ("n3", ap_in_state "n3" CHNL_STATE_INIT) ] false.

(** Scenario "two APs": [A] has no neighbor entry, transmits at 20 dBm on
    channel 6; [wifi0] of [B] hears [wifi0] of [A] at -60 dBm. *)
Definition radio_A0 : Radio.t :=
  Radio.set_nbr_score (Some (- 2 ^ 63))
    (Radio.set_txpwr (Some 20) (Radio.set_chnl (Some 6)
       (Radio.init IFNAME_WIFI0 "A:0" "U" "A"))).

Definition radio_B0 : Radio.t :=
  Radio.set_nbr_score (Some 3)
    (Radio.set_nbrs_radios [("A", IFNAME_WIFI0)]
       (Radio.set_nbrs_bydist [snd (heard "A" (-60))]
          (Radio.set_nbrs [heard "A" (-60)]
             (Radio.set_txpwr (Some 20) (Radio.set_chnl (Some 11)
                (Radio.init IFNAME_WIFI0 "B:0" "U" "B")))))).

Definition two_radios (ip : string) (wifi0 : Radio.t) : AP.t :=
  AP.set_radios
    [(IFNAME_WIFI0, wifi0); (IFNAME_WIFI1, Radio.init IFNAME_WIFI1 (ip ++ ":1") "U" ip)]
    (AP.init ip no_wire).

Definition two_aps : World :=
  mkWorld default_globals [] [("A", two_radios "A" radio_A0); ("B", two_radios "B" radio_B0)] false.

(** Scenario "non-AP rejection": the host at 10.0.0.7 accepts the shell,
    lists a [Wifi0] row for the first-interface probe and reports the
    platform name SR2024P. *)
Definition echoed (cmd : string) (rows : list string) : option string :=
  Some (concat nl (cmd :: rows ++ ["SR2024P#"])).

Definition sr_wire : Wire :=
  mkWire [true]
    [ echoed "show interface | in wifi0" ["Wifi0    0019:7700:1230  1500  U  access  11ng"];
      echoed "console timeout 0" [];
      echoed "console page 0" [];
      echoed "show interface | in mgt0"
        ["Mgt0     0019:7700:1200  1500  U  -  -  hive0  10.0.0.7"];
      echoed "show version | in Platform" ["Platform:           SR2024P"];
      echoed "show interface | in wifi1" ["Wifi1    0019:7700:1240  1500  U  access  11na"] ].

Definition sr_node : AP.t := AP.init "10.0.0.7" sr_wire.

Definition sr_world : World := mkWorld default_globals ["10.0.0.7"] [] false.

(** Scenario "two polls of one neighbor": [wifi0] of [X] polls its neighbor
    table twice; [wifi0] of [Y] is in it, at -60 dBm the first time and at
    -70 dBm the second. *)
Definition nbr_table (rssi : string) : option string :=
  Some (concat nl
    [ "show acsp neighbor";
      "0019:7700:1230  11  " ++ rssi ++ "  20  0  3  yes";
      "X#" ]).

Definition hear_world : World :=
  mkWorld default_globals []
    [ ("X", AP.set_shell true
              (AP.set_radios [(IFNAME_WIFI0, Radio.init IFNAME_WIFI0 "0019:7700:1100" "U" "X")]
                 (AP.init "X" (mkWire [] [nbr_table "-60"; nbr_table "-70"]))));
      ("Y", AP.set_radios [(IFNAME_WIFI0, Radio.init IFNAME_WIFI0 "0019:7700:1230" "U" "Y")]
              (AP.init "Y" no_wire)) ] false.

(** The windows and smoothed values of the neighbor entries of a radio. *)
Definition nbr_windows (w : World) (i : rid) : option (list (string * list Z * Z)) :=
  option_map
    (fun rd => map (fun kv => (fst kv, ACSPNbr.rssi_window (snd kv), ACSPNbr.rssi (snd kv)))
                   (Radio.nbrs rd))
    (get_radio w i).





(** The world of "two APs" once the sweep has put [A] on the centre of the
    800 x 600 canvas. *)
Definition two_aps_A_placed : World :=
  mkWorld default_globals []
    [ ("A", AP.set_radios
              [(IFNAME_WIFI0, Radio.set_c (400, 300)%R radio_A0);
               (IFNAME_WIFI1, Radio.set_c (400, 300)%R (Radio.init IFNAME_WIFI1 "A:1" "U" "A"))]
              (AP.init "A" no_wire));
      ("B", two_radios "B" radio_B0) ] false.

(** No number is drawn in the scenarios. *)
Definition no_randint : Z -> Z -> nat -> Z := fun _ _ _ => 0.

(** Scenario "two APs that hear nobody": neither [P] nor [Q] has a
    neighbor entry, so both carry the score [-sys.maxint - 1]. *)
Definition lonely (ip : string) : Radio.t :=
  Radio.set_nbr_score (Some (- sys_maxint - 1)) (Radio.init IFNAME_WIFI0 (ip ++ ":0") "U" ip).

Definition lonely_world : World :=
  mkWorld default_globals [] [("P", two_radios "P" (lonely "P")); ("Q", two_radios "Q" (lonely "Q"))] false.

(** Scenario "score zero": one neighbor in state Enable, heard 1 dB above
    the fleet noise floor of -90. *)
Definition faint_radio : Radio.t :=
  Radio.set_nbr_score (Some 0)
    (Radio.set_nbrs [heard "n1" (-89)] (Radio.init IFNAME_WIFI0 "me:0" "U" "me")).

Definition faint_world : World :=
  mkWorld default_globals []
    [ ("me", two_radios "me" faint_radio); ("n1", ap_in_state "n1" CHNL_STATE_RUN) ] false.

(** Scenario "parse error": the answer to [show interface wifi0] has a
    [Mode=] field and no [Phymode=] field. *)
Definition garbled_world : World :=
  mkWorld default_globals ["10.0.0.1"]
    [ ("10.0.0.1",
       AP.set_shell true
         (AP.set_radios [(IFNAME_WIFI0, Radio.init IFNAME_WIFI0 "0019:7700:1100" "U" "10.0.0.1")]
            (AP.init "10.0.0.1"
               (mkWire [] [Some "show interface wifi0 Mode=access; Noise floor=-95dBm; AP#"])))) ] false.

(** Scenario "steady poll": the AP answers [show interface wifi0] with a
    noise floor of -95 dBm, then of -92 dBm; what it answers to [show acsp]
    has no table in it. *)
Definition steady_world : World :=
  mkWorld default_globals ["10.0.0.2"]
    [ ("10.0.0.2",
       AP.set_shell true
         (AP.set_radios [(IFNAME_WIFI0, Radio.init IFNAME_WIFI0 "0019:7700:1100" "U" "10.0.0.2")]
            (AP.init "10.0.0.2"
               (mkWire []
                  [ Some "show interface wifi0 Mode=access; Phymode=11ng; Noise floor=-95dBm; AP#";
                    Some "x";
                    Some "show interface wifi0 Mode=access; Phymode=11ng; Noise floor=-92dBm; AP#";
                    Some "x" ])))) ] false.

(** Scenario "neighbor gone": [wifi0] of [X] heard [wifi0] of [Y] at the
    poll before; now the neighbor table comes back empty. *)
Definition silent_world : World :=
  mkWorld default_globals []
    [ ("X", AP.set_shell true
              (AP.set_radios
                 [(IFNAME_WIFI0,
                   Radio.set_nbrs_radios [("Y", IFNAME_WIFI0)]
                     (Radio.set_nbrs_bydist [snd (heard "Y" (-60))]
                        (Radio.set_nbrs [heard "Y" (-60)]
                           (Radio.init IFNAME_WIFI0 "X:0" "U" "X"))))]
                 (AP.init "X" (mkWire [] [Some (concat nl ["show acsp neighbor"; "X#"])]))));
      ("Y", AP.set_radios [(IFNAME_WIFI0, Radio.init IFNAME_WIFI0 "Y:0" "U" "Y")]
              (AP.init "Y" no_wire)) ] false.

(** Scenario "one radio": the only AP has no [wifi1]; its [wifi0] has the
    score 5. *)
Definition solo_world : World :=
  mkWorld default_globals []
    [ ("S", AP.set_radios
              [(IFNAME_WIFI0, Radio.set_nbr_score (Some 5) (Radio.init IFNAME_WIFI0 "S:0" "U" "S"))]
              (AP.init "S" no_wire)) ] false.


(** The world of "two APs" with the coordinates left to the user. *)
Definition manual_world : World :=
  mkWorld (set_APS_COORD_METHOD "manual" default_globals) [] (APS two_aps) false.

(** Scenario "no radio at all": the host at 10.0.0.9 accepts the shell and
    lists no row for the first-interface probe. *)
Definition pc_node : AP.t :=
  AP.init "10.0.0.9" (mkWire [true] [Some (concat nl ["show interface | in wifi0"; "PC#"])]).

Definition pc_world : World := mkWorld default_globals ["10.0.0.9"] [] false.

(** Scenario "garbled neighbor row": the AP at 10.0.0.3 answers the three
    commands of a turn, twice; the row of its neighbor table that belongs
    to [wifi0] of [N] has no RSSI in it. *)
Definition iface (nf : string) : option string :=
  Some ("show interface wifi0 Mode=access; Phymode=11ng; Noise floor=" ++ nf ++ "dBm; AP#").

Definition acsp_table : option string :=
  Some (concat nl
    [ "show acsp"; "ACSP state";
      "Interface  Channel-state  Channel  Power-state  Txpwr";
      "---------";
      "Wifi0  Enable  6  Enable  20";
      "Wifi1  Enable  36  Enable  20";
      "AP#" ]).

Definition bad_nbr_table : option string :=
  Some (concat nl
    [ "show acsp neighbor";
      "0019:7700:1230  11  n/a  20  0  3  yes";
      "AP#" ]).

Definition leak_world : World :=
  mkWorld default_globals ["10.0.0.3"]
    [ ("10.0.0.3",
       AP.set_shell true
         (AP.set_radios [(IFNAME_WIFI0, Radio.init IFNAME_WIFI0 "0019:7700:1100" "U" "10.0.0.3")]
            (AP.init "10.0.0.3"
               (mkWire [] [iface "-95"; acsp_table; bad_nbr_table;
                           iface "-92"; acsp_table; bad_nbr_table]))));
      ("N", AP.set_radios [(IFNAME_WIFI0, Radio.init IFNAME_WIFI0 "0019:7700:1230" "U" "N")]
              (AP.init "N" no_wire)) ] false.


(** An open session whose next answer echoes the command, gives two rows
    and ends with the prompt. *)
Definition version_rows : list string := ["Platform:  AP230"; "Uptime:  3 days"].

Definition version_node : AP.t :=
  AP.set_shell true
    (AP.init "10.0.0.8"
       (mkWire [] [Some (concat nl ("show version" :: version_rows ++ ["AP230#"])%list)])).

End Scenarios.

(** * Properties *)

(** ** The string layer on sample inputs *)

Section StrSamples.
Local Open Scope string_scope.

Example fillwhite_parens : fillwhite "a(b c)d" "(" ")" "-" = "a(b-c)d".
Proof. reflexivity. Qed.

Example fillwhite_words :
  fillwhite "wifi0  Channel Req  36" "Channel" "Req" "-" = "wifi0  Channel-Req  36".
Proof. reflexivity. Qed.

Example fillwhite_end_before_start : fillwhite ") (a b" "(" ")" "-" = ") (a b".
Proof. reflexivity. Qed.

Example search_mode :
  Str.search_lazy "Mode=" ";" "Summary: Mode=access; Phymode=11ng;" = Some "access".
Proof. reflexivity. Qed.

Example search_lazy_takes_one_char : Str.search_lazy "Mode=" ";" "Mode=;;" = Some ";".
Proof. reflexivity. Qed.

Example search_nfloor :
  option_map Str.int (Str.search_lazy "Noise floor=" "dBm;" "Noise floor=-95dBm;")
  = Some (Some (-95)).
Proof. reflexivity. Qed.

Example int_blanks_and_signs :
  map Str.int [" -95 "; "+07"; "-"; "4a"; ""] = [Some (-95); Some 7; None; None; None].
Proof. reflexivity. Qed.

Example search_rssi_first_signed_column :
  Str.search_rssi "0019:7700:1230  11  -60  20  0  3  yes" = Some "-60".
Proof. reflexivity. Qed.

Example parse_vap_row :
  parse_vap "0019:7700:1230  11  -60  20  0  3  yes" = inr (-60, 3, 0, 20).
Proof. reflexivity. Qed.

Example split_blanks : Str.split "  a b   c " = ["a"; "b"; "c"].
Proof. reflexivity. Qed.

Example lines_without_echo_and_prompt :
  Str.strip_ends (Str.split_on Str.newline (concat nl ["show acsp"; "row1"; "row2"; "AP#"]))
  = ["row1"; "row2"].
Proof. reflexivity. Qed.

Example reason_is_cut :
  (Str.search_reason "Disable(Link-down)", Str.sub_reason "Disable(Link-down)")
  = (Some "(Link-down)", "Disable").
Proof. reflexivity. Qed.

End StrSamples.

(** ** The bounded loops of the string layer have fuel enough *)

Section StrFuel.

Lemma index_bounds (n : nat) (s1 s2 : string) (m : nat) :
  index n s1 s2 = Some m -> (n <= m <= String.length s2)%nat.
Proof.
  revert n m. induction s2 as [| b s2 IH]; intros n m H.
  - destruct n; cbn [index] in H; [| discriminate].
    destruct s1; [| discriminate]. injection H as <-. cbn. lia.
  - destruct n as [| n]; cbn [index] in H.
    + destruct (prefix s1 (String b s2)).
      * injection H as <-. cbn. lia.
      * destruct (index 0 s1 s2) as [k |] eqn:E; [| discriminate].
        injection H as <-. apply IH in E. cbn [String.length]. lia.
    + destruct (index n s1 s2) as [k |] eqn:E; [| discriminate].
      injection H as <-. apply IH in E. cbn [String.length]. lia.
Qed.

(** [while e > s >= 0] of [fillwhite]: any fuel above the distance from [e]
    to the end of the text gives the same result. *)
Lemma fillwhite_loop_fuel (text start end_ : string) (c : ascii) (fuel1 fuel2 : nat)
    (newt : string) (a : nat) (s e : option nat) :
  (forall e_, e = Some e_ ->
     (e_ <= String.length text /\ String.length text < fuel1 + e_
      /\ String.length text < fuel2 + e_)%nat) ->
  fillwhite_loop fuel1 text start end_ c newt a s e
  = fillwhite_loop fuel2 text start end_ c newt a s e.
Proof.
  revert fuel2 newt a s e. induction fuel1 as [| fuel1 IH]; intros fuel2 newt a s e He.
  - destruct e as [e_ |]; [destruct (He e_ eq_refl); lia |].
    destruct fuel2; cbn [fillwhite_loop]; destruct s; reflexivity.
  - destruct fuel2 as [| fuel2].
    + destruct e as [e_ |]; [destruct (He e_ eq_refl); lia |].
      cbn [fillwhite_loop]. destruct s; reflexivity.
    + cbn [fillwhite_loop]. destruct s as [s_ |]; [| reflexivity].
      destruct e as [e_ |]; [| reflexivity].
      destruct (s_ <? e_)%nat; [| reflexivity].
      apply IH. intros e' He'. unfold Str.find in He'. apply index_bounds in He'.
      destruct (He e_ eq_refl) as (H1 & H2 & H3). lia.
Qed.

Lemma fillwhite_fuel (text start end_ : string) (c : ascii) (fuel : nat) :
  (String.length text < fuel)%nat ->
  fillwhite_loop fuel text start end_ c EmptyString 0
    (Str.find start text 0) (Str.find end_ text 0)
  = fillwhite_loop (S (String.length text)) text start end_ c EmptyString 0
      (Str.find start text 0) (Str.find end_ text 0).
Proof.
  intros Hf. apply fillwhite_loop_fuel. intros e_ He.
  unfold Str.find in He. apply index_bounds in He. lia.
Qed.

Lemma drop_length (n : nat) (s : string) :
  (String.length (Str.drop n s) <= String.length s)%nat.
Proof.
  revert s. induction n as [| n IH]; intros s; [cbn; lia |].
  destruct s as [| ch s]; cbn [Str.drop String.length]; [lia |].
  specialize (IH s). lia.
Qed.

Lemma lazy_until_rest (suf cap s g rest : string) :
  Str.lazy_until suf cap s = Some (g, rest) -> (String.length rest <= String.length s)%nat.
Proof.
  revert cap. induction s as [| ch s IH]; intros cap H; cbn [Str.lazy_until] in H.
  - destruct (prefix suf EmptyString); [| discriminate].
    injection H as _ <-. apply drop_length.
  - destruct (prefix suf (String ch s)).
    + injection H as _ <-. apply drop_length.
    + destruct (Str.dot ch); [| discriminate].
      apply IH in H. cbn [String.length]. lia.
Qed.

Lemma match_reason_rest (s g rest : string) :
  Str.match_lazy "(" ")" s = Some (g, rest) -> (String.length rest < String.length s)%nat.
Proof.
  unfold Str.match_lazy. intros H.
  destruct s as [| c0 s]; [cbn in H; discriminate |].
  destruct (prefix "(" (String c0 s)); [| discriminate].
  cbn [String.length Str.drop] in H.
  destruct s as [| c1 s]; [discriminate |].
  destruct (Str.dot c1); [| discriminate].
  apply lazy_until_rest in H. cbn [String.length]. lia.
Qed.

(** [sub_reason]: any fuel above the length of the token gives the same
    result. *)
Lemma sub_reason_fuel_enough (fuel1 fuel2 : nat) (s : string) :
  (String.length s < fuel1)%nat -> (String.length s < fuel2)%nat ->
  Str.sub_reason_fuel fuel1 s = Str.sub_reason_fuel fuel2 s.
Proof.
  revert fuel2 s. induction fuel1 as [| fuel1 IH]; intros fuel2 s H1 H2; [lia |].
  destruct fuel2 as [| fuel2]; [lia |].
  cbn [Str.sub_reason_fuel].
  destruct (Str.match_lazy "(" ")" s) as [[g rest] |] eqn:E.
  - apply match_reason_rest in E. apply IH; lia.
  - destruct s as [| ch s]; [reflexivity |].
    cbn [String.length] in *. f_equal. apply IH; lia.
Qed.

End StrFuel.

(** ** The numeric layer *)

Section NumericFacts.
Local Open Scope R_scope.

Lemma int_of_float_bounds (x : R) (n : Z) :
  (0 <= n)%Z -> IZR n <= x < IZR n + 1 -> Py.int_of_float x = n.
Proof.
  intros Hn [Hlo Hhi].
  unfold Py.int_of_float.
  assert (0 <= IZR n) by (apply IZR_le; exact Hn).
  destruct (Rle_dec 0 x) as [_ | Hneg]; [| lra].
  unfold Int_part.
  assert (up x = (n + 1)%Z) as ->; [| lia].
  symmetry. apply tech_up; rewrite plus_IZR; lra.
Qed.

Lemma pow_lt_mono (x y : R) (n : nat) :
  0 <= x < y -> x ^ S n < y ^ S n.
Proof.
  intros [Hx Hxy]. induction n as [| n IH].
  - simpl. lra.
  - change (x ^ S (S n)) with (x * x ^ S n).
    change (y ^ S (S n)) with (y * y ^ S n).
    assert (0 <= x ^ S n) by (apply pow_le; exact Hx).
    nra.
Qed.

(** [10 ** (p/q)] is the positive real whose [q]-th power is [10 ** p]. *)
Lemma pow10_root (p q : nat) :
  (0 < q)%nat -> Rpower 10 (INR p / INR q) ^ q = 10 ^ p.
Proof.
  intros Hq.
  rewrite <- Rpower_pow by (unfold Rpower; apply exp_pos).
  rewrite Rpower_mult.
  replace (INR p / INR q * INR q) with (INR p).
  - apply Rpower_pow. lra.
  - field. apply not_0_INR. lia.
Qed.

Lemma pow10_root_bounds (p q : nat) (lo hi : R) :
  (0 < q)%nat -> 0 <= lo -> 0 <= hi ->
  lo ^ q <= 10 ^ p -> 10 ^ p < hi ^ q ->
  lo <= Rpower 10 (INR p / INR q) < hi.
Proof.
  intros Hq Hlo Hhi Hl Hh.
  pose proof (pow10_root p q Hq) as Hroot.
  assert (0 < Rpower 10 (INR p / INR q)) as Hpos by (unfold Rpower; apply exp_pos).
  destruct q as [| q]; [lia |].
  split.
  - destruct (Rle_dec lo (Rpower 10 (INR p / INR (S q)))) as [|Hn]; [assumption |].
    assert (Rpower 10 (INR p / INR (S q)) ^ S q < lo ^ S q) by (apply pow_lt_mono; lra).
    lra.
  - destruct (Rlt_dec (Rpower 10 (INR p / INR (S q))) hi) as [|Hn]; [assumption |].
    assert (hi ^ S q <= Rpower 10 (INR p / INR (S q)) ^ S q) by (apply pow_incr; lra).
    lra.
Qed.

(** [10 ** (a - log10 g) = 10 ** a / g]. *)
Lemma pow10_minus_log10 (a g lg : R) :
  Py.log10 g = Some lg -> Rpower 10 (a - lg) = Rpower 10 a / g.
Proof.
  unfold Py.log10. destruct (Rlt_dec 0 g) as [Hg |]; [| discriminate].
  intros [= <-].
  assert (ln 10 <> 0).
  { pose proof (ln_increasing 1 10 ltac:(lra) ltac:(lra)) as H. rewrite ln_1 in H. lra. }
  unfold Rminus. rewrite Rpower_plus. unfold Rdiv at 2. f_equal.
  rewrite Rpower_Ropp. f_equal. unfold Rpower.
  replace (ln g / ln 10 * ln 10) with (ln g) by (field; assumption).
  apply exp_ln. exact Hg.
Qed.

(** A real within an integer bound that is within the range is finite. *)
Lemma finite_bound (x : R) (b : Z) :
  (b <=? 2 ^ 1024 - 2 ^ 971)%Z = true -> Rabs x <= IZR b -> Py.finite x = true.
Proof.
  intros Hb Hx. unfold Py.finite, Py.DBL_MAX.
  destruct (Rle_dec (Rabs x) (IZR (2 ^ 1024 - 2 ^ 971))) as [| Hn]; [reflexivity |].
  exfalso. apply Hn. apply Rle_trans with (IZR b); [exact Hx |].
  apply IZR_le, Z.leb_le. exact Hb.
Qed.

Lemma float_bound (n : Z) :
  (Z.abs n <=? 2 ^ 1024 - 2 ^ 971)%Z = true -> Py.float n = Some (IZR n).
Proof.
  intros Hb. unfold Py.float.
  rewrite (finite_bound (IZR n) (Z.abs n) Hb); [reflexivity |].
  rewrite abs_IZR. lra.
Qed.

Lemma pow10_bound (y : R) (b : Z) :
  (b <=? 2 ^ 1024 - 2 ^ 971)%Z = true -> Rpower 10 y <= IZR b ->
  Py.pow10 y = Some (Rpower 10 y).
Proof.
  intros Hb Hy. unfold Py.pow10.
  rewrite (finite_bound (Rpower 10 y) b Hb); [reflexivity |].
  rewrite Rabs_pos_eq; [exact Hy | unfold Rpower; left; apply exp_pos].
Qed.

(** [int(x)] is [n] for a float [x] between [n] and [n + 1]. *)
Lemma int_bounds (x : R) (n : Z) :
  (0 <= n)%Z -> (n + 1 <=? 2 ^ 1024 - 2 ^ 971)%Z = true ->
  IZR n <= x < IZR n + 1 -> Py.int x = Some n.
Proof.
  intros Hn Hb Hx. unfold Py.int.
  assert (0 <= IZR n) by (apply IZR_le; exact Hn).
  rewrite (finite_bound x (n + 1) Hb).
  - rewrite (int_of_float_bounds x n Hn Hx). reflexivity.
  - rewrite Rabs_pos_eq by lra. rewrite plus_IZR. lra.
Qed.

(** The three last steps of the expression, [pow], the division and
    [int], on an exponent whose power divided by [mpd] lies between [n]
    and [n + 1]. *)
Lemma quotient_dots (y mpd : R) (n : Z) :
  0 < mpd <= 1 -> (0 <= n)%Z -> (n + 1 <=? 2 ^ 1024 - 2 ^ 971)%Z = true ->
  IZR n <= Rpower 10 y / mpd < IZR n + 1 ->
  Py.pow10 y = Some (Rpower 10 y)
  /\ Py.fdiv (Rpower 10 y) mpd = Some (Rpower 10 y / mpd)
  /\ Py.int (Rpower 10 y / mpd) = Some n.
Proof.
  intros [Hm0 Hm1] Hn Hb Hx.
  assert (0 <= IZR n) by (apply IZR_le; exact Hn).
  assert (0 < Rpower 10 y) as Hp by (unfold Rpower; apply exp_pos).
  split; [| split].
  - apply (pow10_bound y (n + 1) Hb). rewrite plus_IZR.
    destruct Hx as [_ Hx].
    apply Rmult_lt_compat_r with (r := mpd) in Hx; [| exact Hm0].
    unfold Rdiv in Hx. rewrite Rmult_assoc, Rinv_l, Rmult_1_r in Hx by lra.
    nra.
  - unfold Py.fdiv. destruct (Req_dec_T mpd 0); [lra | reflexivity].
  - apply int_bounds; assumption.
Qed.

End NumericFacts.

Section NumericValues.
Local Open Scope R_scope.

Lemma pow_ratio (a b : Z) (q : nat) :
  (0 < b)%Z -> (IZR a / IZR b) ^ q = IZR (a ^ Z.of_nat q) / IZR (b ^ Z.of_nat q).
Proof.
  intros Hb. unfold Rdiv. rewrite Rpow_mult_distr, pow_inv.
  now rewrite !pow_IZR.
Qed.

Lemma pow_ratio_le (a b : Z) (p q : nat) :
  (0 < b)%Z ->
  (a ^ Z.of_nat q <=? 10 ^ Z.of_nat p * b ^ Z.of_nat q)%Z = true ->
  (IZR a / IZR b) ^ q <= 10 ^ p.
Proof.
  intros Hb H. apply Z.leb_le in H. rewrite pow_ratio by exact Hb.
  assert (0 < IZR (b ^ Z.of_nat q)) as Hbq by (apply IZR_lt, Z.pow_pos_nonneg; lia).
  apply Rmult_le_reg_r with (IZR (b ^ Z.of_nat q)); [exact Hbq |].
  unfold Rdiv. rewrite Rmult_assoc, Rinv_l by lra. rewrite Rmult_1_r.
  rewrite pow_IZR, <- mult_IZR. apply IZR_le. exact H.
Qed.

Lemma pow_ratio_gt (a b : Z) (p q : nat) :
  (0 < b)%Z ->
  (10 ^ Z.of_nat p * b ^ Z.of_nat q <? a ^ Z.of_nat q)%Z = true ->
  10 ^ p < (IZR a / IZR b) ^ q.
Proof.
  intros Hb H. apply Z.ltb_lt in H. rewrite pow_ratio by exact Hb.
  assert (0 < IZR (b ^ Z.of_nat q)) as Hbq by (apply IZR_lt, Z.pow_pos_nonneg; lia).
  apply Rmult_lt_reg_r with (IZR (b ^ Z.of_nat q)); [exact Hbq |].
  unfold Rdiv. rewrite Rmult_assoc, Rinv_l by lra. rewrite Rmult_1_r.
  rewrite pow_IZR, <- mult_IZR. apply IZR_lt. exact H.
Qed.

(** The quotient [10 ** (p/q - log10 g) / mpd] lies between [n] and [n + 1]
    as soon as [n * g * mpd] and [(n+1) * g * mpd], written as the fractions
    [lo / den] and [hi / den], enclose the [q]-th root of [10 ** p]. *)
Lemma root_quotient_floor (g mpd lg : R) (p q : nat) (n lo hi den : Z) :
  Py.log10 g = Some lg -> 0 < g -> 0 < mpd -> (0 < q)%nat -> (0 <= n)%Z ->
  (0 < den)%Z -> (0 <= lo)%Z -> (0 <= hi)%Z ->
  IZR n * (g * mpd) = IZR lo / IZR den ->
  (IZR n + 1) * (g * mpd) = IZR hi / IZR den ->
  (lo ^ Z.of_nat q <=? 10 ^ Z.of_nat p * den ^ Z.of_nat q)%Z = true ->
  (10 ^ Z.of_nat p * den ^ Z.of_nat q <? hi ^ Z.of_nat q)%Z = true ->
  IZR n <= Rpower 10 (INR p / INR q - lg) / mpd < IZR n + 1.
Proof.
  intros Hlg Hg Hmpd Hq Hn Hden Hlo Hhi Elo Ehi Cl Ch.
  rewrite (pow10_minus_log10 _ g lg Hlg).
  assert (0 < IZR den) as Hd by (apply IZR_lt; exact Hden).
  assert (0 <= IZR lo / IZR den) as Hlo'.
  { apply Rmult_le_pos; [apply IZR_le; exact Hlo | left; apply Rinv_0_lt_compat; exact Hd]. }
  assert (0 <= IZR hi / IZR den) as Hhi'.
  { apply Rmult_le_pos; [apply IZR_le; exact Hhi | left; apply Rinv_0_lt_compat; exact Hd]. }
  destruct (pow10_root_bounds p q _ _ Hq Hlo' Hhi'
              (pow_ratio_le lo den p q Hden Cl) (pow_ratio_gt hi den p q Hden Ch))
    as [Bl Bh].
  rewrite <- Elo in Bl. rewrite <- Ehi in Bh.
  set (y := Rpower 10 (INR p / INR q)) in *.
  assert (0 < g * mpd) as Hgm by (apply Rmult_lt_0_compat; assumption).
  replace (y / g / mpd) with (y / (g * mpd)) by (field; lra).
  split.
  - apply Rmult_le_reg_r with (g * mpd); [exact Hgm |].
    unfold Rdiv. rewrite Rmult_assoc, Rinv_l by lra. lra.
  - apply Rmult_lt_reg_r with (g * mpd); [exact Hgm |].
    unfold Rdiv at 1. rewrite Rmult_assoc, Rinv_l by lra. lra.
Qed.

Lemma log10_pos_Some (g : R) : 0 < g -> Py.log10 g = Some (ln g / ln 10).
Proof. intros Hg. unfold Py.log10. destruct (Rlt_dec 0 g); [reflexivity | contradiction]. Qed.

Lemma fdiv_Some (x y : R) : y <> 0 -> Py.fdiv x y = Some (x / y).
Proof. intros Hy. unfold Py.fdiv. destruct (Req_dec_T y 0); [contradiction | reflexivity]. Qed.

Lemma fspl_dots_80_ch6 : fspl_dots 80 2.437 0.1 = inr 979%Z.
Proof.
  unfold fspl_dots.
  rewrite (float_bound 80) by (vm_compute; reflexivity).
  rewrite (log10_pos_Some 2.437) by lra.
  assert (INR 1189 = 1189 /\ INR 500 = 500) as [E1 E2]
    by (split; rewrite INR_IZR_INZ; reflexivity).
  replace ((80 - 32.44 - 20 * (ln 2.437 / ln 10)) / 20)
    with (INR 1189 / INR 500 - ln 2.437 / ln 10)
    by (rewrite E1, E2; lra).
  destruct (quotient_dots (INR 1189 / INR 500 - ln 2.437 / ln 10) 0.1 979)
    as (-> & -> & ->); [lra | lia | vm_compute; reflexivity | | reflexivity].
  apply (root_quotient_floor 2.437 0.1 _ 1189 500 979 2385823 2388260 10000);
    try lra; try lia; try (apply log10_pos_Some; lra).
  - vm_compute; reflexivity.
  - vm_compute; reflexivity.
Qed.

(** The conversions and [log10] of lines 576 and 612 on channel 36 with
    the tunables as loaded: what is left is the power. *)
Lemma coverage_radius_ch36 (txpwr : Z) :
  (Z.abs txpwr <=? 2 ^ 1024 - 2 ^ 971)%Z = true ->
  coverage_radius txpwr 36 (-90) 50 0.1
  = match Py.pow10 ((IZR txpwr - 32.44 - 20 * (ln 5.18 / ln 10) - (-90 + 50)) / 20) with
    | None => inl OverflowError
    | Some p =>
        match Py.fdiv p 0.1 with
        | None => inl ZeroDivisionError
        | Some d => match Py.int d with None => inl OverflowError | Some r => inr r end
        end
    end.
Proof.
  intros Ht. unfold coverage_radius.
  replace (ieee2mhz 36) with 5180%Z by reflexivity.
  rewrite (float_bound 5180) by (vm_compute; reflexivity).
  assert (ieee2ghz 36 = 5.18) as ->
    by (unfold ieee2ghz; replace (ieee2mhz 36) with 5180%Z by reflexivity; lra).
  rewrite (float_bound txpwr Ht).
  rewrite (log10_pos_Some 5.18) by lra.
  rewrite (finite_bound (-90 + 50) 40); [reflexivity | vm_compute; reflexivity |].
  apply Rabs_le. lra.
Qed.

Lemma coverage_radius_20_ch36 : coverage_radius 20 36 (-90) 50 0.1 = inr 46%Z.
Proof.
  rewrite coverage_radius_ch36 by (vm_compute; reflexivity).
  assert (INR 689 = 689 /\ INR 500 = 500) as [E1 E2]
    by (split; rewrite INR_IZR_INZ; reflexivity).
  replace ((20 - 32.44 - 20 * (ln 5.18 / ln 10) - (-90 + 50)) / 20)
    with (INR 689 / INR 500 - ln 5.18 / ln 10)
    by (rewrite E1, E2; lra).
  destruct (quotient_dots (INR 689 / INR 500 - ln 5.18 / ln 10) 0.1 46)
    as (-> & -> & ->); [lra | lia | vm_compute; reflexivity | | reflexivity].
  apply (root_quotient_floor 5.18 0.1 _ 689 500 46 23828 24346 1000);
    try lra; try lia; try (apply log10_pos_Some; lra).
  - vm_compute; reflexivity.
  - vm_compute; reflexivity.
Qed.

End NumericValues.

(** ** Radio.ieee2ghz *)

Section Ieee2ghz.
Local Open Scope R_scope.

Lemma ieee2ghz_of_mhz (chnl mhz : Z) :
  ieee2mhz chnl = mhz -> ieee2ghz chnl = IZR mhz / 1000.
Proof. intros <-. reflexivity. Qed.

(** C2, as stated, does not hold: channel 0 is remapped to 200, which lies in
    the last branch of the map, so [ieee2ghz(0)] is 6.0 and not 1.0. *)
Lemma ieee2ghz_sentinel_refuted :
  ~ (ieee2ghz 14 = 2.484 /\ ieee2ghz 1 = 2.412 /\ ieee2ghz 36 = 5.180 /\
     ieee2ghz 165 = 5.825 /\ ieee2ghz 0 = 1).
Proof.
  intros (_ & _ & _ & _ & H0).
  rewrite (ieee2ghz_of_mhz 0 6000 eq_refl) in H0. lra.
Qed.

(** C2, amended: [ieee2ghz] maps channel 14 to 2.484, channel 1 to 2.412,
    channel 36 to 5.180 and channel 165 to 5.825 GHz, and the
    undetermined-channel value 0, remapped to channel 200, to 6.0 GHz. *)
Theorem ieee2ghz_sample_points :
  ieee2ghz 14 = 2.484 /\ ieee2ghz 1 = 2.412 /\ ieee2ghz 36 = 5.180 /\
  ieee2ghz 165 = 5.825 /\ ieee2ghz 0 = 6.
Proof.
  rewrite (ieee2ghz_of_mhz 14 2484 eq_refl), (ieee2ghz_of_mhz 1 2412 eq_refl),
    (ieee2ghz_of_mhz 36 5180 eq_refl), (ieee2ghz_of_mhz 165 5825 eq_refl),
    (ieee2ghz_of_mhz 0 6000 eq_refl).
  repeat split; lra.
Qed.

End Ieee2ghz.

(** ** Radio.calc_nbr_score *)

Section NbrScore.

Lemma fold_score_sum (w : World) (l : list ACSPNbr.t) (acc : Z) :
  fold_left
    (fun score nbr =>
       let s := nbr_chnl_state w nbr in
       let snr := ACSPNbr.rssi nbr - RF_AVR_NFLOOR (G w) in
       if state_is s CHNL_STATE_DISABLE || state_is s CHNL_STATE_RUN then score + snr / 2
       else if state_is s CHNL_STATE_SCAN || state_is s CHNL_STATE_LISTEN then score + snr / 4
       else if state_is s CHNL_STATE_INIT || state_is s CHNL_STATE_SCHED_WAIT then score + snr / 6
       else score + snr / 8) l acc
  = acc + sum_Z (map (fun nbr => (ACSPNbr.rssi nbr - RF_AVR_NFLOOR (G w))
                                   / score_weight (nbr_chnl_state w nbr)) l).
Proof.
  assert (Hsum : forall l a, fold_left Z.add l a = a + fold_left Z.add l 0).
  { induction l0 as [| x l0 IH]; intros a; simpl; [lia |].
    rewrite IH, (IH x). lia. }
  revert acc. induction l as [| nbr l IH]; intros acc.
  - unfold sum_Z. simpl. lia.
  - cbn [fold_left map]. rewrite IH. unfold sum_Z at 2. cbn [fold_left].
    rewrite (Hsum _ (0 + _)). unfold sum_Z, score_weight.
    change CHNL_STATE_DISABLE with "Disable"%string.
    change CHNL_STATE_RUN with "Enable"%string.
    change CHNL_STATE_SCAN with "Scanning"%string.
    change CHNL_STATE_LISTEN with "Listening"%string.
    change CHNL_STATE_INIT with "Init"%string.
    change CHNL_STATE_SCHED_WAIT with "Sched_Waiting"%string.
    destruct (state_is _ "Disable" || state_is _ "Enable");
      [lia |].
    destruct (state_is _ "Scanning" || state_is _ "Listening");
      [lia |].
    destruct (state_is _ "Init" || state_is _ "Sched_Waiting");
      lia.
Qed.

(** C6, as stated, does not hold: the shares are Python 2 integer
    divisions, so three neighbors in Enable, Scanning and Init with an SNR
    of 40 each score 20 + 10 + 6 = 36, which is not 40/2 + 40/4 + 40/6. *)
Lemma nbr_score_example_refuted :
  IZR (calc_nbr_score score_world score_radio) <> (40 / 2 + 40 / 4 + 40 / 6)%R.
Proof.
  replace (calc_nbr_score score_world score_radio) with 36 by (vm_compute; reflexivity).
  lra.
Qed.

(** C6, amended: the neighbor score is the sum over the neighbor entries of
    [snr / 2] (Disable, Enable), [snr / 4] (Scanning, Listening), [snr / 6]
    (Init, Sched_Waiting) and [snr / 8] (any other state), with
    [snr = smoothed_rssi - RF_AVR_NFLOOR] and [/] the floor division of
    integers; three neighbors in Enable, Scanning and Init with an SNR of
    40 each score 20 + 10 + 6 = 36; a radio with no neighbors scores
    [-sys.maxint - 1], the least machine integer. *)
Theorem nbr_score_is_weighted_sum :
  (forall (w : World) (self : Radio.t),
     calc_nbr_score w self =
     match Radio.nbrs self with
     | [] => - 2 ^ 63
     | _ :: _ =>
         sum_Z (map (fun nbr => (ACSPNbr.rssi nbr - RF_AVR_NFLOOR (G w))
                                  / score_weight (nbr_chnl_state w nbr))
                    (Dict.values (Radio.nbrs self)))
     end)
  /\ map (fun nbr => (nbr_chnl_state score_world nbr,
                      ACSPNbr.rssi nbr - RF_AVR_NFLOOR (G score_world)))
         (Dict.values (Radio.nbrs score_radio))
     = [(Some "Enable"%string, 40); (Some "Scanning"%string, 40); (Some "Init"%string, 40)]
  /\ calc_nbr_score score_world score_radio = 36.
Proof.
  split; [| split; vm_compute; reflexivity].
  intros w self. unfold calc_nbr_score.
  destruct (Radio.nbrs self) as [| n l] eqn:E.
  - reflexivity.
  - rewrite fold_score_sum. lia.
Qed.

End NbrScore.

(** ** The circles and the choice among two cross points *)

Section Circles.
Local Open Scope R_scope.

Lemma Reqb_false (a b : R) : a <> b -> Reqb a b = false.
Proof. intros H. unfold Reqb. destruct (Req_dec_T a b); [contradiction | reflexivity]. Qed.
Lemma Reqb_true (a b : R) : a = b -> Reqb a b = true.
Proof. intros H. unfold Reqb. destruct (Req_dec_T a b); [reflexivity | contradiction]. Qed.
Lemma Rltb_true (a b : R) : a < b -> Rltb a b = true.
Proof. intros H. unfold Rltb. destruct (Rlt_dec a b); [reflexivity | contradiction]. Qed.
Lemma Rltb_false (a b : R) : ~ a < b -> Rltb a b = false.
Proof. intros H. unfold Rltb. destruct (Rlt_dec a b); [contradiction | reflexivity]. Qed.
Lemma Rleb_true (a b : R) : a <= b -> Rleb a b = true.
Proof. intros H. unfold Rleb. destruct (Rle_dec a b); [reflexivity | contradiction]. Qed.
Lemma Rleb_false (a b : R) : ~ a <= b -> Rleb a b = false.
Proof. intros H. unfold Rleb. destruct (Rle_dec a b); [contradiction | reflexivity]. Qed.

Lemma sqrt_sq (a : R) : 0 <= a -> sqrt (a * a) = a.
Proof. intros H. apply sqrt_square. exact H. Qed.

Lemma sqrt_1100_pos : 0 < sqrt 1100.
Proof. apply sqrt_lt_R0. lra. Qed.

Lemma sqrt_scaled : sqrt 440000000000 = 20000 * sqrt 1100.
Proof.
  replace 440000000000 with ((20000 * 20000) * 1100) by lra.
  rewrite sqrt_mult by lra. rewrite sqrt_sq by lra. reflexivity.
Qed.

(** The circles of radius 60 around (0,0) and (100,0) cross at
    (50, -sqrt 1100) and (50, sqrt 1100), in this order. *)
Lemma cpoints_60_60 :
  circles_cpoints (0, 0) 60 (100, 0) 60 false
  = inr (2%Z, [(50, - sqrt 1100); (50, sqrt 1100)]).
Proof.
  unfold circles_cpoints.
  assert (distance (0, 0) (100, 0) = 100) as ->.
  { unfold distance. replace ((0 - 100) ^ 2 + (0 - 0) ^ 2) with (100 * 100) by lra.
    apply sqrt_sq. lra. }
  rewrite (Reqb_false 100 0) by lra.
  replace (60 - 60) with 0 by lra. rewrite Rabs_R0.
  rewrite (Rltb_false 100 0) by lra. cbn [andb].
  replace (60 - 60) with 0 by lra. rewrite Rabs_R0.
  rewrite (Rleb_true 0 100), (Rleb_true 100 (60 + 60)) by lra. cbn [andb].
  unfold Cpoints.p1x_den, Cpoints.p1y_den, Cpoints.p2x_den, Cpoints.p2y_den.
  rewrite !Reqb_false by lra. cbn [orb].
  unfold Cpoints.p1x_num, Cpoints.p1y_num, Cpoints.p2x_num, Cpoints.p2y_num.
  replace ((0 - 100) ^ 2 *
           (- 0 ^ 2 + 2 * 0 * 100 - 100 ^ 2 - 0 ^ 2 + 2 * 0 * 0 - 0 ^ 2 + 60 ^ 2 + 2 * 60 * 60 + 60 ^ 2) *
           (0 ^ 2 - 2 * 0 * 100 + 100 ^ 2 + 0 ^ 2 - 2 * 0 * 0 + 0 ^ 2 - 60 ^ 2 + 2 * 60 * 60 - 60 ^ 2))
    with 440000000000 by lra.
  rewrite sqrt_scaled.
  repeat f_equal; field.
Qed.

(** C1: in the step for [req >= 3] the two candidates are weighed by the
    distances from [ref1] and [ref2] to [ref3] (lines 1143-1145), not by the
    distances from the cross points to [ref3].  With references at (0,0) and
    (100,0), [d1 = d2 = 60], a third reference at (50,-200) and [d3 = 170],
    the cross points are (50, -33.17) and (50, 33.17); the code takes
    (50, 33.17), whose distance to the third reference misses 170 by 63.17,
    although (50, -33.17) misses it by 3.17 only. *)
Theorem locate3_takes_the_worse_point :
  circles_cpoints (0, 0) 60 (100, 0) 60 false
    = inr (2%Z, [(50, - sqrt 1100); (50, sqrt 1100)])
  /\ locate3 (0, 0) (100, 0) (50, -200) 60 60 170 = inr (Put (50, sqrt 1100))
  /\ Rabs (170 - distance (50, - sqrt 1100) (50, -200))
     < Rabs (170 - distance (50, sqrt 1100) (50, -200)).
Proof.
  split; [exact cpoints_60_60 |]. split.
  - unfold locate3. rewrite cpoints_60_60. cbn [ebind fst snd Z.ltb Z.leb Z.compare].
    rewrite Rltb_false.
    + reflexivity.
    + assert (distance (0, 0) (50, -200) = distance (100, 0) (50, -200)) as ->.
      { unfold distance. f_equal. lra. }
      lra.
  - pose proof sqrt_1100_pos as Hy.
    assert (distance (50, sqrt 1100) (50, -200) = sqrt 1100 + 200) as ->.
    { unfold distance.
      replace ((50 - 50) ^ 2 + (sqrt 1100 - -200) ^ 2)
        with ((sqrt 1100 + 200) * (sqrt 1100 + 200)) by lra.
      apply sqrt_sq. lra. }
    assert (distance (50, - sqrt 1100) (50, -200) = Rabs (200 - sqrt 1100)) as ->.
    { unfold distance.
      replace ((50 - 50) ^ 2 + (- sqrt 1100 - -200) ^ 2)
        with (Rsqr (200 - sqrt 1100)) by (unfold Rsqr; lra).
      apply sqrt_Rsqr_abs. }
    unfold Rabs.
    repeat match goal with |- context [Rcase_abs ?x] => destruct (Rcase_abs x) end; lra.
Qed.

(** The example of the specification, with the third reference at
    (50, 200): the code returns (50, 33.17), and it does so through the same
    tie [n1 = n2], not because that point is the nearer to 170. *)
Lemma locate3_spec_example :
  locate3 (0, 0) (100, 0) (50, 200) 60 60 170 = inr (Put (50, sqrt 1100)).
Proof.
  unfold locate3. rewrite cpoints_60_60. cbn [ebind fst snd Z.ltb Z.leb Z.compare].
  rewrite Rltb_false; [reflexivity |].
  assert (distance (0, 0) (50, 200) = distance (100, 0) (50, 200)) as ->
    by (unfold distance; f_equal; lra).
  lra.
Qed.

End Circles.

(** ** get_ref_nbr *)

Section RefNbr.






End RefNbr.

(** ** detect_ap *)

Section DetectAp.

Lemma mem_str_filter_out (x : string) (l : list string) :
  mem_str x (filter (fun k => negb (String.eqb x k)) l) = false.
Proof.
  unfold mem_str. induction l as [| k l IH]; [reflexivity |].
  cbn [filter]. destruct (String.eqb x k) eqn:E; cbn [negb].
  - exact IH.
  - cbn [existsb]. rewrite E. exact IH.
Qed.

(** X8: a host that opens the shell and whose first-interface probe
    (lines 737-750) is empty or has no [Wifi0] in it is deleted from
    [NODES], [APS] stays as it was, and the thread returns without entering
    the poller's loop. *)
Lemma detect_ap_rejects_failed_probe (w : World) (node node1 node2 : AP.t) (out : pylines) :
  ssh_open node = (node1, true) ->
  ssh_cmd_lines node1 ("show interface | in " ++ IFNAME_WIFI0 ++ nl) = (node2, inr out) ->
  looks_like_ap out = false ->
  mem_str (AP.ip node) (NODES w) = true ->
  exists w',
    detect_ap w node = (w', node2, Returned)
    /\ mem_str (AP.ip node) (NODES w') = false
    /\ APS w' = APS w.
Proof.
  intros Hopen Hprobe Hlook Hin.
  assert (Hip1 : AP.ip node1 = AP.ip node).
  { unfold ssh_open in Hopen.
    destruct (connects (AP.wire node)) as [| [] cs]; inversion Hopen; reflexivity. }
  unfold detect_ap. rewrite Hopen.
  rewrite Hprobe. rewrite Hlook. cbn [negb].
  unfold del_NODES. unfold mem_str in Hin. rewrite Hin.
  eexists. split; [reflexivity |]. split; [| reflexivity].
  cbn [NODES set_NODES]. apply mem_str_filter_out.
Qed.

(** C3: a host whose platform name starts with [SR] and whose probe lists a
    [Wifi0] row stays in [NODES], is stored in [APS] with both radios set
    up, and its thread enters the poller's loop; the test of line 768 only
    logs 'Treat SR switch as AP by mistake'. *)
Theorem detect_ap_keeps_sr_switch :
  let '(w', node', result) := detect_ap sr_world sr_node in
  option_map is_SR (AP.name node') = Some true
  /\ result = Polling
  /\ mem_str "10.0.0.7" (NODES w') = true
  /\ option_map (fun a => Dict.keys (AP.radios a)) (Dict.get "10.0.0.7" (APS w'))
     = Some [IFNAME_WIFI0; IFNAME_WIFI1].
Proof. vm_compute. repeat split; reflexivity. Qed.

End DetectAp.

(** ** The smoothing windows *)

Section Windows.

(** The noise-floor window obeys its bound while the bound is at least 1. *)
Lemma window_push_bounded (smooth_window : Z) (window : list Z) (x : Z) :
  1 <= smooth_window ->
  Z.of_nat (List.length window) <= smooth_window ->
  Z.of_nat (List.length (window_push smooth_window window x)) <= smooth_window.
Proof.
  intros Hw Hlen. unfold window_push.
  destruct (Z.of_nat (List.length (window ++ [x])) >? smooth_window) eqn:E.
  - rewrite length_app in E. cbn [List.length] in E.
    destruct window as [| y l]; cbn [app tl List.length] in *; [lia |].
    rewrite length_app. cbn [List.length]. lia.
  - rewrite Z.gtb_ltb in E. apply Z.ltb_ge in E. exact E.
Qed.

(** A window that starts empty holds one sample after a push. *)
Lemma window_push_fresh (smooth_window x : Z) :
  1 <= smooth_window -> window_push smooth_window [] x = [x].
Proof.
  intros Hw. unfold window_push. cbn [app List.length].
  destruct (Z.of_nat 1 >? smooth_window) eqn:E; [| reflexivity].
  rewrite Z.gtb_ltb in E. apply Z.ltb_lt in E. cbn in E. lia.
Qed.

(** C5: [update_acsp_nbrs] empties [self.nbrs] and builds every entry anew
    from [ACSPNbr(radio)], whose window is empty (lines 408 and 415), so the
    window of a neighbor never holds more than the sample of the current
    poll.  With [RF_SMOOTH_WINDOW = 3] and one neighbor heard at -60 dBm and
    then at -70 dBm, the window is [-60] after the first poll and [-70]
    after the second, and the smoothed RSSI is -70: the sample of the first
    poll is gone, where a window kept across polls would hold both and
    smooth to -65. *)
Theorem nbr_window_restarts_each_poll :
  let self := ("X", IFNAME_WIFI0)%string in
  let '(w1, r1) := update_acsp_nbrs self hear_world in
  let '(w2, r2) := update_acsp_nbrs self w1 in
  RF_SMOOTH_WINDOW (G hear_world) = 3
  /\ r1 = inr tt /\ r2 = inr tt
  /\ nbr_windows w1 self = Some [("0019:7700:1230"%string, [-60], -60)]
  /\ nbr_windows w2 self = Some [("0019:7700:1230"%string, [-70], -70)].
Proof. vm_compute. repeat split; reflexivity. Qed.

End Windows.

(** ** Dictionaries and references *)

Section Store.

Lemma get_set {V} (k k' : string) (v : V) (d : list (string * V)) :
  Dict.get k' (Dict.set k v d) = if String.eqb k' k then Some v else Dict.get k' d.
Proof.
  induction d as [| [k0 v0] d IH]; cbn [Dict.set Dict.get].
  - reflexivity.
  - destruct (String.eqb k k0) eqn:E; cbn [Dict.get].
    + apply String.eqb_eq in E. subst k0.
      destruct (String.eqb k' k); reflexivity.
    + rewrite IH. destruct (String.eqb k' k0) eqn:E0; [| reflexivity].
      apply String.eqb_eq in E0. subst k0.
      rewrite String.eqb_sym, E. reflexivity.
Qed.

Lemma keys_set {V} (k : string) (v v0 : V) (d : list (string * V)) :
  Dict.get k d = Some v0 -> Dict.keys (Dict.set k v d) = Dict.keys d.
Proof.
  unfold Dict.keys. induction d as [| [k0 v1] d IH]; cbn [Dict.set Dict.get map fst].
  - discriminate.
  - destruct (String.eqb k k0) eqn:E; intros H.
    + apply String.eqb_eq in E. subst k0. reflexivity.
    + cbn [map fst]. f_equal. apply IH. exact H.
Qed.

Lemma rid_eqb_eq (a b : rid) : rid_eqb a b = true <-> a = b.
Proof.
  destruct a as [a1 a2], b as [b1 b2]. unfold rid_eqb. cbn [fst snd].
  rewrite andb_true_iff, !String.eqb_eq. split.
  - intros [-> ->]. reflexivity.
  - intros [= -> ->]. split; reflexivity.
Qed.

Lemma get_put (w : World) (i j : rid) (rd rd' : Radio.t) :
  get_radio w i = Some rd ->
  get_radio (put_radio i rd' w) j = if rid_eqb j i then Some rd' else get_radio w j.
Proof.
  unfold get_radio, put_radio, rid_eqb. intros H.
  destruct (Dict.get (fst i) (APS w)) as [a |] eqn:Ea; [| discriminate].
  cbn [APS set_APS]. rewrite get_set.
  destruct (String.eqb (fst j) (fst i)) eqn:E1; cbn [andb].
  - cbn [AP.radios AP.set_radios]. rewrite get_set.
    apply String.eqb_eq in E1. rewrite E1, Ea.
    destruct (String.eqb (snd j) (snd i)); reflexivity.
  - reflexivity.
Qed.

Lemma put_G (w : World) (i : rid) (rd : Radio.t) : G (put_radio i rd w) = G w.
Proof. unfold put_radio. destruct (Dict.get (fst i) (APS w)); reflexivity. Qed.

Lemma put_NODES (w : World) (i : rid) (rd : Radio.t) : NODES (put_radio i rd w) = NODES w.
Proof. unfold put_radio. destruct (Dict.get (fst i) (APS w)); reflexivity. Qed.

Lemma put_LOCK (w : World) (i : rid) (rd : Radio.t) :
  APS_LOCK (put_radio i rd w) = APS_LOCK w.
Proof. unfold put_radio. destruct (Dict.get (fst i) (APS w)); reflexivity. Qed.

Lemma put_keys (w : World) (i : rid) (rd : Radio.t) :
  Dict.keys (APS (put_radio i rd w)) = Dict.keys (APS w).
Proof.
  unfold put_radio. destruct (Dict.get (fst i) (APS w)) as [a |] eqn:E; [| reflexivity].
  cbn [APS set_APS]. apply (keys_set _ _ a). exact E.
Qed.

Lemma put_other_ap (w : World) (i : rid) (rd : Radio.t) (ip : string) :
  ip <> fst i -> Dict.get ip (APS (put_radio i rd w)) = Dict.get ip (APS w).
Proof.
  intros Hne. unfold put_radio.
  destruct (Dict.get (fst i) (APS w)) as [a |] eqn:E; [| reflexivity].
  cbn [APS set_APS]. rewrite get_set.
  destruct (String.eqb ip (fst i)) eqn:E1; [| reflexivity].
  apply String.eqb_eq in E1. contradiction.
Qed.

End Store.

(** ** Radio.show: the coverage radius *)

Section Coverage.
Local Open Scope R_scope.










End Coverage.

(** ** The sweep: the second AP *)

Section SecondAp.
Variable randint : Z -> Z -> nat -> Z.

Lemma place_runs (w : World) (ap : string) (c : R * R) (s : Locals) (rd0 rd1 : Radio.t) :
  get_radio w (ap, IFNAME_WIFI0) = Some rd0 ->
  get_radio w (ap, IFNAME_WIFI1) = Some rd1 ->
  exists w',
    place ap c s w = (w', inr (mkLocals (aps_nscore s) (aps s ++ [ap]) (aps_delayed s)))
    /\ centre w' (ap, IFNAME_WIFI0) = Some c
    /\ centre w' (ap, IFNAME_WIFI1) = Some c
    /\ (forall j, fst j <> ap -> get_radio w' j = get_radio w j)
    /\ G w' = G w.
Proof.
  intros H0 H1.
  assert (H1' : get_radio (put_radio (ap, IFNAME_WIFI0) (Radio.set_c c rd0) w)
                  (ap, IFNAME_WIFI1) = Some rd1).
  { rewrite (get_put _ _ _ rd0) by exact H0.
    replace (rid_eqb (ap, IFNAME_WIFI1) (ap, IFNAME_WIFI0)) with false; [exact H1 |].
    unfold rid_eqb. cbn [fst snd]. rewrite String.eqb_refl. reflexivity. }
  eexists. split; [| split; [| split; [| split]]].
  - unfold place, bind, assign, ret. rewrite H0. rewrite H1'. reflexivity.
  - unfold centre. rewrite (get_put _ _ _ rd1) by exact H1'.
    replace (rid_eqb (ap, IFNAME_WIFI0) (ap, IFNAME_WIFI1)) with false
      by (unfold rid_eqb; cbn [fst snd]; rewrite String.eqb_refl; reflexivity).
    rewrite (get_put _ _ _ rd0) by exact H0.
    replace (rid_eqb (ap, IFNAME_WIFI0) (ap, IFNAME_WIFI0)) with true
      by (symmetry; apply rid_eqb_eq; reflexivity).
    reflexivity.
  - unfold centre. rewrite (get_put _ _ _ rd1) by exact H1'.
    replace (rid_eqb (ap, IFNAME_WIFI1) (ap, IFNAME_WIFI1)) with true
      by (symmetry; apply rid_eqb_eq; reflexivity).
    reflexivity.
  - intros j Hj.
    rewrite (get_put _ _ _ rd1) by exact H1'.
    destruct (rid_eqb j (ap, IFNAME_WIFI1)) eqn:E.
    { apply rid_eqb_eq in E. subst j. contradiction Hj. reflexivity. }
    rewrite (get_put _ _ _ rd0) by exact H0.
    destruct (rid_eqb j (ap, IFNAME_WIFI0)) eqn:E0; [| reflexivity].
    apply rid_eqb_eq in E0. subst j. contradiction Hj. reflexivity.
  - rewrite !put_G. reflexivity.
Qed.

End SecondAp.

Section SecondApStep.
Variable randint : Z -> Z -> nat -> Z.

Lemma mem_str_In (x : string) (l : list string) : mem_str x l = true <-> In x l.
Proof.
  unfold mem_str. rewrite existsb_exists. split.
  - intros (y & Hy & E). apply String.eqb_eq in E. subst y. exact Hy.
  - intros H. exists x. split; [exact H | apply String.eqb_refl].
Qed.

Lemma reverse_refs_on_placed (w : World) (ifname : string) (rd0 : rid)
    (placed : list string) (l : list rid) :
  reverse_refs w ifname rd0 placed = inr l ->
  forall r, In r l -> In (fst r) placed.
Proof.
  revert l. induction placed as [| a placed IH]; intros l H r Hr.
  - inversion H. subst l. contradiction.
  - cbn [reverse_refs] in H. unfold ebind in H.
    destruct (deref w (a, ifname)) as [e | rd]; [discriminate |].
    destruct (reverse_refs w ifname rd0 placed) as [e | rest]; [discriminate |].
    inversion H. subst l. clear H.
    destruct (mem_rid rd0 (Radio.nbrs_radios rd)).
    + destruct Hr as [<- | Hr]; [left; reflexivity | right; apply (IH rest eq_refl r Hr)].
    + right. apply (IH rest eq_refl r Hr).
Qed.

(** Every radio of the pools is on an AP that has been placed. *)
Lemma collect_pools_on_placed (w : World) (self : rid) (rd0 : Radio.t)
    (placed : list string) (p : Pools) :
  collect_pools w self rd0 placed = inr p ->
  forall r, In r (all_refs p) -> In (fst r) placed.
Proof.
  unfold collect_pools, ebind. intros H r Hr.
  destruct (reverse_refs w IFNAME_WIFI0 self placed) as [e | rr0] eqn:E0; [discriminate |].
  destruct (reverse_refs w IFNAME_WIFI1 self placed) as [e | rr1] eqn:E1; [discriminate |].
  inversion H. subst p. clear H.
  unfold all_refs in Hr. cbn [ref_nbrs0 rref_nbrs0 ref_nbrs1 rref_nbrs1] in Hr.
  rewrite !in_app_iff in Hr.
  destruct Hr as [Hr | [Hr | [Hr | Hr]]].
  - apply filter_In in Hr. destruct Hr as [_ Hr]. apply andb_true_iff in Hr.
    apply mem_str_In. apply Hr.
  - apply (reverse_refs_on_placed _ _ _ _ _ E0 r Hr).
  - apply filter_In in Hr. destruct Hr as [_ Hr]. apply andb_true_iff in Hr.
    apply mem_str_In. apply Hr.
  - apply (reverse_refs_on_placed _ _ _ _ _ E1 r Hr).
Qed.

(** The radio [get_ref_nbr] returns comes from the pools. *)
Lemma get_ref_nbr_in (w : World) (p p' : Pools) (rd : rid) (ref1_rd ref2_rd : option rid)
    (need_cross : bool) (ref_rd : rid) (fspl : Z) (ghz : R) :
  get_ref_nbr w p rd ref1_rd ref2_rd need_cross = (p', inr (ref_rd, fspl, ghz)) ->
  In ref_rd (all_refs p).
Proof.
  unfold get_ref_nbr. intros H.
  destruct (scan_refs _ (all_refs p) 0) as [e | i]; [inversion H |].
  destruct (nth_error (all_refs p) i) as [r |] eqn:En; [| inversion H].
  apply nth_error_In in En.
  assert (Hres : forall (x : exn + (Z * R)),
            (fg <~ x ;; inr (r, fst fg, snd fg))%py = inr (ref_rd, fspl, ghz) -> r = ref_rd).
  { intros [e | fg]; cbn [ebind]; [discriminate | intros [= -> _ _]; reflexivity]. }
  repeat match type of H with
         | (if ?b then _ else _) = _ => destruct b
         end;
    injection H as _ Hr; apply Hres in Hr; subst r; exact En.
Qed.

(** The step of the loop when one reference is required and found. *)
Lemma place_ap_one_reference (w : World) (s : Locals) (ap : string) (i : nat)
    (a : AP.t) (rd0 rd1 ref1 : Radio.t) (pools pools' : Pools) (ref1_rd : rid)
    (fspl d1 : Z) (ghz : R) :
  mem_str ap (aps s) = false ->
  Dict.get ap (APS w) = Some a ->
  Dict.get IFNAME_WIFI0 (AP.radios a) = Some rd0 ->
  Dict.get IFNAME_WIFI1 (AP.radios a) = Some rd1 ->
  (1 <? List.length (AP.radios a))%nat = true ->
  String.eqb (APS_COORD_METHOD (G w)) "random" = false ->
  String.eqb (APS_COORD_METHOD (G w)) "manual" = false ->
  List.length (aps s) = 1%nat ->
  collect_pools w (ap, IFNAME_WIFI0) rd0 (aps s) = inr pools ->
  (List.length (uaps pools) <? 1)%nat = false ->
  get_ref_nbr w pools (ap, IFNAME_WIFI0) None None false = (pools', inr (ref1_rd, fspl, ghz)) ->
  fspl_dots fspl ghz (CANVAS_METER_PER_DOT (G w)) = inr d1 ->
  get_radio w ref1_rd = Some ref1 ->
  place_ap randint ap i s w
  = place ap ((fst (Radio.c ref1) + IZR d1)%R, snd (Radio.c ref1)) s w.
Proof.
  intros Hnot Ha H0 H1 Hlen Hm1 Hm2 Haps Hp Hu Hr Hd Href.
  unfold place_ap. rewrite Hnot.
  unfold bind at 1. unfold gets. rewrite Ha.
  unfold bind at 1. unfold or_raise at 1. unfold ret at 1.
  unfold bind at 1. rewrite H0. unfold or_raise at 1. unfold ret at 1.
  rewrite Hlen.
  unfold bind at 1. unfold bind at 1. rewrite H1.
  unfold or_raise at 1. unfold ret at 1. unfold ret at 1.
  unfold bind at 1. unfold or_raise at 1. unfold ret at 1.
  unfold bind at 1. rewrite Hm1, Hm2. rewrite Haps.
  change (1 <? 3)%nat with true. cbv iota.
  unfold bind at 1. unfold bind at 1. unfold lift at 1. rewrite Hp.
  rewrite Hu. change (1 =? 0)%nat with false. cbv iota.
  rewrite Hr.
  unfold bind at 1. unfold lift at 1. rewrite Hd.
  unfold bind at 1. unfold the_radio. rewrite Href.
  reflexivity.
Qed.

(** C7, amended: when exactly one reference radio is required, the AP is
    put at [(ref1.x + d1, ref1.y)] with
    [d1 = int(10 ** ((fspl - 32.44 - 20*log10(ghz)) / 20) / CANVAS_METER_PER_DOT)],
    both of its radios on that centre and no other radio moved; [ref1] is a
    radio of the one AP placed before, so the second AP gets the ordinate of
    the first.  For [fspl = 80], [ghz = 2.437] and 0.1 m per dot, [d1] is
    979: with the first AP at (400, 300) the second is put at (1379, 300). *)
Theorem second_ap_right_of_reference (w : World) (s : Locals) (ap : string) (i : nat)
    (a : AP.t) (rd0 rd1 ref1 : Radio.t) (pools pools' : Pools) (ref1_rd : rid)
    (fspl d1 : Z) (ghz : R) :
  mem_str ap (aps s) = false ->
  Dict.get ap (APS w) = Some a ->
  Dict.get IFNAME_WIFI0 (AP.radios a) = Some rd0 ->
  Dict.get IFNAME_WIFI1 (AP.radios a) = Some rd1 ->
  (1 <? List.length (AP.radios a))%nat = true ->
  String.eqb (APS_COORD_METHOD (G w)) "random" = false ->
  String.eqb (APS_COORD_METHOD (G w)) "manual" = false ->
  List.length (aps s) = 1%nat ->
  collect_pools w (ap, IFNAME_WIFI0) rd0 (aps s) = inr pools ->
  (List.length (uaps pools) <? 1)%nat = false ->
  get_ref_nbr w pools (ap, IFNAME_WIFI0) None None false = (pools', inr (ref1_rd, fspl, ghz)) ->
  fspl_dots fspl ghz (CANVAS_METER_PER_DOT (G w)) = inr d1 ->
  get_radio w ref1_rd = Some ref1 ->
  (exists w',
     place_ap randint ap i s w
       = (w', inr (mkLocals (aps_nscore s) (aps s ++ [ap]) (aps_delayed s)))
     /\ centre w' (ap, IFNAME_WIFI0)
        = Some ((fst (Radio.c ref1) + IZR d1)%R, snd (Radio.c ref1))
     /\ centre w' (ap, IFNAME_WIFI1)
        = Some ((fst (Radio.c ref1) + IZR d1)%R, snd (Radio.c ref1))
     /\ (forall j, fst j <> ap -> get_radio w' j = get_radio w j))
  /\ In (fst ref1_rd) (aps s)
  /\ fspl_dots 80 2.437 0.1 = inr 979.
Proof.
  intros Hnot Ha H0 H1 Hlen Hm1 Hm2 Haps Hp Hu Hr Hd Href.
  split; [| split; [| exact fspl_dots_80_ch6]].
  - assert (G0 : get_radio w (ap, IFNAME_WIFI0) = Some rd0)
      by (unfold get_radio; cbn [fst snd]; rewrite Ha; exact H0).
    assert (G1 : get_radio w (ap, IFNAME_WIFI1) = Some rd1)
      by (unfold get_radio; cbn [fst snd]; rewrite Ha; exact H1).
    destruct (place_runs w ap ((fst (Radio.c ref1) + IZR d1)%R, snd (Radio.c ref1)) s
                rd0 rd1 G0 G1) as (w' & Hplace & C0 & C1 & Hframe & _).
    exists w'. split; [| split; [exact C0 | split; [exact C1 | exact Hframe]]].
    rewrite <- Hplace.
    apply (place_ap_one_reference w s ap i a rd0 rd1 ref1 pools pools' ref1_rd fspl d1 ghz);
      assumption.
  - apply (collect_pools_on_placed _ _ _ _ _ Hp).
    apply (get_ref_nbr_in _ _ _ _ _ _ _ _ _ _ Hr).
Qed.

End SecondApStep.

(** ** The sweep on the scenario "two APs" *)

Section TwoAps.
Local Open Scope string_scope.

Lemma ieee2ghz_6 : ieee2ghz 6 = 2.437%R.
Proof. rewrite (ieee2ghz_of_mhz 6 2437 eq_refl). lra. Qed.

Lemma two_aps_first_step :
  place_ap no_randint "A" 0 (mkLocals ["A"; "B"] [] []) two_aps
  = (two_aps_A_placed, inr (mkLocals ["A"; "B"] ["A"] [])).
Proof. vm_compute. reflexivity. Qed.

Lemma two_aps_path_loss :
  get_ref_nbr two_aps_A_placed (mkPools [("A", IFNAME_WIFI0)] [] [] [])
    ("B", IFNAME_WIFI0) None None false
  = (mkPools [] [] [] [], inr (("A", IFNAME_WIFI0), 80, ieee2ghz 6)).
Proof. vm_compute. reflexivity. Qed.

Lemma two_aps_d1 :
  fspl_dots 80 (ieee2ghz 6) (CANVAS_METER_PER_DOT (G two_aps_A_placed)) = inr 979.
Proof. rewrite ieee2ghz_6. exact fspl_dots_80_ch6. Qed.

Lemma two_aps_second_step :
  exists w',
    place_ap no_randint "B" 1 (mkLocals ["A"; "B"] ["A"] []) two_aps_A_placed
      = (w', inr (mkLocals ["A"; "B"] ["A"; "B"] []))
    /\ centre w' ("B", IFNAME_WIFI0) = Some (1379, 300)%R
    /\ centre w' ("A", IFNAME_WIFI0) = Some (400, 300)%R.
Proof.
  rewrite (place_ap_one_reference no_randint two_aps_A_placed
             (mkLocals ["A"; "B"] ["A"] []) "B" 1
             (two_radios "B" radio_B0) radio_B0 (Radio.init IFNAME_WIFI1 "B:1" "U" "B")
             (Radio.set_c (400, 300)%R radio_A0)
             (mkPools [("A", IFNAME_WIFI0)] [] [] []) (mkPools [] [] [] [])
             ("A", IFNAME_WIFI0) 80 979 (ieee2ghz 6));
    try exact two_aps_path_loss; try exact two_aps_d1; try (vm_compute; reflexivity).
  destruct (place_runs two_aps_A_placed "B"
              ((fst (Radio.c (Radio.set_c (400, 300)%R radio_A0)) + IZR 979)%R,
               snd (Radio.c (Radio.set_c (400, 300)%R radio_A0)))
              (mkLocals ["A"; "B"] ["A"] [])
              radio_B0 (Radio.init IFNAME_WIFI1 "B:1" "U" "B") eq_refl eq_refl)
    as (w' & E & C0 & _ & Hframe & _).
  exists w'. split; [exact E | split].
  - rewrite C0. cbn [fst snd Radio.c Radio.set_c]. f_equal. f_equal. lra.
  - unfold centre. rewrite Hframe by (cbn [fst]; discriminate). reflexivity.
Qed.

(** C7, as stated, does not hold: in the scenario of the claim ([A] on the
    centre (400, 300) of the canvas, [B] hearing [A] with a path loss of
    80 dB on channel 6, that is 2.437 GHz, and 0.1 m per dot) the sweep
    puts [B] at (1379, 300), not at (1372, 300). *)
Lemma second_ap_not_at_1372 :
  path_loss two_aps ("A", IFNAME_WIFI0) ("B", IFNAME_WIFI0) = inr (80, 2.437%R)
  /\ CANVAS_METER_PER_DOT (G two_aps) = 0.1%R
  /\ exists w',
       calc_ap_coord no_randint two_aps = (w', inr (Some (mkLocals ["A"; "B"] ["A"; "B"] [])))
       /\ centre w' ("A", IFNAME_WIFI0) = Some (400, 300)%R
       /\ centre w' ("B", IFNAME_WIFI0) = Some (1379, 300)%R
       /\ centre w' ("B", IFNAME_WIFI0) <> Some (1372, 300)%R.
Proof.
  split; [| split; [reflexivity |]].
  - rewrite <- ieee2ghz_6. vm_compute. reflexivity.
  - destruct two_aps_second_step as (w' & E & CB & CA).
    exists w'. split; [| split; [exact CA | split; [exact CB |]]].
    + unfold calc_ap_coord.
      unfold bind at 1. unfold modify.
      replace (update_avr_nfloor two_aps) with two_aps by (vm_compute; reflexivity).
      unfold bind at 1. unfold gets.
      unfold bind at 1. unfold lift.
      replace (candidates two_aps) with (@inr exn _ ["A"; "B"]) by (vm_compute; reflexivity).
      cbn [List.length Nat.mul Nat.add walk nth_error aps_nscore].
      unfold bind at 1. rewrite two_aps_first_step.
      cbn [walk nth_error aps_nscore].
      unfold bind at 1. rewrite E.
      reflexivity.
    + rewrite CB. intros [= H]. lra.
Qed.

(** C7 on the scenario: one reference is required for [B]; it is found on
    [A], 979 dots away, and [B] is put at (1379, 300). *)
Lemma second_ap_right_of_reference_witness :
  exists w',
    place_ap no_randint "B" 1 (mkLocals ["A"; "B"] ["A"] []) two_aps_A_placed
      = (w', inr (mkLocals ["A"; "B"] ["A"; "B"] []))
    /\ centre w' ("B", IFNAME_WIFI0) = Some (1379, 300)%R
    /\ centre w' ("B", IFNAME_WIFI1) = Some (1379, 300)%R.
Proof.
  destruct (second_ap_right_of_reference no_randint two_aps_A_placed
              (mkLocals ["A"; "B"] ["A"] []) "B" 1
              (two_radios "B" radio_B0) radio_B0 (Radio.init IFNAME_WIFI1 "B:1" "U" "B")
              (Radio.set_c (400, 300)%R radio_A0)
              (mkPools [("A", IFNAME_WIFI0)] [] [] []) (mkPools [] [] [] [])
              ("A", IFNAME_WIFI0) 80 979 (ieee2ghz 6)
              eq_refl eq_refl eq_refl eq_refl eq_refl eq_refl eq_refl eq_refl
              ltac:(vm_compute; reflexivity) eq_refl
              two_aps_path_loss two_aps_d1 eq_refl)
    as ((w' & E & C0 & C1 & _) & _ & _).
  exists w'. split; [exact E | split].
  - rewrite C0. cbn [fst snd Radio.c Radio.set_c]. f_equal. f_equal. lra.
  - rewrite C1. cbn [fst snd Radio.c Radio.set_c]. f_equal. f_equal. lra.
Defined.

End TwoAps.

(** ** What a statement leaves alone *)

Section Frames.

Context (I : World -> Prop).

Lemma stable_ret {A} (a : A) : stable I (ret a).
Proof. intros w H. exact H. Qed.

Lemma stable_raise {A} (e : exn) : stable I (@raise A e).
Proof. intros w H. exact H. Qed.

Lemma stable_gets {A} (f : World -> A) : stable I (gets f).
Proof. intros w H. exact H. Qed.

Lemma stable_lift {A} (x : exn + A) : stable I (lift x).
Proof. intros w H. exact H. Qed.

Lemma stable_or_raise {A} (e : exn) (o : option A) : stable I (or_raise e o).
Proof. intros w H. destruct o; exact H. Qed.

Lemma stable_the_radio (i : rid) : stable I (the_radio i).
Proof. intros w H. exact H. Qed.

Lemma stable_bind {A B} (m : M A) (k : A -> M B) :
  stable I m -> (forall a, stable I (k a)) -> stable I (bind m k).
Proof.
  intros Hm Hk w H. unfold bind. specialize (Hm w H).
  destruct (m w) as [w' [e | a]]; cbn [fst] in *.
  - exact Hm.
  - apply Hk. exact Hm.
Qed.

Lemma stable_try_except {A} (m : M A) (h : exn -> M A) :
  stable I m -> (forall e, stable I (h e)) -> stable I (try_except m h).
Proof.
  intros Hm Hh w H. unfold try_except. specialize (Hm w H).
  destruct (m w) as [w' [e | a]]; cbn [fst] in *.
  - destruct e; try (apply Hh; exact Hm); exact Hm.
  - exact Hm.
Qed.

Lemma stable_acquire :
  (forall w, I w -> I (set_APS_LOCK true w)) -> stable I acquire_APS_LOCK.
Proof.
  intros Hset w H. unfold acquire_APS_LOCK.
  destruct (APS_LOCK w); cbn [fst]; [exact H | apply Hset; exact H].
Qed.

Lemma stable_release :
  (forall w, I w -> I (set_APS_LOCK false w)) -> stable I release_APS_LOCK.
Proof. intros Hset w H. apply Hset. exact H. Qed.

Lemma stable_for_each {A} (l : list A) (body : A -> M unit) :
  (forall x, In x l -> stable I (body x)) -> stable I (for_each l body).
Proof.
  induction l as [| x l IH]; intros Hb; cbn [for_each].
  - apply stable_ret.
  - apply stable_bind.
    + apply Hb. left. reflexivity.
    + intros _. apply IH. intros y Hy. apply Hb. right. exact Hy.
Qed.

Lemma stable_assign (i : rid) (f : Radio.t -> Radio.t) :
  (forall w rd, I w -> get_radio w i = Some rd -> I (put_radio i (f rd) w)) ->
  stable I (assign i f).
Proof.
  intros Hput w H. unfold assign.
  destruct (get_radio w i) as [rd |] eqn:E; cbn [fst].
  - apply Hput; assumption.
  - exact H.
Qed.

Lemma stable_on_ap {A} (ip : string) (f : AP.t -> AP.t * (exn + A)) :
  (forall w a, I w -> Dict.get ip (APS w) = Some a ->
     I (set_APS (Dict.set ip (fst (f a)) (APS w)) w)) ->
  stable I (on_ap ip f).
Proof.
  intros Hset w H. unfold on_ap.
  destruct (Dict.get ip (APS w)) as [a |] eqn:E; cbn [fst].
  - specialize (Hset w a H E). destruct (f a) as [a' res]. exact Hset.
  - exact H.
Qed.

Lemma returns_ret {A} (Q : A -> Prop) (a : A) : Q a -> returns Q (ret a).
Proof. intros H w w' a' [= _ <-]. exact H. Qed.

Lemma returns_raise {A} (Q : A -> Prop) (e : exn) : returns Q (@raise A e).
Proof. intros w w' a [=]. Qed.

Lemma returns_bind {A B} (Q : B -> Prop) (m : M A) (k : A -> M B) :
  (forall a, returns Q (k a)) -> returns Q (bind m k).
Proof.
  intros Hk w w' b. unfold bind.
  destruct (m w) as [w1 [e | a]]; [intros [=] |].
  apply Hk.
Qed.

End Frames.

(** One step through the structure of a statement. *)
Ltac stable_step :=
  lazymatch goal with
  | |- stable _ (bind _ _) => apply stable_bind; [| intros ?; cbv beta]
  | |- stable _ (ret _) => apply stable_ret
  | |- stable _ (raise _) => apply stable_raise
  | |- stable _ (gets _) => apply stable_gets
  | |- stable _ (lift _) => apply stable_lift
  | |- stable _ (or_raise _ _) => apply stable_or_raise
  | |- stable _ (the_radio _) => apply stable_the_radio
  | |- stable _ (try_except _ _) => apply stable_try_except; [| intros ?; cbv beta]
  | |- stable _ acquire_APS_LOCK => apply stable_acquire; intros ? ?; assumption
  | |- stable _ release_APS_LOCK => apply stable_release; intros ? ?; assumption
  | |- stable _ (if ?b then _ else _) => destruct b
  | |- stable _ (match ?x with _ => _ end) => destruct x
  end.

Ltac returns_step :=
  lazymatch goal with
  | |- returns _ (bind _ _) => apply returns_bind; intros ?; cbv beta
  | |- returns _ (raise _) => apply returns_raise
  | |- returns _ (if ?b then _ else _) => destruct b
  | |- returns _ (match ?x with _ => _ end) => destruct x
  end.

(** ** The sweep: who is a candidate, and who is moved *)

Section Candidates.
Variable randint : Z -> Z -> nat -> Z.

Lemma stable_modify (I : World -> Prop) (f : World -> World) :
  (forall w, I w -> I (f w)) -> stable I (modify f).
Proof. intros Hf w H. apply Hf. exact H. Qed.

Lemma assign_untouched (ip : string) (a0 : AP.t) (i : rid) (f : Radio.t -> Radio.t) :
  fst i <> ip -> stable (untouched ip a0) (assign i f).
Proof.
  intros Hne. apply stable_assign. intros w rd H _. unfold untouched in *.
  rewrite put_other_ap; [exact H | congruence].
Qed.

Lemma place_untouched (ip : string) (a0 : AP.t) (ap : string) (c : R * R) (s : Locals) :
  ap <> ip -> stable (untouched ip a0) (place ap c s).
Proof.
  intros Hne. unfold place.
  repeat first [apply assign_untouched; exact Hne | stable_step].
Qed.

Lemma place_ap_untouched (ip : string) (a0 : AP.t) (ap : string) (i : nat) (s : Locals) :
  ap <> ip -> stable (untouched ip a0) (place_ap randint ap i s).
Proof.
  intros Hne. unfold place_ap.
  repeat first [apply assign_untouched; exact Hne
               | apply place_untouched; exact Hne
               | stable_step].
Qed.

Lemma returns_place (ap : string) (c : R * R) (s : Locals) (Q : Locals -> Prop) :
  Q (mkLocals (aps_nscore s) (aps s ++ [ap]) (aps_delayed s)) -> returns Q (place ap c s).
Proof.
  intros H. unfold place.
  repeat first [apply returns_ret; exact H | returns_step].
Qed.

(** The loop appends to [aps_nscore] nothing but the AP at hand. *)
Lemma place_ap_nscore (ap : string) (i : nat) (s : Locals) :
  returns (fun s' => incl (aps_nscore s') (ap :: aps_nscore s)) (place_ap randint ap i s).
Proof.
  assert (Hs : incl (aps_nscore s) (ap :: aps_nscore s)) by (apply incl_tl, incl_refl).
  assert (Hd : incl (aps_nscore (delay ap s)) (ap :: aps_nscore s)).
  { unfold delay. destruct (mem_str ap (aps_delayed s)); cbn [aps_nscore]; [exact Hs |].
    intros x Hx. apply in_app_iff in Hx. destruct Hx as [Hx | [<- | []]].
    - right. exact Hx.
    - left. reflexivity. }
  unfold place_ap.
  repeat first [apply returns_ret; first [exact Hs | exact Hd]
               | apply returns_place; exact Hs
               | returns_step].
Qed.

Lemma walk_untouched (ip : string) (a0 : AP.t) (fuel i : nat) (s : Locals) :
  ~ In ip (aps_nscore s) -> stable (untouched ip a0) (walk randint fuel i s).
Proof.
  revert i s. induction fuel as [| fuel IH]; intros i s Hnot; cbn [walk].
  - apply stable_ret.
  - destruct (nth_error (aps_nscore s) i) as [ap |] eqn:E; [| apply stable_ret].
    assert (Hne : ap <> ip).
    { intros ->. apply Hnot. apply (nth_error_In _ _ E). }
    intros w H. unfold bind.
    pose proof (place_ap_untouched ip a0 ap i s Hne w H) as H1.
    pose proof (place_ap_nscore ap i s w) as H2.
    destruct (place_ap randint ap i s w) as [w1 [e | s1]]; cbn [fst] in *; [exact H1 |].
    apply IH; [| exact H1].
    intros Hin. apply (H2 w1 s1 eq_refl) in Hin.
    destruct Hin as [<- | Hin]; [apply Hne; reflexivity | exact (Hnot Hin)].
Qed.

Lemma in_get {V} (k : string) (v : V) (d : list (string * V)) :
  NoDup (Dict.keys d) -> In (k, v) d -> Dict.get k d = Some v.
Proof.
  unfold Dict.keys. induction d as [| [k0 v0] d IH]; intros Hnd Hin; [contradiction |].
  cbn [map fst] in Hnd. inversion Hnd as [| ? ? Hk0 Hnd']. subst.
  cbn [Dict.get]. destruct Hin as [[= -> ->] | Hin].
  - rewrite String.eqb_refl. reflexivity.
  - destruct (String.eqb k k0) eqn:E.
    + apply String.eqb_eq in E. subst k0. exfalso. apply Hk0.
      apply in_map_iff. exists (k, v). split; [reflexivity | exact Hin].
    + apply IH; assumption.
Qed.

Lemma filter_nscore_in (l l' : list (string * AP.t)) :
  filter_nscore l = inr l' ->
  forall k a, In (k, a) l' -> In (k, a) l /\ has_nbr_score a = inr true.
Proof.
  revert l'. induction l as [| [k0 a0] l IH]; intros l' H k a Hin.
  - inversion H. subst l'. contradiction.
  - cbn [filter_nscore] in H. unfold ebind in H.
    destruct (has_nbr_score a0) as [e | keep] eqn:E; [discriminate |].
    destruct (filter_nscore l) as [e | rest]; [discriminate |].
    inversion H. subst l'. clear H.
    destruct keep.
    + destruct Hin as [[= -> ->] | Hin].
      * split; [left; reflexivity | exact E].
      * destruct (IH rest eq_refl k a Hin) as [H1 H2]. split; [right; exact H1 | exact H2].
    + destruct (IH rest eq_refl k a Hin) as [H1 H2]. split; [right; exact H1 | exact H2].
Qed.

Lemma insert_by_key_in {A} (x y : Z * A) (l : list (Z * A)) :
  In y (insert_by_key x l) -> y = x \/ In y l.
Proof.
  induction l as [| z l IH]; cbn [insert_by_key].
  - intros [<- | []]. left. reflexivity.
  - destruct (fst x <? fst z).
    + intros [<- | H]; [left; reflexivity | right; exact H].
    + intros [<- | H]; [right; left; reflexivity |].
      destruct (IH H) as [-> | H']; [left; reflexivity | right; right; exact H'].
Qed.

Lemma sorted_by_key_in {A} (l : list (Z * A)) (x : A) :
  In x (sorted_by_key l) -> In x (map snd l).
Proof.
  unfold sorted_by_key.
  assert (H : forall (acc : list (Z * A)) y,
            In y (fold_left (fun acc x => insert_by_key x acc) l acc) -> In y acc \/ In y l).
  { induction l as [| z l IH]; intros acc y Hy; cbn [fold_left] in Hy.
    - left. exact Hy.
    - destruct (IH _ _ Hy) as [H1 | H1].
      + destruct (insert_by_key_in _ _ _ H1) as [-> | H2];
          [right; left; reflexivity | left; exact H2].
      + right. right. exact H1. }
  intros Hx. apply in_map_iff in Hx. destruct Hx as (y & <- & Hy).
  destruct (H [] y Hy) as [[] | Hy']. apply in_map. exact Hy'.
Qed.

(** A candidate of the sweep is an AP of [APS] that passes the test of
    line 997. *)
Lemma candidates_in (w : World) (l : list string) (ip : string) :
  candidates w = inr l -> In ip l ->
  exists a, In (ip, a) (APS w) /\ has_nbr_score a = inr true.
Proof.
  unfold candidates, ebind. intros H Hin.
  destruct (filter_nscore (APS w)) as [e | l'] eqn:E; [discriminate |].
  assert (Hin' : In ip (map fst l')).
  { destruct (APS_COORD_NBRSCORE_ORDER (G w)); inversion H; subst l; [| exact Hin].
    apply sorted_by_key_in in Hin. rewrite map_map in Hin.
    apply in_map_iff in Hin. destruct Hin as ([k a] & <- & Hka).
    apply in_map_iff. exists (k, a). split; [reflexivity | exact Hka]. }
  apply in_map_iff in Hin'. destruct Hin' as ([k a] & Hk & Hka). cbn [fst] in Hk. subst k.
  exists a. apply (filter_nscore_in _ _ E _ _ Hka).
Qed.

End Candidates.

(** ** The walk over [aps_nscore] ends *)

Section WalkEnds.
Variable randint : Z -> Z -> nat -> Z.

(** What a step of the loop can do to its three lists. *)
Lemma place_ap_result (ap : string) (i : nat) (s : Locals) :
  returns (fun s' => s' = s \/ s' = delay ap s
                     \/ s' = mkLocals (aps_nscore s) (aps s ++ [ap]) (aps_delayed s))
          (place_ap randint ap i s).
Proof.
  unfold place_ap.
  repeat first [apply returns_ret; first [left; reflexivity | right; left; reflexivity]
               | apply returns_place; right; right; reflexivity
               | returns_step].
Qed.

Lemma delay_inv (l0 : list string) (ap : string) (s : Locals) :
  In ap (aps_nscore s) -> walk_inv l0 s -> walk_inv l0 (delay ap s).
Proof.
  intros Hap (Hnd & Hd & Hn & Hlen). unfold delay.
  destruct (mem_str ap (aps_delayed s)) eqn:E; [repeat split; assumption |].
  assert (Hnot : ~ In ap (aps_delayed s)).
  { intros Hin. apply mem_str_In in Hin. rewrite Hin in E. discriminate. }
  unfold walk_inv. cbn [aps_delayed aps_nscore]. repeat split.
  - apply NoDup_app; [exact Hnd | constructor; [intros [] | constructor] |].
    intros x Hx [<- | []]. exact (Hnot Hx).
  - apply incl_app; [exact Hd |]. intros x [<- | []]. apply Hn. exact Hap.
  - apply incl_app; [exact Hn |]. intros x [<- | []]. apply Hn. exact Hap.
  - rewrite !length_app. cbn [List.length]. lia.
Qed.

Lemma walk_has_fuel (l0 : list string) (fuel i : nat) (s : Locals) (w : World) :
  walk_inv l0 s ->
  (i <= List.length (aps_nscore s))%nat ->
  (2 * List.length l0 < fuel + i)%nat ->
  snd (walk randint fuel i s w) <> inr None.
Proof.
  revert i s w. induction fuel as [| fuel IH]; intros i s w Hinv Hi Hfuel.
  - exfalso. destruct Hinv as (Hnd & Hd & _ & Hlen).
    pose proof (NoDup_incl_length Hnd Hd). lia.
  - cbn [walk]. destruct (nth_error (aps_nscore s) i) as [ap |] eqn:E.
    2:{ cbn. discriminate. }
    unfold bind. pose proof (place_ap_result ap i s w) as Hres.
    destruct (place_ap randint ap i s w) as [w1 [e | s1]]; [cbn; discriminate |].
    assert (Hlt : (i < List.length (aps_nscore s))%nat)
      by (apply nth_error_Some; rewrite E; discriminate).
    assert (Hap : In ap (aps_nscore s)) by (apply (nth_error_In _ _ E)).
    destruct (Hres w1 s1 eq_refl) as [-> | [-> | ->]].
    + apply IH; [exact Hinv | lia | lia].
    + apply IH; [apply delay_inv; assumption | | lia].
      unfold delay. destruct (mem_str ap (aps_delayed s)); cbn [aps_nscore];
        [| rewrite length_app]; lia.
    + apply IH; [exact Hinv | cbn [aps_nscore]; lia | lia].
Qed.

(** X16: a turn of the [while True] of [calc_ap_coord] ends.  The
    [for ap in aps_nscore] of lines 1005-1155 appends to the list it
    walks, but each AP is appended once at most: over [n] candidates the
    list never holds more than [2 * n] entries.  So the fuel
    [calc_ap_coord] gives to the walk suffices, and a sweep ends with its
    lists or with an exception, never for want of fuel. *)
Lemma calc_ap_coord_ends (w : World) : snd (calc_ap_coord randint w) <> inr None.
Proof.
  unfold calc_ap_coord, bind, modify, gets, lift.
  destruct (candidates (update_avr_nfloor w)) as [e | l0]; [cbn; discriminate |].
  apply (walk_has_fuel l0).
  - unfold walk_inv. cbn [aps_delayed aps_nscore List.length].
    repeat split; [constructor | intros x [] | apply incl_refl | lia].
  - lia.
  - lia.
Qed.

End WalkEnds.

Section ZeroScore.
Variable randint : Z -> Z -> nat -> Z.

(** The step of the loop for the first AP it handles. *)
Lemma place_ap_first (w : World) (s : Locals) (ap : string) (i : nat)
    (a : AP.t) (rd0 rd1 : Radio.t) :
  aps s = [] ->
  Dict.get ap (APS w) = Some a ->
  Dict.get IFNAME_WIFI0 (AP.radios a) = Some rd0 ->
  Dict.get IFNAME_WIFI1 (AP.radios a) = Some rd1 ->
  (1 <? List.length (AP.radios a))%nat = true ->
  String.eqb (APS_COORD_METHOD (G w)) "random" = false ->
  String.eqb (APS_COORD_METHOD (G w)) "manual" = false ->
  place_ap randint ap i s w
  = place ap (IZR (CANVAS_WIDTH (G w) / 2), IZR (CANVAS_HEIGHT (G w) / 2)) s w.
Proof.
  intros Haps Ha H0 H1 Hlen Hm1 Hm2.
  unfold place_ap. rewrite Haps. cbn [mem_str existsb].
  unfold bind at 1. unfold gets. rewrite Ha.
  unfold bind at 1. unfold or_raise at 1. unfold ret at 1.
  unfold bind at 1. rewrite H0. unfold or_raise at 1. unfold ret at 1.
  rewrite Hlen.
  unfold bind at 1. unfold bind at 1. rewrite H1.
  unfold or_raise at 1. unfold ret at 1. unfold ret at 1.
  unfold bind at 1. unfold or_raise at 1. unfold ret at 1.
  unfold bind at 1. rewrite Hm1, Hm2.
  cbn [List.length]. change (0 <? 3)%nat with true. cbv iota.
  unfold bind at 1. unfold bind at 1. unfold lift at 1.
  assert (Hf : forall ifname,
            filter (fun r : rid => mem_str (fst r) [] && String.eqb (snd r) ifname)
                   (Radio.nbrs_radios rd0) = []).
  { intros ifname. induction (Radio.nbrs_radios rd0) as [| r l IH]; [reflexivity |].
    cbn [filter mem_str existsb andb]. exact IH. }
  unfold collect_pools. rewrite !Hf. cbn [reverse_refs ebind].
  cbn [uaps ref_nbrs0 ref_nbrs1 rref_nbrs0 rref_nbrs1 app map nodup List.length].
  change (0 <? 0)%nat with false. change (0 =? 0)%nat with true. cbv iota.
  reflexivity.
Qed.

(** The step of the loop for an AP that finds fewer placed references than
    line 1028 requires: lines 1049-1055 delay it and assign nothing. *)
Lemma place_ap_short (w : World) (s : Locals) (ap : string) (i : nat)
    (a : AP.t) (rd0 rd1 : Radio.t) (pools : Pools) :
  mem_str ap (aps s) = false ->
  Dict.get ap (APS w) = Some a ->
  Dict.get IFNAME_WIFI0 (AP.radios a) = Some rd0 ->
  Dict.get IFNAME_WIFI1 (AP.radios a) = Some rd1 ->
  (1 <? List.length (AP.radios a))%nat = true ->
  String.eqb (APS_COORD_METHOD (G w)) "random" = false ->
  String.eqb (APS_COORD_METHOD (G w)) "manual" = false ->
  collect_pools w (ap, IFNAME_WIFI0) rd0 (aps s) = inr pools ->
  (List.length (uaps pools)
   <? (if (List.length (aps s) <? 3)%nat then List.length (aps s) else 3))%nat = true ->
  place_ap randint ap i s w = (w, inr (delay ap s)).
Proof.
  intros Hmem Ha H0 H1 Hlen Hm1 Hm2 Hpools Hshort.
  unfold place_ap. rewrite Hmem.
  unfold bind at 1. unfold gets. rewrite Ha.
  unfold bind at 1. unfold or_raise at 1. unfold ret at 1.
  unfold bind at 1. rewrite H0. unfold or_raise at 1. unfold ret at 1.
  rewrite Hlen.
  unfold bind at 1. unfold bind at 1. rewrite H1.
  unfold or_raise at 1. unfold ret at 1. unfold ret at 1.
  unfold bind at 1. unfold or_raise at 1. unfold ret at 1.
  unfold bind at 1. rewrite Hm1, Hm2. cbv zeta.
  unfold bind at 1. unfold bind at 1. unfold lift at 1.
  rewrite Hpools, Hshort. reflexivity.
Qed.

Lemma delay_aps (ap : string) (s : Locals) : aps (delay ap s) = aps s.
Proof. unfold delay. destruct (mem_str ap (aps_delayed s)); reflexivity. Qed.

(** A score of 0 fails the test of line 997, the least integer passes it. *)
Lemma has_nbr_score_truthy (a : AP.t) (rd0 : Radio.t) :
  Dict.get IFNAME_WIFI0 (AP.radios a) = Some rd0 ->
  has_nbr_score a = inr (truthy (Radio.nbr_score rd0)).
Proof.
  intros H0. unfold has_nbr_score.
  destruct (AP.radios a) as [| kv l] eqn:E; [discriminate |].
  rewrite H0. reflexivity.
Qed.

(** C9, amended: the sweep keeps the APs whose [wifi0] score is truthy.  An
    AP whose [wifi0] score is 0 is no candidate and the sweep leaves its
    record, centre included, as it was; a score of 0 is reached by a radio
    that has a neighbor (one in state Enable, 1 dB above the noise floor).  A
    [wifi0] radio without neighbors scores the least integer and passes the
    test.  Passing the test is not being placed.  For an AP that has both
    radios, under a method that is neither [random] nor [manual]: handled
    first in the sweep the AP is put on the canvas centre; a later one that
    finds fewer placed references than line 1028 requires (as many as are
    placed, three at most) is delayed and nothing is assigned, so an AP
    that the step places has found that many. *)
Theorem zero_score_skipped_least_score_kept (w : World) (ip : string) (a : AP.t)
    (rd0 : Radio.t) :
  NoDup (Dict.keys (APS w)) ->
  Dict.get ip (APS w) = Some a ->
  Dict.get IFNAME_WIFI0 (AP.radios a) = Some rd0 ->
  Radio.nbr_score rd0 = Some 0 ->
  (forall l, candidates w = inr l -> ~ In ip l)
  /\ Dict.get ip (APS (fst (calc_ap_coord randint w))) = Some a
  /\ (Radio.nbrs faint_radio <> [] /\ calc_nbr_score faint_world faint_radio = 0)
  /\ (forall (w1 : World) (a1 : AP.t) (rd : Radio.t),
        Dict.get IFNAME_WIFI0 (AP.radios a1) = Some rd ->
        Radio.nbrs rd = [] ->
        Radio.nbr_score rd = Some (calc_nbr_score w1 rd) ->
        Radio.nbr_score rd = Some (- 2 ^ 63) /\ has_nbr_score a1 = inr true)
  /\ (forall (w1 : World) (s : Locals) (ap : string) (i : nat) (a1 : AP.t) (rd rd1 : Radio.t),
        aps s = [] ->
        Dict.get ap (APS w1) = Some a1 ->
        Dict.get IFNAME_WIFI0 (AP.radios a1) = Some rd ->
        Dict.get IFNAME_WIFI1 (AP.radios a1) = Some rd1 ->
        (1 <? List.length (AP.radios a1))%nat = true ->
        String.eqb (APS_COORD_METHOD (G w1)) "random" = false ->
        String.eqb (APS_COORD_METHOD (G w1)) "manual" = false ->
        exists w',
          place_ap randint ap i s w1
            = (w', inr (mkLocals (aps_nscore s) [ap] (aps_delayed s)))
          /\ centre w' (ap, IFNAME_WIFI0)
             = Some (IZR (CANVAS_WIDTH (G w1) / 2), IZR (CANVAS_HEIGHT (G w1) / 2)))
  /\ (forall (w1 : World) (s : Locals) (ap : string) (i : nat) (a1 : AP.t) (rd rd1 : Radio.t)
             (pools : Pools),
        let required_ref_nbrs :=
          if (List.length (aps s) <? 3)%nat then List.length (aps s) else 3%nat in
        ~ In ap (aps s) ->
        Dict.get ap (APS w1) = Some a1 ->
        Dict.get IFNAME_WIFI0 (AP.radios a1) = Some rd ->
        Dict.get IFNAME_WIFI1 (AP.radios a1) = Some rd1 ->
        (1 <? List.length (AP.radios a1))%nat = true ->
        String.eqb (APS_COORD_METHOD (G w1)) "random" = false ->
        String.eqb (APS_COORD_METHOD (G w1)) "manual" = false ->
        collect_pools w1 (ap, IFNAME_WIFI0) rd (aps s) = inr pools ->
        ((List.length (uaps pools) < required_ref_nbrs)%nat ->
         place_ap randint ap i s w1 = (w1, inr (delay ap s)))
        /\ (forall w' s', place_ap randint ap i s w1 = (w', inr s') ->
              In ap (aps s') ->
              (required_ref_nbrs <= List.length (uaps pools))%nat)).
Proof.
  intros Hnd Ha H0 Hscore.
  assert (Hcand' : forall w0, APS w0 = APS w ->
                               forall l, candidates w0 = inr l -> ~ In ip l).
  { intros w0 HA l Hl Hin.
    destruct (candidates_in w0 l ip Hl Hin) as (a' & Hin' & Hkeep).
    rewrite HA in Hin'.
    rewrite (in_get _ _ _ Hnd Hin') in Ha. injection Ha as ->.
    rewrite (has_nbr_score_truthy a rd0 H0), Hscore in Hkeep. discriminate. }
  split; [exact (Hcand' w eq_refl) |]. split; [| split; [| split; [| split]]].
  - assert (HA : APS (update_avr_nfloor w) = APS w).
    { unfold update_avr_nfloor. destruct (_ >? 0); reflexivity. }
    unfold calc_ap_coord, bind, modify, gets, lift.
    destruct (candidates (update_avr_nfloor w)) as [e | l] eqn:El; cbn [fst].
    + rewrite HA. exact Ha.
    + apply (walk_untouched randint ip a).
      * cbn [aps_nscore]. apply (Hcand' _ HA l El).
      * unfold untouched. rewrite HA. exact Ha.
  - split; [discriminate | vm_compute; reflexivity].
  - intros w1 a1 rd Hrd Hn Hs.
    assert (Hv : calc_nbr_score w1 rd = - 2 ^ 63)
      by (unfold calc_nbr_score; rewrite Hn; reflexivity).
    rewrite Hv in Hs. split; [exact Hs |].
    rewrite (has_nbr_score_truthy a1 rd Hrd), Hs. reflexivity.
  - intros w1 s ap i a1 rd rd1 Haps Ha1 Hrd Hrd1 Hlen Hm1 Hm2.
    assert (G0 : get_radio w1 (ap, IFNAME_WIFI0) = Some rd)
      by (unfold get_radio; cbn [fst snd]; rewrite Ha1; exact Hrd).
    assert (G1 : get_radio w1 (ap, IFNAME_WIFI1) = Some rd1)
      by (unfold get_radio; cbn [fst snd]; rewrite Ha1; exact Hrd1).
    destruct (place_runs w1 ap (IZR (CANVAS_WIDTH (G w1) / 2), IZR (CANVAS_HEIGHT (G w1) / 2))
                s rd rd1 G0 G1) as (w' & Hplace & C0 & _).
    exists w'. split; [| exact C0].
    rewrite (place_ap_first w1 s ap i a1 rd rd1) by assumption.
    rewrite Hplace, Haps. reflexivity.
  - intros w1 s ap i a1 rd rd1 pools required_ref_nbrs Hnew Ha1 Hrd Hrd1 Hlen Hm1 Hm2 Hpools.
    assert (Hmem : mem_str ap (aps s) = false).
    { destruct (mem_str ap (aps s)) eqn:E; [| reflexivity].
      apply mem_str_In in E. contradiction. }
    assert (Hshort : (List.length (uaps pools) < required_ref_nbrs)%nat ->
                     place_ap randint ap i s w1 = (w1, inr (delay ap s))).
    { intros Hlt. apply (place_ap_short w1 s ap i a1 rd rd1 pools); try assumption.
      apply Nat.ltb_lt. exact Hlt. }
    split; [exact Hshort |].
    intros w' s' Hrun Hin.
    destruct (Nat.le_gt_cases required_ref_nbrs (List.length (uaps pools))) as [Hle | Hlt];
      [exact Hle |].
    rewrite (Hshort Hlt) in Hrun. injection Hrun as _ <-.
    rewrite delay_aps in Hin. contradiction.
Qed.

End ZeroScore.

Section LonelyAps.
Local Open Scope string_scope.

(** C9, as stated, does not hold: [Q] has no neighbor, scores the least
    integer and passes the filter, and yet the sweep does not place it.  [P]
    takes the canvas centre; for [Q] one reference is then required, none
    is found, and [Q] is delayed twice; its centre stays (0, 0). *)
Lemma no_nbr_ap_left_unplaced :
  Radio.nbrs (lonely "Q") = []
  /\ Radio.nbr_score (lonely "Q") = Some (calc_nbr_score lonely_world (lonely "Q"))
  /\ candidates lonely_world = inr ["P"; "Q"]
  /\ let '(w', res) := calc_ap_coord no_randint lonely_world in
     res = inr (Some (mkLocals ["P"; "Q"; "Q"] ["P"] ["Q"]))
     /\ centre w' ("P", IFNAME_WIFI0) = Some (400, 300)%R
     /\ centre w' ("Q", IFNAME_WIFI0) = Some (0, 0)%R.
Proof. vm_compute. repeat split; reflexivity. Qed.

(** C9 on the scenario "score zero": the AP [me], whose [wifi0] scores 0,
    is no candidate and is stored after the sweep as before. *)
Lemma zero_score_skipped_least_score_kept_witness :
  NoDup (Dict.keys (APS faint_world))
  /\ Dict.get "me" (APS faint_world) = Some (two_radios "me" faint_radio)
  /\ Radio.nbr_score faint_radio = Some 0
  /\ (forall l, candidates faint_world = inr l -> ~ In "me" l)
  /\ Dict.get "me" (APS (fst (calc_ap_coord no_randint faint_world)))
     = Some (two_radios "me" faint_radio).
Proof.
  assert (Hnd : NoDup (Dict.keys (APS faint_world))).
  { cbn. constructor; [intros [H | []]; discriminate |].
    constructor; [intros [] | constructor]. }
  split; [exact Hnd |]. split; [reflexivity |]. split; [reflexivity |].
  destruct (zero_score_skipped_least_score_kept no_randint faint_world "me"
              (two_radios "me" faint_radio) faint_radio Hnd eq_refl eq_refl eq_refl)
    as (H1 & H2 & _).
  split; [exact H1 | exact H2].
Defined.

End LonelyAps.

(** ** The poller: what a failed iteration leaves behind *)

Section Poller.

Lemma bind_inl {A B} (m : M A) (k : A -> M B) (w w' : World) (e : exn) :
  m w = (w', inl e) -> bind m k w = (w', inl e).
Proof. intros H. unfold bind. rewrite H. reflexivity. Qed.

Lemma bind_inr {A B} (m : M A) (k : A -> M B) (w w' : World) (a : A) :
  m w = (w', inr a) -> bind m k w = k a w'.
Proof. intros H. unfold bind. rewrite H. reflexivity. Qed.

Lemma assign_known (K N : list string) (i : rid) (f : Radio.t -> Radio.t) :
  stable (known K N) (assign i f).
Proof.
  apply stable_assign. intros w rd [HK HN] _. split.
  - rewrite put_keys. exact HK.
  - rewrite put_NODES. exact HN.
Qed.

Lemma on_ap_known {A} (K N : list string) (ip : string) (f : AP.t -> AP.t * (exn + A)) :
  stable (known K N) (on_ap ip f).
Proof.
  apply stable_on_ap. intros w a [HK HN] Ha. split.
  - cbn [APS set_APS]. rewrite (keys_set _ _ a) by exact Ha. exact HK.
  - exact HN.
Qed.

Ltac known_step :=
  first [ apply assign_known
        | apply on_ap_known
        | lazymatch goal with
          | |- stable _ (for_each _ _) => apply stable_for_each; intros ? _; cbv beta
          end
        | stable_step
        | progress cbv zeta ].

Lemma update_one_nbr_known (K N : list string) (self : rid) (nbrtab : pylines)
    (ref : rid) (radio : Radio.t) :
  stable (known K N) (update_one_nbr self nbrtab ref radio).
Proof. unfold update_one_nbr. repeat known_step. Qed.

Lemma keyed_known (K N : list string) (l : list ACSPNbr.t) :
  stable (known K N) (keyed l).
Proof.
  induction l as [| n l IH]; cbn [keyed]; [apply stable_ret |].
  apply stable_bind; [unfold sort_nbr_bydist; repeat known_step | intros k].
  apply stable_bind; [exact IH | intros rest; apply stable_ret].
Qed.

Lemma update_acsp_nbrs_known (K N : list string) (self : rid) :
  stable (known K N) (update_acsp_nbrs self).
Proof.
  unfold update_acsp_nbrs.
  repeat first [apply update_one_nbr_known | apply keyed_known | known_step].
Qed.

Lemma update_acsp_stats_known (K N : list string) (self : rid) (now : string) :
  stable (known K N) (update_acsp_stats self now).
Proof.
  unfold update_acsp_stats.
  repeat first [apply update_acsp_nbrs_known | known_step].
Qed.

Lemma show_known (K N : list string) (self : rid) (c : R * R) :
  stable (known K N) (show self c).
Proof. unfold show. repeat known_step. Qed.

Lemma redraw_known (K N : list string) (self : rid) :
  stable (known K N) (redraw self).
Proof. unfold redraw. repeat first [apply show_known | known_step]. Qed.

Lemma parse_interface_known (K N : list string) (self : rid) (out : pyout) :
  stable (known K N) (parse_interface self out).
Proof. unfold parse_interface. repeat known_step. Qed.

Lemma update_radio_stats_known (K N : list string) (self : rid) (now : string) :
  stable (known K N) (update_radio_stats self now).
Proof.
  unfold update_radio_stats.
  repeat first [apply parse_interface_known | apply update_acsp_stats_known
               | apply redraw_known | known_step].
Qed.

Lemma update_ap_stats_known (K N : list string) (self : string) (now : string) :
  stable (known K N) (update_ap_stats self now).
Proof.
  unfold update_ap_stats, update_radio_guarded, radio_failed.
  repeat first [apply update_radio_stats_known | known_step].
Qed.

(** Whatever the device answers, polling removes no AP from [APS] and no
    node from [NODES]. *)
Lemma poll_known (K N : list string) (n : nat) (self : string) (now : nat -> string) :
  stable (known K N) (poll n self now).
Proof.
  revert now. induction n as [| n IH]; intros now; cbn [poll].
  - apply stable_ret.
  - apply stable_bind; [apply update_ap_stats_known | intros _; apply IH].
Qed.

End Poller.

Section Assign.

Lemma assign_run (w : World) (i : rid) (f : Radio.t -> Radio.t) (rd : Radio.t) :
  get_radio w i = Some rd -> assign i f w = (put_radio i (f rd) w, inr tt).
Proof. intros H. unfold assign. rewrite H. reflexivity. Qed.

Lemma get_put_same (w : World) (i : rid) (rd rd' : Radio.t) :
  get_radio w i = Some rd -> get_radio (put_radio i rd' w) i = Some rd'.
Proof.
  intros H. rewrite (get_put _ _ _ rd rd' H).
  replace (rid_eqb i i) with true by (symmetry; apply rid_eqb_eq; reflexivity).
  reflexivity.
Qed.

End Assign.

(** ** The poller: no exception leaves [update_ap_stats] *)

Section PollerCompletes.

Lemma ssh_open_radios (a : AP.t) : AP.radios (fst (ssh_open a)) = AP.radios a.
Proof. unfold ssh_open. destruct (connects (AP.wire a)) as [| [] cs]; reflexivity. Qed.

Lemma ssh_cmd_radios (a : AP.t) (cmd : string) : AP.radios (fst (ssh_cmd a cmd)) = AP.radios a.
Proof.
  unfold ssh_cmd. destruct (AP.shell a).
  - destruct (answers (AP.wire a)) as [| [out |] rest]; reflexivity.
  - pose proof (ssh_open_radios a) as H.
    destruct (ssh_open a) as [a' []]; exact H.
Qed.

Lemma ssh_cmd_lines_radios (a : AP.t) (cmd : string) :
  AP.radios (fst (ssh_cmd_lines a cmd)) = AP.radios a.
Proof.
  unfold ssh_cmd_lines. pose proof (ssh_cmd_radios a cmd) as H.
  destruct (ssh_cmd a cmd) as [a' [e | [| out]]]; cbn [fst] in *; try exact H.
  destruct (Str.is_empty out); exact H.
Qed.

Lemma assign_has_radios (ip : string) (names : list string) (i : rid)
    (f : Radio.t -> Radio.t) :
  stable (has_radios ip names) (assign i f).
Proof.
  apply stable_assign. intros w rd H Hget name Hin.
  rewrite (get_put _ _ _ rd) by exact Hget.
  destruct (rid_eqb (ip, name) i); [discriminate | apply H; exact Hin].
Qed.

Lemma on_ap_has_radios {A} (ip : string) (names : list string) (ip' : string)
    (f : AP.t -> AP.t * (exn + A)) :
  (forall a, AP.radios (fst (f a)) = AP.radios a) ->
  stable (has_radios ip names) (on_ap ip' f).
Proof.
  intros Hf. apply stable_on_ap. intros w a H Ha name Hin.
  specialize (H name Hin). unfold get_radio in *. cbn [fst snd APS set_APS] in *.
  rewrite get_set. destruct (String.eqb ip ip') eqn:E; [| exact H].
  apply String.eqb_eq in E. subst ip'. rewrite Ha in H. rewrite Hf. exact H.
Qed.

Ltac has_step :=
  first [ apply assign_has_radios
        | apply on_ap_has_radios; intros ?; first [apply ssh_cmd_radios | apply ssh_cmd_lines_radios]
        | lazymatch goal with
          | |- stable _ (for_each _ _) => apply stable_for_each; intros ? _; cbv beta
          end
        | stable_step
        | progress cbv zeta ].

Lemma keyed_has_radios (ip : string) (names : list string) (l : list ACSPNbr.t) :
  stable (has_radios ip names) (keyed l).
Proof.
  induction l as [| n l IH]; cbn [keyed]; [apply stable_ret |].
  apply stable_bind; [unfold sort_nbr_bydist; repeat has_step | intros k].
  apply stable_bind; [exact IH | intros rest; apply stable_ret].
Qed.

Lemma update_radio_stats_has_radios (ip : string) (names : list string) (self : rid)
    (now : string) :
  stable (has_radios ip names) (update_radio_stats self now).
Proof.
  unfold update_radio_stats, parse_interface, update_acsp_stats, update_acsp_nbrs,
    update_one_nbr, redraw, show.
  repeat first [apply keyed_has_radios | has_step].
Qed.

Lemma radio_failed_completes (ip : string) (names : list string) (e : exn) (w : World) :
  has_radios ip names w ->
  exists w', radio_failed ip names e w = (w', inr tt) /\ has_radios ip names w'
             /\ APS_LOCK w' = APS_LOCK w.
Proof.
  intros H. unfold radio_failed. destruct (is_ssh_lost e).
  2:{ exists w. split; [reflexivity | split; [exact H | reflexivity]]. }
  erewrite bind_inr by reflexivity.
  set (f := fun r => draw (Radio.c r) (Radio.r r) (CANVAS_COLOR_TRANSP (G w)) false r).
  assert (Hl : forall l w0, incl l names -> has_radios ip names w0 ->
            exists w', for_each l (fun name => assign (ip, name) f) w0 = (w', inr tt)
                       /\ has_radios ip names w' /\ APS_LOCK w' = APS_LOCK w0).
  { induction l as [| name l IH]; intros w0 Hincl H0; cbn [for_each].
    - exists w0. split; [reflexivity | split; [exact H0 | reflexivity]].
    - assert (Hin : In name names) by (apply Hincl; left; reflexivity).
      destruct (get_radio w0 (ip, name)) as [rd |] eqn:E; [| exact (False_ind _ (H0 name Hin E))].
      erewrite bind_inr by (apply assign_run; exact E).
      destruct (IH (put_radio (ip, name) (f rd) w0)) as (w' & E' & H' & L').
      + intros x Hx. apply Hincl. right. exact Hx.
      + pose proof (assign_has_radios ip names (ip, name) f w0 H0) as H1.
        rewrite (assign_run _ _ _ _ E) in H1. exact H1.
      + exists w'. split; [exact E' | split; [exact H' |]].
        rewrite L'. apply put_LOCK. }
  apply Hl; [apply incl_refl | exact H].
Qed.

(** The [try] statement of one radio ends normally, unless the thread is
    blocked inside it. *)
Lemma update_radio_guarded_completes (ip : string) (names : list string)
    (name now : string) (w : World) :
  has_radios ip names w ->
  exists w' res, update_radio_guarded ip names name now w = (w', res)
                 /\ (res = inr tt \/ res = inl Blocked)
                 /\ has_radios ip names w'.
Proof.
  intros H. unfold update_radio_guarded, try_except.
  pose proof (update_radio_stats_has_radios ip names (ip, name) now w H) as H1.
  destruct (update_radio_stats (ip, name) now w) as [w1 [e | []]]; cbn [fst] in H1.
  - destruct (radio_failed_completes ip names e w1 H1) as (w' & E & H' & _).
    destruct e;
      try (exists w', (inr tt); split; [exact E | split; [left; reflexivity | exact H']]).
    exists w1, (inl Blocked). split; [reflexivity | split; [right; reflexivity | exact H1]].
  - exists w1, (inr tt). split; [reflexivity | split; [left; reflexivity | exact H1]].
Qed.

Lemma keys_get {V} (k : string) (d : list (string * V)) :
  In k (Dict.keys d) -> Dict.get k d <> None.
Proof.
  unfold Dict.keys. induction d as [| [k0 v0] d IH]; cbn [map fst Dict.get]; [intros [] |].
  intros [-> | H].
  - rewrite String.eqb_refl. discriminate.
  - destruct (String.eqb k k0); [discriminate | apply IH; exact H].
Qed.

Lemma ap_has_radios (ip : string) (ap : AP.t) (w : World) :
  Dict.get ip (APS w) = Some ap -> has_radios ip (Dict.keys (AP.radios ap)) w.
Proof.
  intros Ha name Hin. unfold get_radio. cbn [fst snd]. rewrite Ha.
  apply keys_get. exact Hin.
Qed.

(** Whatever the device answers and whichever statement of a radio's update
    raises, no exception leaves [update_ap_stats]: it completes, and the
    poller's loop goes on to its next turn, unless the thread is blocked
    on [APS_LOCK]. *)
Lemma update_ap_stats_completes (ip now : string) (ap : AP.t) (w : World) :
  Dict.get ip (APS w) = Some ap ->
  exists w' res, update_ap_stats ip now w = (w', res)
                 /\ (res = inr tt \/ res = inl Blocked).
Proof.
  intros Ha. unfold update_ap_stats.
  erewrite bind_inr by reflexivity. rewrite Ha.
  erewrite bind_inr by reflexivity.
  set (names := Dict.keys (AP.radios ap)).
  pose proof (ap_has_radios ip ap w Ha) as H. fold names in H.
  assert (Hl : forall l w0, has_radios ip names w0 ->
            exists w' res, for_each l (fun name => update_radio_guarded ip names name now) w0
                           = (w', res) /\ (res = inr tt \/ res = inl Blocked)).
  { induction l as [| name l IH]; intros w0 H0; cbn [for_each].
    - exists w0, (inr tt). split; [reflexivity | left; reflexivity].
    - destruct (update_radio_guarded_completes ip names name now w0 H0)
        as (w1 & res & E & [-> | ->] & H1).
      + erewrite bind_inr by exact E. apply IH. exact H1.
      + erewrite bind_inl by exact E. exists w1, (inl Blocked).
        split; [reflexivity | right; reflexivity]. }
  apply Hl. exact H.
Qed.

End PollerCompletes.

(** ** The neighbor windows never fill *)

Section FreshWindows.

Lemma window_push_empty_length (smooth_window x : Z) :
  (List.length (window_push smooth_window [] x) <= 1)%nat.
Proof.
  unfold window_push. cbn [app List.length].
  destruct (Z.of_nat 1 >? smooth_window); cbn [tl List.length]; lia.
Qed.

Lemma set_forall {V} (P : string * V -> Prop) (k : string) (v : V) (d : list (string * V)) :
  P (k, v) -> Forall P d -> Forall P (Dict.set k v d).
Proof.
  intros Hv Hd. induction Hd as [| [k0 v0] d H0 Hd IH]; cbn [Dict.set].
  - constructor; [exact Hv | constructor].
  - destruct (String.eqb k k0); constructor; assumption.
Qed.

Lemma assign_fresh (self i : rid) (f : Radio.t -> Radio.t) :
  (forall rd,
     Forall (fun kv => (List.length (ACSPNbr.rssi_window (snd kv)) <= 1)%nat) (Radio.nbrs rd) ->
     Forall (fun kv => (List.length (ACSPNbr.rssi_window (snd kv)) <= 1)%nat)
            (Radio.nbrs (f rd))) ->
  stable (fresh_windows self) (assign i f).
Proof.
  intros Hf. apply stable_assign. intros w rd H Hget rd' Hget'.
  rewrite (get_put _ _ _ rd) in Hget' by exact Hget.
  destruct (rid_eqb self i) eqn:E.
  - apply rid_eqb_eq in E. subst i. injection Hget' as <-.
    apply Hf. apply H. exact Hget.
  - apply H. exact Hget'.
Qed.

Lemma on_ap_fresh {A} (self : rid) (ip : string) (f : AP.t -> AP.t * (exn + A)) :
  (forall a, AP.radios (fst (f a)) = AP.radios a) ->
  stable (fresh_windows self) (on_ap ip f).
Proof.
  intros Hf. apply stable_on_ap. intros w a H Ha rd Hget. apply H.
  unfold get_radio in *. cbn [fst snd APS set_APS] in *.
  rewrite get_set in Hget. destruct (String.eqb (fst self) ip) eqn:E; [| exact Hget].
  apply String.eqb_eq in E. rewrite E, Ha. rewrite Hf in Hget. exact Hget.
Qed.

Ltac fresh_step :=
  first [ apply assign_fresh; intros ? ?; cbn [Radio.nbrs Radio.set_nbrs Radio.set_txpwr
                                                 Radio.set_nbrs_radios Radio.set_nbrs_bydist];
          first [ assumption
                | apply set_forall; [apply window_push_empty_length | assumption] ]
        | lazymatch goal with
          | |- stable _ (for_each _ _) => apply stable_for_each; intros ? _; cbv beta
          end
        | stable_step
        | progress cbv zeta ].

Lemma keyed_fresh (self : rid) (l : list ACSPNbr.t) : stable (fresh_windows self) (keyed l).
Proof.
  induction l as [| n l IH]; cbn [keyed]; [apply stable_ret |].
  apply stable_bind; [unfold sort_nbr_bydist; repeat fresh_step | intros k].
  apply stable_bind; [exact IH | intros rest; apply stable_ret].
Qed.

(** X3: whatever the world was and however often the radio has polled
    before, a neighbor table that [update_acsp_nbrs] (lines 397-438) has
    rebuilt holds at most one RSSI sample per neighbor. *)
Lemma update_acsp_nbrs_fresh_windows (self : rid) (w w' : World) :
  update_acsp_nbrs self w = (w', inr tt) -> fresh_windows self w'.
Proof.
  unfold update_acsp_nbrs. intros H.
  unfold bind at 1 in H.
  destruct (on_ap (fst self) _ w) as [w1 [e | nbrtab]]; [discriminate |].
  unfold bind at 1 in H.
  destruct (assign self (Radio.set_nbrs []) w1) as [w2 [e | []]] eqn:E; [discriminate |].
  assert (H2 : fresh_windows self w2).
  { unfold assign in E. destruct (get_radio w1 self) as [rd1 |] eqn:E1; [| discriminate].
    injection E as <-. intros rd Hget.
    rewrite (get_put_same _ _ _ _ E1) in Hget. injection Hget as <-. constructor. }
  match type of H with
  | ?tail w2 = _ =>
      assert (Ht : stable (fresh_windows self) tail)
        by (unfold update_one_nbr; repeat first [apply keyed_fresh | fresh_step]);
      specialize (Ht w2 H2); rewrite H in Ht; exact Ht
  end.
Qed.

End FreshWindows.

Section ParseError.

Lemma get_put_other (w : World) (i j : rid) (rd rd' : Radio.t) :
  get_radio w i = Some rd -> j <> i -> get_radio (put_radio i rd' w) j = get_radio w j.
Proof.
  intros H Hne. rewrite (get_put _ _ _ rd rd' H).
  destruct (rid_eqb j i) eqn:E; [| reflexivity].
  apply rid_eqb_eq in E. contradiction.
Qed.

(** A failure of the [try] of lines 657-664 on the text the device sent:
    the exception is one of the parser, and the radio is what it was but
    for the fields parsed before the one that failed; no other radio and
    no lock is touched. *)
Lemma parse_interface_failure (w : World) (self : rid) (rd : Radio.t) (text : string) :
  get_radio w self = Some rd ->
  interface_parse_fails text ->
  exists w' e rd',
    parse_interface self (OStr text) w = (w', inl e)
    /\ (e = AttributeError \/ e = ValueError)
    /\ get_radio w' self = Some rd'
    /\ (forall j, j <> self -> get_radio w' j = get_radio w j)
    /\ APS_LOCK w' = APS_LOCK w
    /\ match Str.search_lazy "Mode=" ";" text with
       | None => rd' = rd
       | Some mode =>
           match Str.search_lazy "Phymode=" ";" text with
           | None => rd' = Radio.set_mode (Some mode) rd
           | Some phymode =>
               rd' = Radio.set_band (Some (if Str.contains "a" phymode then 5 else 2))
                       (Radio.set_phymode (Some phymode) (Radio.set_mode (Some mode) rd))
           end
       end.
Proof.
  intros Hget Hfail. unfold parse_interface.
  erewrite bind_inr by reflexivity.
  destruct (Str.search_lazy "Mode=" ";" text) as [mode |] eqn:Em.
  2:{ erewrite bind_inl by reflexivity.
      exists w, AttributeError, rd. repeat split; auto. }
  erewrite bind_inr by reflexivity.
  erewrite bind_inr by (apply assign_run; exact Hget).
  pose proof (get_put_same w self rd (Radio.set_mode (Some mode) rd) Hget) as Hget1.
  assert (F1 : forall j, j <> self ->
            get_radio (put_radio self (Radio.set_mode (Some mode) rd) w) j = get_radio w j)
    by (intros j Hj; apply (get_put_other w self j rd _ Hget Hj)).
  pose proof (put_LOCK w self (Radio.set_mode (Some mode) rd)) as L1.
  set (w1 := put_radio self (Radio.set_mode (Some mode) rd) w) in *.
  destruct (Str.search_lazy "Phymode=" ";" text) as [phymode |] eqn:Ep.
  2:{ erewrite bind_inl by reflexivity.
      exists w1, AttributeError, (Radio.set_mode (Some mode) rd). repeat split; auto. }
  erewrite bind_inr by reflexivity.
  erewrite bind_inr by (apply assign_run; exact Hget1).
  pose proof (get_put_same w1 self _ (Radio.set_phymode (Some phymode)
                                        (Radio.set_mode (Some mode) rd)) Hget1) as Hget2.
  assert (F2 : forall j, j <> self ->
            get_radio (put_radio self (Radio.set_phymode (Some phymode)
                                         (Radio.set_mode (Some mode) rd)) w1) j
            = get_radio w j)
    by (intros j Hj; rewrite (get_put_other w1 self j _ _ Hget1 Hj); apply F1; exact Hj).
  pose proof (put_LOCK w1 self (Radio.set_phymode (Some phymode)
                                  (Radio.set_mode (Some mode) rd))) as L2.
  rewrite L1 in L2.
  set (w2 := put_radio self _ w1) in *.
  erewrite bind_inr by (apply assign_run; exact Hget2).
  set (rd3 := Radio.set_band (Some (if Str.contains "a" phymode then 5 else 2))
                (Radio.set_phymode (Some phymode) (Radio.set_mode (Some mode) rd))).
  pose proof (get_put_same w2 self _ rd3 Hget2) as Hget3.
  assert (F3 : forall j, j <> self -> get_radio (put_radio self rd3 w2) j = get_radio w j)
    by (intros j Hj; rewrite (get_put_other w2 self j _ _ Hget2 Hj); apply F2; exact Hj).
  pose proof (put_LOCK w2 self rd3) as L3. rewrite L2 in L3.
  set (w3 := put_radio self rd3 w2) in *.
  destruct (Str.search_lazy "Noise floor=" "dBm;" text) as [nf |] eqn:En.
  2:{ erewrite bind_inl by reflexivity.
      exists w3, AttributeError, rd3. repeat split; auto. }
  erewrite bind_inr by reflexivity.
  destruct (Str.int nf) as [n |] eqn:Ei.
  2:{ erewrite bind_inl by reflexivity.
      exists w3, ValueError, rd3. repeat split; auto. }
  exfalso. unfold interface_parse_fails in Hfail.
  rewrite Em, Ep, En, Ei in Hfail.
  destruct Hfail as [H | [H | H]]; discriminate.
Qed.

(** What the handlers of lines 726-733 do to an exception that is no lost
    session: nothing. *)
Lemma update_radio_guarded_caught (ip : string) (names : list string) (name now : string)
    (w w' : World) (e : exn) :
  update_radio_stats (ip, name) now w = (w', inl e) ->
  is_ssh_lost e = false -> e <> Blocked ->
  update_radio_guarded ip names name now w = (w', inr tt).
Proof.
  intros Hrun Hlost Hb. unfold update_radio_guarded, try_except. rewrite Hrun.
  unfold radio_failed. rewrite Hlost.
  destruct e; try reflexivity. contradiction.
Qed.

(** C4, amended: when the answer to [show interface] cannot be parsed (a
    pattern finds nothing, or the noise floor is no number), the update of
    that radio raises before anything of ACSP, the score or the circle is
    touched and before [APS_LOCK] is taken; the [try] statement of
    [update_ap_stats] takes the exception and goes on with the next radio
    of the AP; [APS] and [NODES] keep their keys, then and at every later
    turn.  Nothing is rolled back: [mode] holds what was parsed, and so do
    [phymode] and [band] when [Phymode=] is found; every other field of the
    radio, its noise-floor window included, and every other radio are as
    before.  The same handler leaves the world as it is at the raise for
    any exception of a radio's update that is no lost session, a parse
    error of [show acsp] included.  No exception leaves the turn of the
    poller: it completes, and the next turn polls the AP again, unless the
    thread blocks on [APS_LOCK] in the update of another radio of the AP;
    it does complete when the radio is the only one of the AP. *)
Theorem parse_error_keeps_parsed_fields (w : World) (ip name now : string) (ap : AP.t)
    (rd : Radio.t) (text : string) (rest : list (option string)) (names : list string) :
  Dict.get ip (APS w) = Some ap ->
  Dict.get name (AP.radios ap) = Some rd ->
  AP.shell ap = true ->
  answers (AP.wire ap) = Some text :: rest ->
  interface_parse_fails text ->
  (exists w' e rd',
     update_radio_stats (ip, name) now w = (w', inl e)
     /\ (e = AttributeError \/ e = ValueError)
     /\ update_radio_guarded ip names name now w = (w', inr tt)
     /\ known (Dict.keys (APS w)) (NODES w) w'
     /\ APS_LOCK w' = APS_LOCK w
     /\ (forall j, j <> (ip, name) -> get_radio w' j = get_radio w j)
     /\ get_radio w' (ip, name) = Some rd'
     /\ match Str.search_lazy "Mode=" ";" text with
        | None => rd' = rd
        | Some mode =>
            match Str.search_lazy "Phymode=" ";" text with
            | None => rd' = Radio.set_mode (Some mode) rd
            | Some phymode =>
                rd' = Radio.set_band (Some (if Str.contains "a" phymode then 5 else 2))
                        (Radio.set_phymode (Some phymode) (Radio.set_mode (Some mode) rd))
            end
        end
     /\ Radio.set_band (Radio.band rd)
          (Radio.set_phymode (Radio.phymode rd) (Radio.set_mode (Radio.mode rd) rd')) = rd
     /\ (AP.radios ap = [(name, rd)] ->
         update_ap_stats ip now w = (w', inr tt)
         /\ forall n clock, clock O = now ->
              poll (S n) ip clock w = poll n ip (fun k => clock (S k)) w'))
  /\ (forall name0 now0 w0 w0' e0,
        update_radio_stats (ip, name0) now0 w0 = (w0', inl e0) ->
        is_ssh_lost e0 = false -> e0 <> Blocked ->
        update_radio_guarded ip names name0 now0 w0 = (w0', inr tt))
  /\ (forall now0 w0 ap0,
        Dict.get ip (APS w0) = Some ap0 ->
        exists w'' res, update_ap_stats ip now0 w0 = (w'', res)
                        /\ (res = inr tt \/ res = inl Blocked))
  /\ (forall n clock, known (Dict.keys (APS w)) (NODES w) (fst (poll n ip clock w))).
Proof.
  intros Ha Hrd Hshell Hans Hfail.
  split; [| split; [intros name0 now0 w0 w0' e0; apply update_radio_guarded_caught
                   | split; [intros now0 w0 ap0; apply update_ap_stats_completes
                            | intros n clock; apply poll_known; split; reflexivity]]].
  assert (Hget : get_radio w (ip, name) = Some rd)
    by (unfold get_radio; cbn [fst snd]; rewrite Ha; exact Hrd).
  set (ap1 := AP.set_active true
                (AP.set_wire (mkWire (connects (AP.wire ap)) rest) ap)).
  set (w1 := set_APS (Dict.set ip ap1 (APS w)) w).
  assert (Hcmd : on_ap ip (fun ssh => ssh_cmd ssh ("show interface " ++ Radio.name rd ++ nl)%string) w
                 = (w1, inr (OStr text))).
  { unfold on_ap. rewrite Ha. unfold ssh_cmd. rewrite Hshell, Hans. reflexivity. }
  assert (Hsame : forall j, get_radio w1 j = get_radio w j).
  { intros j. unfold get_radio, w1. cbn [APS set_APS]. rewrite get_set.
    destruct (String.eqb (fst j) ip) eqn:E; [| reflexivity].
    apply String.eqb_eq in E. rewrite E, Ha. reflexivity. }
  assert (Hget1 : get_radio w1 (ip, name) = Some rd) by (rewrite Hsame; exact Hget).
  destruct (parse_interface_failure w1 (ip, name) rd text Hget1 Hfail)
    as (w' & e & rd' & Hparse & He & Hget' & Hframe & Hlock & Hval).
  assert (Hrun : update_radio_stats (ip, name) now w = (w', inl e)).
  { unfold update_radio_stats.
    erewrite bind_inr by (unfold the_radio; rewrite Hget; reflexivity).
    cbn [fst]. erewrite bind_inr by exact Hcmd.
    apply bind_inl. unfold try_except. rewrite Hparse.
    destruct He as [-> | ->]; reflexivity. }
  assert (Hguard : forall names0, update_radio_guarded ip names0 name now w = (w', inr tt)).
  { intros names0. apply (update_radio_guarded_caught ip names0 name now w w' e Hrun);
      destruct He as [-> | ->]; first [reflexivity | discriminate]. }
  exists w', e, rd'. split; [exact Hrun |]. split; [exact He |]. split; [apply Hguard |].
  split; [| split; [| split; [| split; [| split; [| split]]]]].
  - pose proof (update_radio_stats_known (Dict.keys (APS w)) (NODES w) (ip, name) now w
                  (conj eq_refl eq_refl)) as H.
    rewrite Hrun in H. exact H.
  - exact Hlock.
  - intros j Hj. rewrite (Hframe j Hj). apply Hsame.
  - exact Hget'.
  - exact Hval.
  - destruct (Str.search_lazy "Mode=" ";" text) as [mode |];
      [destruct (Str.search_lazy "Phymode=" ";" text) as [phymode |] |];
      subst rd'; destruct rd; reflexivity.
  - intros Hone.
    assert (Hturn : update_ap_stats ip now w = (w', inr tt)).
    { unfold update_ap_stats.
      erewrite bind_inr by reflexivity. rewrite Ha.
      erewrite bind_inr by reflexivity.
      rewrite Hone. cbn [Dict.keys map fst for_each].
      erewrite bind_inr by apply Hguard. reflexivity. }
    split; [exact Hturn |].
    intros n clock Hclock. cbn [poll]. rewrite Hclock.
    erewrite bind_inr by exact Hturn. reflexivity.
Qed.

End ParseError.

Section Garbled.
Local Open Scope string_scope.

(** C4, as stated, does not hold: the answer has [Mode=access;] and no
    [Phymode=] field; the update of the radio raises, the turn of the
    poller completes, and the radio's [mode], [None] before, is [access]
    after: the state of the radio is not the state before the turn. *)
Lemma parse_error_changes_mode :
  let self := ("10.0.0.1", IFNAME_WIFI0) in
  snd (update_radio_stats self "t1" garbled_world) = inl AttributeError
  /\ let '(w', res) := update_ap_stats "10.0.0.1" "t1" garbled_world in
     res = inr tt
     /\ option_map Radio.mode (get_radio garbled_world self) = Some None
     /\ option_map Radio.mode (get_radio w' self) = Some (Some "access")
     /\ get_radio w' self <> get_radio garbled_world self.
Proof.
  vm_compute. repeat split; try reflexivity. intros H. discriminate H.
Qed.

(** C4 on the scenario "parse error": the radio comes out of the turn with
    the mode [access] and nothing else changed, and the turn completes. *)
Lemma parse_error_keeps_parsed_fields_witness :
  let text := "show interface wifi0 Mode=access; Noise floor=-95dBm; AP#" in
  let rd := Radio.init IFNAME_WIFI0 "0019:7700:1100" "U" "10.0.0.1" in
  interface_parse_fails text
  /\ exists w',
       update_radio_stats ("10.0.0.1", IFNAME_WIFI0) "t1" garbled_world
       = (w', inl AttributeError)
       /\ get_radio w' ("10.0.0.1", IFNAME_WIFI0) = Some (Radio.set_mode (Some "access") rd)
       /\ update_ap_stats "10.0.0.1" "t1" garbled_world = (w', inr tt)
       /\ known ["10.0.0.1"] ["10.0.0.1"] w'.
Proof.
  intros text rd.
  assert (Hfail : interface_parse_fails text) by (right; left; vm_compute; reflexivity).
  split; [exact Hfail |].
  destruct (parse_error_keeps_parsed_fields garbled_world "10.0.0.1" IFNAME_WIFI0 "t1"
              _ rd text [] [IFNAME_WIFI0] eq_refl eq_refl eq_refl eq_refl Hfail)
    as [(w' & e & rd' & Hrun & He & _ & Hknown & _ & _ & Hget & Hval & _ & Hone) _].
  assert (Em : Str.search_lazy "Mode=" ";" text = Some "access") by (vm_compute; reflexivity).
  assert (Ep : Str.search_lazy "Phymode=" ";" text = None) by (vm_compute; reflexivity).
  rewrite Em, Ep in Hval. subst rd'.
  assert (Ee : e = AttributeError).
  { assert (Hs : snd (update_radio_stats ("10.0.0.1", IFNAME_WIFI0) "t1" garbled_world)
                 = inl AttributeError) by (vm_compute; reflexivity).
    rewrite Hrun in Hs. cbn [snd] in Hs. injection Hs as ->. reflexivity. }
  subst e.
  exists w'. split; [exact Hrun |]. split; [exact Hget |].
  split; [exact (proj1 (Hone eq_refl)) | exact Hknown].
Defined.

End Garbled.

(** ** fillwhite *)

Section FillWhite.
Local Open Scope string_scope.

Lemma blanks_filled_refl (c : ascii) (u : string) : blanks_filled c u u = true.
Proof.
  induction u as [| a u IH]; cbn [blanks_filled]; [reflexivity |].
  rewrite Ascii.eqb_refl, IH. reflexivity.
Qed.

Lemma blanks_filled_app (c : ascii) (u1 v1 u2 v2 : string) :
  blanks_filled c u1 v1 = true -> blanks_filled c u2 v2 = true ->
  blanks_filled c (u1 ++ u2) (v1 ++ v2) = true.
Proof.
  revert v1. induction u1 as [| a u1 IH]; intros [| b v1] H1 H2; cbn in H1 |- *;
    try discriminate; [exact H2 |].
  apply andb_true_iff in H1. destruct H1 as [Hh Ht].
  cbn [blanks_filled]. rewrite Hh, (IH v1 Ht H2). reflexivity.
Qed.

Lemma blanks_filled_replace (c : ascii) (u : string) :
  blanks_filled c u (Str.replace Str.tab c (Str.replace " " c u)) = true.
Proof.
  induction u as [| a u IH]; cbn [Str.replace blanks_filled]; [reflexivity |].
  rewrite IH, andb_true_r. unfold Str.is_blank.
  destruct (Ascii.eqb a " ") eqn:E1.
  - cbn [orb andb]. destruct (Ascii.eqb c Str.tab); rewrite Ascii.eqb_refl; apply orb_true_r.
  - destruct (Ascii.eqb a Str.tab) eqn:E2.
    + cbn [orb andb]. rewrite Ascii.eqb_refl. apply orb_true_r.
    + rewrite Ascii.eqb_refl. reflexivity.
Qed.

Lemma take_app_drop (a n : nat) (t : string) :
  Str.take a t ++ Str.take n (Str.drop a t) = Str.take (a + n) t.
Proof.
  revert t. induction a as [| a IH]; intros t.
  - destruct t; reflexivity.
  - destruct t as [| ch t]; cbn [Str.take Str.drop Nat.add append].
    + destruct n; reflexivity.
    + rewrite IH. reflexivity.
Qed.

Lemma take_slice (a b : nat) (t : string) :
  (a <= b)%nat -> Str.take a t ++ Str.slice a b t = Str.take b t.
Proof.
  intros H. unfold Str.slice. rewrite take_app_drop. f_equal. lia.
Qed.

Lemma append_empty (u : string) : u ++ "" = u.
Proof. induction u as [| a u IH]; cbn [append]; [reflexivity | rewrite IH; reflexivity]. Qed.

Lemma take_all (n : nat) (t : string) : (String.length t <= n)%nat -> Str.take n t = t.
Proof.
  revert n. induction t as [| ch t IH]; intros n H.
  - destruct n; reflexivity.
  - destruct n as [| n]; cbn [String.length] in H; [lia |].
    cbn [Str.take]. rewrite IH by lia. reflexivity.
Qed.

(** What the loop has written is the part of [text] it has read, blanks
    filled. *)
Lemma fillwhite_loop_filled (fuel : nat) (text start end_ : string) (c : ascii)
    (newt : string) (a : nat) (s e : option nat) :
  blanks_filled c (Str.take a text) newt = true ->
  (forall s_, s = Some s_ -> (a <= s_)%nat) ->
  blanks_filled c
    (Str.take (snd (fillwhite_loop fuel text start end_ c newt a s e)) text)
    (fst (fillwhite_loop fuel text start end_ c newt a s e)) = true.
Proof.
  revert newt a s e. induction fuel as [| fuel IH]; intros newt a s e Hinv Hs.
  - cbn [fillwhite_loop fst snd]. exact Hinv.
  - cbn [fillwhite_loop]. destruct s as [s_ |]; [| exact Hinv].
    destruct e as [e_ |]; [| exact Hinv].
    destruct (s_ <? e_)%nat eqn:E; [| exact Hinv].
    apply Nat.ltb_lt in E. specialize (Hs s_ eq_refl).
    apply IH.
    + rewrite <- (take_slice s_ (e_ + 1) text) by lia.
      rewrite <- (take_slice a s_ text) by exact Hs.
      apply blanks_filled_app; [apply blanks_filled_app |].
      * exact Hinv.
      * apply blanks_filled_refl.
      * apply blanks_filled_replace.
    + intros s' Hs'. unfold Str.find in Hs'. apply index_bounds in Hs'. lia.
Qed.

Lemma fillwhite_filled (text start end_ : string) (c : ascii) :
  blanks_filled c text (fillwhite text start end_ c) = true.
Proof.
  unfold fillwhite.
  pose proof (fillwhite_loop_filled (S (String.length text)) text start end_ c
                EmptyString 0 (Str.find start text 0) (Str.find end_ text 0)) as H.
  destruct (fillwhite_loop _ text start end_ c EmptyString 0 _ _) as [newt a].
  cbn [fst snd] in H.
  assert (Hinv : blanks_filled c (Str.take a text) newt = true).
  { apply H; [destruct text; reflexivity | intros; lia]. }
  destruct (Nat.le_gt_cases a (String.length text)) as [Hle | Hgt].
  - rewrite <- (take_all (String.length text) text) at 1 by lia.
    rewrite <- (take_slice a (String.length text) text) by exact Hle.
    apply blanks_filled_app; [exact Hinv | apply blanks_filled_refl].
  - rewrite take_all in Hinv by lia.
    replace (Str.slice a (String.length text) text) with EmptyString.
    + rewrite append_empty. exact Hinv.
    + unfold Str.slice. replace (String.length text - a)%nat with 0%nat by lia.
      destruct (Str.drop a text); reflexivity.
Qed.

Lemma blanks_filled_length (c : ascii) (u v : string) :
  blanks_filled c u v = true -> String.length v = String.length u.
Proof.
  revert v. induction u as [| a u IH]; intros [| b v] H; cbn in H; try discriminate;
    [reflexivity |].
  apply andb_true_iff in H. cbn [String.length]. f_equal. apply IH. apply H.
Qed.

(** X7: [fillwhite] (lines 94-116) only ever turns blanks into [c].  For
    every [text], [start], [end] and [c], the result has the length of
    [text] and differs from it only at positions where [text] has a
    space or a tab and the result has [c]: no character is lost, added
    or moved, and no other character is changed. *)
Theorem fillwhite_fills_blanks_only (text start end_ : string) (c : ascii) :
  blanks_filled c text (fillwhite text start end_ c) = true
  /\ String.length (fillwhite text start end_ c) = String.length text.
Proof.
  pose proof (fillwhite_filled text start end_ c) as H.
  split; [exact H | apply (blanks_filled_length c); exact H].
Qed.

End FillWhite.

(** ** ssh_cmd_lines on a well-formed answer *)

Section Lines.
Local Open Scope string_scope.

Lemma append_assoc (u v t : string) : (u ++ v) ++ t = u ++ (v ++ t).
Proof. induction u as [| a u IH]; cbn [append]; [reflexivity | rewrite IH; reflexivity]. Qed.

Lemma split_on_line (cur l rest : string) :
  one_line l = true ->
  Str.split_on_from Str.newline cur (l ++ String Str.newline rest)
  = (cur ++ l) :: Str.split_on_from Str.newline "" rest.
Proof.
  revert cur. induction l as [| c l IH]; intros cur H; cbn [append Str.split_on_from].
  - rewrite Ascii.eqb_refl, append_empty. reflexivity.
  - cbn [one_line] in H. apply andb_true_iff in H. destruct H as [Hc Hl].
    unfold Str.dot in Hc. apply negb_true_iff in Hc. rewrite Hc.
    rewrite IH by exact Hl. unfold Str.snoc. rewrite append_assoc. reflexivity.
Qed.

Lemma split_on_last_line (cur l : string) :
  one_line l = true -> Str.split_on_from Str.newline cur l = [cur ++ l].
Proof.
  revert cur. induction l as [| c l IH]; intros cur H; cbn [Str.split_on_from].
  - rewrite append_empty. reflexivity.
  - cbn [one_line] in H. apply andb_true_iff in H. destruct H as [Hc Hl].
    unfold Str.dot in Hc. apply negb_true_iff in Hc. rewrite Hc.
    rewrite IH by exact Hl. unfold Str.snoc. rewrite append_assoc. reflexivity.
Qed.

(** Splitting what [concat] joined gives the lines back. *)
Lemma split_on_concat (l : list string) :
  l <> [] -> forallb one_line l = true ->
  Str.split_on Str.newline (concat nl l) = l.
Proof.
  unfold Str.split_on. induction l as [| x l IH]; intros Hne H; [contradiction |].
  cbn [forallb] in H. apply andb_true_iff in H. destruct H as [Hx Hl].
  destruct l as [| y l].
  - cbn [concat]. apply split_on_last_line. exact Hx.
  - change (concat nl (x :: y :: l)) with (x ++ String Str.newline (concat nl (y :: l))).
    rewrite split_on_line by exact Hx. cbn [append]. f_equal.
    apply IH; [discriminate | exact Hl].
Qed.

Lemma strip_ends_rows {A} (first last : A) (rows : list A) :
  Str.strip_ends (first :: (rows ++ [last])%list) = rows.
Proof. unfold Str.strip_ends. cbn [tl]. apply removelast_last. Qed.

(** X6: on an open session whose answer is the echoed command, the rows
    and the prompt, each on a line of its own, [ssh_cmd_lines] (lines
    164-207) returns exactly the rows: [out.split("\n")[1:-1]] drops the
    echo and the prompt and nothing else.  The answer is consumed and the
    node is marked active. *)
Theorem ssh_cmd_lines_returns_rows (self : AP.t) (cmd echo prompt : string)
    (rows : list string) (rest : list (option string)) :
  AP.shell self = true ->
  answers (AP.wire self) = Some (concat nl (echo :: (rows ++ [prompt])%list)) :: rest ->
  forallb one_line (echo :: (rows ++ [prompt])%list) = true ->
  ssh_cmd_lines self cmd
  = (AP.set_active true (AP.set_wire (mkWire (connects (AP.wire self)) rest) self),
     inr (LLines rows)).
Proof.
  intros Hshell Hans Hlines. unfold ssh_cmd_lines, ssh_cmd. rewrite Hshell, Hans.
  assert (Hne : Str.is_empty (concat nl (echo :: (rows ++ [prompt])%list)) = false).
  { destruct (rows ++ [prompt])%list as [| y l] eqn:E; [destruct rows; discriminate |].
    change (concat nl (echo :: y :: l)) with (echo ++ String Str.newline (concat nl (y :: l))).
    destruct echo; reflexivity. }
  rewrite Hne. rewrite split_on_concat by (discriminate || exact Hlines).
  rewrite strip_ends_rows. reflexivity.
Qed.

Lemma ssh_cmd_lines_returns_rows_witness :
  ssh_cmd_lines version_node "show version"
  = (AP.set_active true
       (AP.set_wire (mkWire (connects (AP.wire version_node)) []) version_node),
     inr (LLines version_rows)).
Proof.
  apply (ssh_cmd_lines_returns_rows version_node "show version" "show version" "AP230#"
           version_rows []); reflexivity.
Defined.

End Lines.

(** ** The coverage radius as a function of its inputs *)

Section Radius.
Local Open Scope R_scope.




Lemma int_of_float_mono (x y : R) :
  0 <= x -> x <= y -> (Py.int_of_float x <= Py.int_of_float y)%Z.
Proof.
  intros Hx Hxy. unfold Py.int_of_float.
  destruct (Rle_dec 0 x); [| contradiction].
  destruct (Rle_dec 0 y); [| lra].
  unfold Int_part.
  destruct (archimed x) as [_ Hx2]. destruct (archimed y) as [Hy1 _].
  assert (IZR (up x) - 1 < IZR (up y)) by lra.
  assert (IZR (up x - 1) < IZR (up y)) by (rewrite minus_IZR; lra).
  apply lt_IZR in H0. lia.
Qed.








(** X11: the radius of [Radio.show] (lines 607-612) is monotone in the
    transmit power: with the channel, the noise floor, the margin and a
    positive [CANVAS_METER_PER_DOT] fixed, a radio that sends with more
    power is never drawn with a smaller circle. *)
Theorem coverage_radius_grows_with_txpwr (txpwr1 txpwr2 chnl avr_nfloor : Z)
    (margin meter_per_dot : R) (r1 r2 : Z) :
  (txpwr1 <= txpwr2)%Z -> 0 < meter_per_dot ->
  coverage_radius txpwr1 chnl avr_nfloor margin meter_per_dot = inr r1 ->
  coverage_radius txpwr2 chnl avr_nfloor margin meter_per_dot = inr r2 ->
  (r1 <= r2)%Z.
Proof.
  intros Ht Hm. unfold coverage_radius, Py.float, Py.pow10, Py.int.
  destruct (Py.finite (IZR (ieee2mhz chnl))); [| discriminate].
  destruct (Py.finite (IZR txpwr1)); [| discriminate].
  destruct (Py.finite (IZR txpwr2)); [| intros _; discriminate].
  destruct (Py.log10 (ieee2ghz chnl)) as [lg |]; [| discriminate].
  destruct (negb (Py.finite (IZR avr_nfloor + margin))); [discriminate |].
  destruct (Py.finite (Rpower 10 ((IZR txpwr1 - _ - _ - _) / 20))); [| discriminate].
  destruct (Py.finite (Rpower 10 ((IZR txpwr2 - _ - _ - _) / 20))); [| intros _; discriminate].
  rewrite !fdiv_Some by lra.
  destruct (Py.finite (Rpower 10 ((IZR txpwr1 - _ - _ - _) / 20) / _)); [| discriminate].
  destruct (Py.finite (Rpower 10 ((IZR txpwr2 - _ - _ - _) / 20) / _));
    [| intros _; discriminate].
  intros [= <-] [= <-].
  assert (Hinv : 0 < / meter_per_dot) by (apply Rinv_0_lt_compat; exact Hm).
  apply int_of_float_mono.
  - unfold Rpower. apply Rmult_le_pos; [left; apply exp_pos | lra].
  - unfold Rdiv at 1 3. apply Rmult_le_compat_r; [lra |].
    apply Rle_Rpower; [lra |].
    apply IZR_le in Ht. lra.
Qed.

Lemma coverage_radius_26_ch36 : coverage_radius 26 36 (-90) 50 0.1 = inr 91%Z.
Proof.
  rewrite coverage_radius_ch36 by (vm_compute; reflexivity).
  assert (INR 839 = 839 /\ INR 500 = 500) as [E1 E2]
    by (split; rewrite INR_IZR_INZ; reflexivity).
  replace ((26 - 32.44 - 20 * (ln 5.18 / ln 10) - (-90 + 50)) / 20)
    with (INR 839 / INR 500 - ln 5.18 / ln 10)
    by (rewrite E1, E2; lra).
  destruct (quotient_dots (INR 839 / INR 500 - ln 5.18 / ln 10) 0.1 91)
    as (-> & -> & ->); [lra | lia | vm_compute; reflexivity | | reflexivity].
  apply (root_quotient_floor 5.18 0.1 _ 839 500 91 47138 47656 1000);
    try lra; try lia; try (apply log10_pos_Some; lra).
  - vm_compute; reflexivity.
  - vm_compute; reflexivity.
Qed.



Lemma coverage_radius_grows_with_txpwr_witness :
  coverage_radius 20 36 (-90) 50 0.1 = inr 46%Z
  /\ coverage_radius 26 36 (-90) 50 0.1 = inr 91%Z
  /\ (46 <= 91)%Z.
Proof.
  split; [exact coverage_radius_20_ch36 |]. split; [exact coverage_radius_26_ch36 |].
  apply (coverage_radius_grows_with_txpwr 20 26 36 (-90) 50 0.1 46 91);
    [lia | lra | exact coverage_radius_20_ch36 | exact coverage_radius_26_ch36].
Defined.

End Radius.

(** ** chnl2color *)

Section Colour.

Lemma Int_part_spec (x : R) (n : Z) : (IZR n <= x < IZR n + 1)%R -> Int_part x = n.
Proof.
  intros [Hlo Hhi]. unfold Int_part.
  assert (up x = (n + 1)%Z) as ->; [| lia].
  symmetry. apply tech_up; rewrite plus_IZR; lra.
Qed.

Lemma Int_part_ratio (a b : Z) :
  0 <= a -> 0 < b -> Int_part (IZR a / IZR b) = a / b.
Proof.
  intros Ha Hb. apply Int_part_spec.
  assert (Hb' : (0 < IZR b)%R) by (apply IZR_lt; exact Hb).
  pose proof (Z.mul_div_le a b Hb) as H1.
  pose proof (Z.mul_succ_div_gt a b Hb) as H2.
  apply IZR_le in H1. apply IZR_lt in H2.
  rewrite mult_IZR in H1, H2. unfold Z.succ in H2. rewrite plus_IZR in H2.
  split.
  - apply Rmult_le_reg_r with (IZR b); [exact Hb' |].
    unfold Rdiv. rewrite Rmult_assoc, Rinv_l by lra. lra.
  - apply Rmult_lt_reg_r with (IZR b); [exact Hb' |].
    unfold Rdiv. rewrite Rmult_assoc, Rinv_l by lra. lra.
Qed.

(** [int] of the quotient of two ints, as floats: the quotient truncated
    toward zero. *)
Lemma int_of_float_ratio (a b : Z) :
  0 < b -> Py.int_of_float (IZR a / IZR b) = a ÷ b.
Proof.
  intros Hb. unfold Py.int_of_float.
  assert (Hb' : (0 < IZR b)%R) by (apply IZR_lt; exact Hb).
  assert (Hinv : (0 < / IZR b)%R) by (apply Rinv_0_lt_compat; exact Hb').
  destruct (Rle_dec 0 (IZR a / IZR b)) as [Hpos | Hneg].
  - assert (Ha : 0 <= a).
    { apply le_IZR. destruct (Rle_dec 0 (IZR a)) as [| Hn]; [assumption |].
      exfalso. assert (IZR a / IZR b < 0)%R; [| lra].
      unfold Rdiv. apply Rmult_neg_pos; lra. }
    rewrite Int_part_ratio by assumption. symmetry. apply Z.quot_div_nonneg; lia.
  - assert (Ha : a < 0).
    { apply lt_IZR. destruct (Rlt_dec (IZR a) 0) as [| Hn]; [assumption |].
      exfalso. apply Hneg. unfold Rdiv. apply Rmult_le_pos; lra. }
    replace (- (IZR a / IZR b))%R with (IZR (- a) / IZR b)%R
      by (rewrite opp_IZR; unfold Rdiv; ring).
    rewrite Int_part_ratio by lia.
    rewrite <- Z.quot_div_nonneg by lia. rewrite Z.quot_opp_l by lia. lia.
Qed.

(** [n] of both branches, in integers. *)
Lemma chnl2rgb_exact (chnl : Z) :
  chnl2rgb chnl
  = if chnl <? 15 then
      let '(r, g, b) := shade ((7168 - 511 * chnl) ÷ 14) in (r, g, b)
    else
      let '(b, g, r) :=
        shade ((66048 - 511 * ((if chnl =? 36 then chnl + 1 else chnl) - 36)) ÷ 129) in
      (r, g, b).
Proof.
  unfold chnl2rgb. destruct (chnl <? 15).
  - replace (512 - 511 / 14 * IZR chnl)%R with (IZR (7168 - 511 * chnl) / IZR 14)%R
      by (rewrite minus_IZR, mult_IZR; field).
    rewrite int_of_float_ratio by lia. reflexivity.
  - set (c := if chnl =? 36 then chnl + 1 else chnl).
    replace (512 - 511 / IZR (165 - 36) * IZR (c - 36))%R
      with (IZR (66048 - 511 * (c - 36)) / IZR 129)%R
      by (rewrite !minus_IZR, mult_IZR, minus_IZR; field).
    rewrite int_of_float_ratio by lia. reflexivity.
Qed.

(** X12: for every channel number from 0 to 197, the three components
    that [chnl2color] (lines 578-601) formats lie between 0 and 255, so
    the result is a colour of the form [#rrggbb], seven characters
    long.  Below channel 15 red is the strongest and blue the weakest
    component; from channel 15 on it is the other way round. *)
Theorem chnl2color_valid (chnl : Z) :
  0 <= chnl <= 197 ->
  let '(r, g, b) := chnl2rgb chnl in
  0 <= r <= 255 /\ 0 <= g <= 255 /\ 0 <= b <= 255
  /\ (if chnl <? 15 then b <= g <= r else r <= g <= b)
  /\ String.length (chnl2color chnl) = 7%nat.
Proof.
  intros Hc. unfold chnl2color. rewrite chnl2rgb_exact.
  assert (Hin : In chnl (map Z.of_nat (seq 0 198))).
  { apply in_map_iff. exists (Z.to_nat chnl). split; [lia |]. apply in_seq. lia. }
  pose (f := fun chnl : Z =>
          if chnl <? 15 then
            let '(r, g, b) := shade ((7168 - 511 * chnl) ÷ 14) in (r, g, b)
          else
            let '(b, g, r) :=
              shade ((66048 - 511 * ((if chnl =? 36 then chnl + 1 else chnl) - 36)) ÷ 129) in
            (r, g, b)).
  assert (Hall : forallb (fun chnl : Z =>
            let '(r, g, b) := f chnl in
            (0 <=? r) && (r <=? 255) && (0 <=? g) && (g <=? 255) && (0 <=? b) && (b <=? 255)
            && (if chnl <? 15 then (b <=? g) && (g <=? r) else (r <=? g) && (g <=? b))
            && (String.length (String "#" (format_02x r ++ format_02x g ++ format_02x b))
                =? 7)%nat)
          (map Z.of_nat (seq 0 198)) = true) by (vm_compute; reflexivity).
  rewrite forallb_forall in Hall. specialize (Hall chnl Hin). cbv beta in Hall.
  change (let '(r, g, b) := f chnl in
          0 <= r <= 255 /\ 0 <= g <= 255 /\ 0 <= b <= 255
          /\ (if chnl <? 15 then b <= g <= r else r <= g <= b)
          /\ String.length
               (let '(r0, g0, b0) := f chnl in
                String "#" (format_02x r0 ++ format_02x g0 ++ format_02x b0)) = 7%nat).
  revert Hall. destruct (f chnl) as [[r g] b]. intros Hall.
  repeat (apply andb_true_iff in Hall; destruct Hall as [Hall ?]).
  repeat match goal with
         | H : (_ <=? _) = true |- _ => apply Z.leb_le in H
         | H : (_ =? _)%nat = true |- _ => apply Nat.eqb_eq in H
         end.
  repeat split; try assumption.
  - destruct (chnl <? 15); apply andb_true_iff in H0; destruct H0 as [H1' H2'];
      apply Z.leb_le in H1', H2'; split; assumption.
Qed.

Lemma chnl2color_valid_witness :
  let '(r, g, b) := chnl2rgb 36 in
  0 <= r <= 255 /\ 0 <= g <= 255 /\ 0 <= b <= 255
  /\ (if 36 <? 15 then b <= g <= r else r <= g <= b)
  /\ String.length (chnl2color 36) = 7%nat.
Proof. apply (chnl2color_valid 36). lia. Defined.

End Colour.

(** ** circles_cpoints: the points it returns *)

Section CrossPoints.
Local Open Scope R_scope.

Variables x1 y1 r1 x2 y2 r2 : R.

(** The squared distance of the centres and the argument of the [sqrt] of
    lines 863 and 864. *)
Local Abbreviation D := (x1^2 - 2*x1*x2 + x2^2 + y1^2 - 2*y1*y2 + y2^2).
Local Abbreviation E :=
  ((x1 - x2)^2
   * (-x1^2 + 2*x1*x2 - x2^2 - y1^2 + 2*y1*y2 - y2^2 + r1^2 + 2*r1*r2 + r2^2)
   * (x1^2 - 2*x1*x2 + x2^2 + y1^2 - 2*y1*y2 + y2^2 - r1^2 + 2*r1*r2 - r2^2)).




Hypothesis Hx : x1 <> x2.
Hypothesis HD : D <> 0.
Hypothesis HE : 0 <= E.

Local Abbreviation px1 :=
  (Cpoints.p1x_num x1 y1 r1 x2 y2 r2 / Cpoints.p1x_den x1 y1 r1 x2 y2 r2).
Local Abbreviation py1 :=
  (Cpoints.p1y_num x1 y1 r1 x2 y2 r2 / Cpoints.p1y_den x1 y1 r1 x2 y2 r2).
Local Abbreviation px2 :=
  (Cpoints.p2x_num x1 y1 r1 x2 y2 r2 / Cpoints.p2x_den x1 y1 r1 x2 y2 r2).
Local Abbreviation py2 :=
  (Cpoints.p2y_num x1 y1 r1 x2 y2 r2 / Cpoints.p2y_den x1 y1 r1 x2 y2 r2).






End CrossPoints.

Section CrossPointsResult.
Local Open Scope R_scope.





(** X14: two circles that meet and whose centres lie one above the other
    (same [x], different [y]) make [circles_cpoints] raise
    [ZeroDivisionError]: the closed forms of lines 863-864 divide by
    [2 * (x1 - x2) * d**2]. *)
Theorem circles_cpoints_vertical_raises (x y1 y2 r1 r2 : R) :
  y1 <> y2 ->
  Rabs (r1 - r2) <= Rabs (y1 - y2) <= r1 + r2 ->
  circles_cpoints (x, y1) r1 (x, y2) r2 false = inl ZeroDivisionError.
Proof.
  intros Hy [Hlo Hhi]. unfold circles_cpoints.
  assert (Hd : distance (x, y1) (x, y2) = Rabs (y1 - y2)).
  { unfold distance. replace ((x - x) ^ 2 + (y1 - y2) ^ 2) with ((y1 - y2)²) by (unfold Rsqr; ring).
    apply sqrt_Rsqr_abs. }
  rewrite Hd.
  rewrite Reqb_false by (apply Rabs_no_R0; lra).
  rewrite andb_false_r.
  rewrite (Rleb_true _ _ Hlo), (Rleb_true _ _ Hhi). cbn [andb].
  replace (Reqb (Cpoints.p1x_den x y1 r1 x y2 r2) 0) with true; [reflexivity |].
  symmetry. apply Reqb_true. unfold Cpoints.p1x_den. ring.
Qed.


Lemma circles_cpoints_vertical_raises_witness :
  circles_cpoints (0, 0) 60 (0, 100) 60 false = inl ZeroDivisionError.
Proof.
  apply (circles_cpoints_vertical_raises 0 0 100 60 60); [lra |].
  split; unfold Rabs; repeat destruct (Rcase_abs _); lra.
Defined.

End CrossPointsResult.

(** ** get_ref_nbr: the reference it takes *)

Section RefNbrAccepted.

Lemma scan_refs_rejected (accepted : rid -> exn + bool) (x : rid) (l : list rid) (i : nat) :
  accepted x = inr false -> l <> [] ->
  scan_refs accepted (x :: l) i = scan_refs accepted l (S i).
Proof.
  intros Hx Hl. cbn [scan_refs]. rewrite Hx. cbn [ebind].
  destruct l; [contradiction | reflexivity].
Qed.

Lemma scan_refs_first (accepted : rid -> exn + bool) (pre : list rid) (r : rid)
    (post : list rid) (i : nat) :
  (forall x, In x pre -> accepted x = inr false) ->
  accepted r = inr true ->
  scan_refs accepted (pre ++ r :: post) i = inr (i + List.length pre)%nat.
Proof.
  revert i. induction pre as [| x pre IH]; intros i Hpre Hr; cbn [app List.length].
  - cbn [scan_refs]. rewrite Hr. cbn [ebind]. f_equal. lia.
  - rewrite scan_refs_rejected;
      [| apply Hpre; left; reflexivity | destruct pre; discriminate].
    rewrite IH; [f_equal; lia | | exact Hr].
    intros z Hz. apply Hpre. right. exact Hz.
Qed.

Lemma pop_app_l {A} (i : nat) (a b : list A) :
  (i < List.length a)%nat -> pop i (a ++ b) = pop i a ++ b.
Proof.
  revert i. induction a as [| x a IH]; intros i H; cbn [List.length] in H; [lia |].
  destruct i as [| i]; cbn [app pop]; [reflexivity |].
  rewrite IH by lia. reflexivity.
Qed.

Lemma pop_app_r {A} (i : nat) (a b : list A) :
  (List.length a <= i)%nat -> pop i (a ++ b) = a ++ pop (i - List.length a) b.
Proof.
  revert i. induction a as [| x a IH]; intros i H; cbn [List.length app] in *.
  - rewrite Nat.sub_0_r. reflexivity.
  - destruct i as [| i]; [lia |]. cbn [pop Nat.sub]. rewrite IH by lia. reflexivity.
Qed.

Lemma pop_middle {A} (pre : list A) (x : A) (post : list A) :
  pop (List.length pre) (pre ++ x :: post) = pre ++ post.
Proof.
  rewrite pop_app_r by lia. rewrite Nat.sub_diag. reflexivity.
Qed.

(** The pools after [get_ref_nbr] has found the index [i]. *)
Lemma get_ref_nbr_pops (w : World) (p : Pools) (rd : rid) (ref1_rd ref2_rd : option rid)
    (need_cross : bool) (i : nat) (ref_rd : rid) :
  scan_refs (ref_accepted w ref1_rd ref2_rd need_cross) (all_refs p) 0 = inr i ->
  nth_error (all_refs p) i = Some ref_rd ->
  all_refs (fst (get_ref_nbr w p rd ref1_rd ref2_rd need_cross)) = pop i (all_refs p)
  /\ forall x, snd (get_ref_nbr w p rd ref1_rd ref2_rd need_cross) = inr x ->
               fst (fst x) = ref_rd.
Proof.
  intros Hscan Hnth. unfold get_ref_nbr. rewrite Hscan, Hnth.
  assert (Hi : (i < List.length (all_refs p))%nat) by (apply nth_error_Some; congruence).
  destruct p as [l0 rl0 l1 rl1]. unfold all_refs in *.
  cbn [ref_nbrs0 rref_nbrs0 ref_nbrs1 rref_nbrs1] in *.
  rewrite !length_app in Hi.
  assert (Hres : forall (m : exn + (Z * R)) x,
            (fg <~ m ;; inr (ref_rd, fst fg, snd fg))%py = inr x -> fst (fst x) = ref_rd).
  { intros [e | fg] x; cbn [ebind]; [discriminate | intros [= <-]; reflexivity]. }
  destruct (i <? List.length l0)%nat eqn:E0.
  { apply Nat.ltb_lt in E0. cbn [fst snd ref_nbrs0 rref_nbrs0 ref_nbrs1 rref_nbrs1].
    split; [| apply Hres]. rewrite pop_app_l by exact E0. reflexivity. }
  apply Nat.ltb_ge in E0.
  destruct (i <? List.length l0 + List.length rl0)%nat eqn:E1.
  { apply Nat.ltb_lt in E1. cbn [fst snd ref_nbrs0 rref_nbrs0 ref_nbrs1 rref_nbrs1].
    split; [| apply Hres].
    rewrite (pop_app_r i l0) by exact E0. rewrite pop_app_l by lia. reflexivity. }
  apply Nat.ltb_ge in E1.
  destruct (i <? List.length l0 + List.length rl0 + List.length l1)%nat eqn:E2.
  { apply Nat.ltb_lt in E2. cbn [fst snd ref_nbrs0 rref_nbrs0 ref_nbrs1 rref_nbrs1].
    split; [| apply Hres].
    rewrite (pop_app_r i l0) by exact E0. rewrite (pop_app_r _ rl0) by lia.
    rewrite pop_app_l by lia. reflexivity. }
  apply Nat.ltb_ge in E2.
  cbn [fst snd ref_nbrs0 rref_nbrs0 ref_nbrs1 rref_nbrs1].
  split; [| apply Hres].
  rewrite (pop_app_r i l0) by exact E0. rewrite (pop_app_r _ rl0) by lia.
  rewrite (pop_app_r _ l1) by lia. reflexivity.
Qed.

(** X15: [get_ref_nbr] (lines 894-947) takes the first reference the
    loop of lines 905-918 accepts, in the order [ref_nbrs0],
    [rref_nbrs0], [ref_nbrs1], [rref_nbrs1]: when the references before
    it are all rejected, exactly this one is popped from its pool, the
    other entries stay in place and in order, and a result that is
    returned names it. *)
Theorem get_ref_nbr_takes_first_accepted (w : World) (p : Pools) (rd : rid)
    (ref1_rd ref2_rd : option rid) (need_cross : bool)
    (pre : list rid) (ref_rd : rid) (post : list rid) :
  all_refs p = pre ++ ref_rd :: post ->
  (forall r, In r pre -> ref_accepted w ref1_rd ref2_rd need_cross r = inr false) ->
  ref_accepted w ref1_rd ref2_rd need_cross ref_rd = inr true ->
  all_refs (fst (get_ref_nbr w p rd ref1_rd ref2_rd need_cross)) = pre ++ post
  /\ forall x, snd (get_ref_nbr w p rd ref1_rd ref2_rd need_cross) = inr x ->
               fst (fst x) = ref_rd.
Proof.
  intros Hall Hpre Hacc.
  rewrite <- (pop_middle pre ref_rd post), <- Hall.
  apply get_ref_nbr_pops.
  - rewrite Hall. apply (scan_refs_first _ pre ref_rd post 0%nat Hpre Hacc).
  - rewrite Hall. rewrite nth_error_app2 by lia. rewrite Nat.sub_diag. reflexivity.
Qed.

Lemma get_ref_nbr_takes_first_accepted_witness :
  let p := mkPools [("A", IFNAME_WIFI0)%string] [] [("A", IFNAME_WIFI1)%string] [] in
  let rd := ("B", IFNAME_WIFI0)%string in
  all_refs (fst (get_ref_nbr two_aps_A_placed p rd None None false))
  = [] ++ [("A", IFNAME_WIFI1)%string]
  /\ forall x, snd (get_ref_nbr two_aps_A_placed p rd None None false) = inr x ->
               fst (fst x) = ("A", IFNAME_WIFI0)%string.
Proof.
  intros p rd.
  apply (get_ref_nbr_takes_first_accepted two_aps_A_placed p rd None None false
           [] ("A", IFNAME_WIFI0)%string [("A", IFNAME_WIFI1)%string]).
  - reflexivity.
  - intros r [].
  - reflexivity.
Defined.

End RefNbrAccepted.

(** ** calc_ap_coord: the sweeps that place nothing *)

Section SingleRadio.
Variable randint : Z -> Z -> nat -> Z.

Lemma place_ap_single_radio (w : World) (s : Locals) (ap : string) (i : nat) (a : AP.t)
    (rd0 : Radio.t) :
  ~ In ap (aps s) ->
  Dict.get ap (APS w) = Some a ->
  AP.radios a = [(IFNAME_WIFI0, rd0)] ->
  place_ap randint ap i s w = (w, inl AttributeError).
Proof.
  intros Hnot Ha Hr. unfold place_ap.
  destruct (mem_str ap (aps s)) eqn:E; [apply mem_str_In in E; contradiction |].
  erewrite bind_inr by reflexivity. rewrite Ha.
  erewrite bind_inr by reflexivity. rewrite Hr.
  reflexivity.
Qed.

Lemma walk_meets_single_radio (ap : string) (a : AP.t) (rd0 : Radio.t) (j : nat)
    (fuel i : nat) (s : Locals) (w : World) :
  AP.radios a = [(IFNAME_WIFI0, rd0)] ->
  untouched ap a w ->
  ~ In ap (aps s) ->
  (i <= j)%nat ->
  nth_error (aps_nscore s) j = Some ap ->
  forall s', snd (walk randint fuel i s w) <> inr (Some s').
Proof.
  intros Hr. revert i s w. induction fuel as [| fuel IH]; intros i s w Hu Hnot Hij Hj s'.
  - cbn. discriminate.
  - cbn [walk]. destruct (nth_error (aps_nscore s) i) as [ap' |] eqn:E.
    2:{ exfalso. apply nth_error_None in E.
        assert (j < List.length (aps_nscore s))%nat by (apply nth_error_Some; congruence).
        lia. }
    destruct (string_dec ap' ap) as [-> | Hne].
    + unfold bind. rewrite (place_ap_single_radio w s ap i a rd0 Hnot Hu Hr).
      cbn. discriminate.
    + assert (Hlt : (S i <= j)%nat).
      { destruct (Nat.eq_dec i j) as [-> | ]; [| lia]. congruence. }
      unfold bind.
      pose proof (place_ap_untouched randint ap a ap' i s Hne w Hu) as Hu1.
      pose proof (place_ap_result randint ap' i s w) as Hres.
      destruct (place_ap randint ap' i s w) as [w1 [e | s1]]; [cbn; discriminate |].
      cbn [fst] in Hu1.
      destruct (Hres w1 s1 eq_refl) as [-> | [-> | ->]].
      * apply IH; assumption.
      * apply IH; try assumption.
        -- unfold delay. destruct (mem_str ap' (aps_delayed s)); exact Hnot.
        -- unfold delay. destruct (mem_str ap' (aps_delayed s)); cbn [aps_nscore];
             [exact Hj |].
           rewrite nth_error_app1; [exact Hj | apply nth_error_Some; congruence].
      * apply IH; try assumption. cbn [aps].
        intros Hin. apply in_app_iff in Hin. destruct Hin as [Hin | [Heq | []]];
          [exact (Hnot Hin) | exact (Hne Heq)].
Qed.

(** X17: one AP with a single radio stops the positioning of all.  If a
    candidate of the sweep has [wifi0] as its only radio, then
    [calc_ap_coord] ends with an exception: for such an AP [rd1] stays
    [None] (lines 1011-1013) and line 1016 reads [rd1.nbrs_bydist],
    outside any [try]. *)
Theorem single_radio_ap_stops_sweep (w : World) (l0 : list string) (ap : string)
    (a : AP.t) (rd0 : Radio.t) :
  candidates (update_avr_nfloor w) = inr l0 ->
  In ap l0 ->
  Dict.get ap (APS w) = Some a ->
  AP.radios a = [(IFNAME_WIFI0, rd0)] ->
  exists e, snd (calc_ap_coord randint w) = inl e.
Proof.
  intros Hc Hin Ha Hr.
  destruct (In_nth_error _ _ Hin) as [j Hj].
  assert (Hu : untouched ap a (update_avr_nfloor w)).
  { unfold untouched, update_avr_nfloor.
    destruct (_ >? 0); cbn [APS set_G]; exact Ha. }
  pose proof (walk_meets_single_radio ap a rd0 j (2 * List.length l0 + 1) 0
                (mkLocals l0 [] []) (update_avr_nfloor w) Hr Hu
                (fun H => H) (Nat.le_0_l j) Hj) as Hsome.
  assert (Hfuel : snd (walk randint (2 * List.length l0 + 1) 0 (mkLocals l0 [] [])
                         (update_avr_nfloor w)) <> inr None).
  { apply (walk_has_fuel randint l0).
    - unfold walk_inv. cbn [aps_delayed aps_nscore List.length].
      repeat split; [constructor | intros x [] | apply incl_refl | lia].
    - lia.
    - lia. }
  unfold calc_ap_coord, bind, modify, gets, lift. rewrite Hc.
  destruct (walk randint (2 * List.length l0 + 1) 0 (mkLocals l0 [] []) (update_avr_nfloor w))
    as [w' [e | [s' |]]]; cbn [snd] in *.
  - exists e. reflexivity.
  - exfalso. exact (Hsome s' eq_refl).
  - exfalso. exact (Hfuel eq_refl).
Qed.

Lemma place_ap_manual (w : World) (s : Locals) (ap : string) (i : nat) :
  APS_COORD_METHOD (G w) = "manual"%string ->
  fst (place_ap randint ap i s w) = w.
Proof.
  intros Hm. unfold place_ap, bind, gets, or_raise, ret, raise.
  destruct (mem_str ap (aps s)); [reflexivity |].
  destruct (Dict.get ap (APS w)) as [a |]; [| reflexivity].
  destruct (Dict.get IFNAME_WIFI0 (AP.radios a)) as [rd0 |]; [| reflexivity].
  destruct (1 <? List.length (AP.radios a))%nat; [| reflexivity].
  destruct (Dict.get IFNAME_WIFI1 (AP.radios a)) as [rd1 |]; [| reflexivity].
  cbn [fst snd]. rewrite Hm. reflexivity.
Qed.

Lemma walk_manual (fuel i : nat) (s : Locals) (w : World) :
  APS_COORD_METHOD (G w) = "manual"%string ->
  fst (walk randint fuel i s w) = w.
Proof.
  revert i s. induction fuel as [| fuel IH]; intros i s Hm; cbn [walk]; [reflexivity |].
  destruct (nth_error (aps_nscore s) i) as [ap |]; [| reflexivity].
  unfold bind. pose proof (place_ap_manual w s ap i Hm) as H.
  destruct (place_ap randint ap i s w) as [w1 [e | s1]]; cbn [fst] in H; subst w1;
    [reflexivity | apply IH; exact Hm].
Qed.

(** X18: with [APS_COORD_METHOD = 'manual'] the sweep of [calc_ap_coord]
    (lines 1024-1026) leaves every AP where it is: [APS] and [NODES] are
    the same after the sweep as before it, whether it ends normally or
    with an exception. *)
Theorem manual_sweep_moves_nothing (w : World) :
  APS_COORD_METHOD (G w) = "manual"%string ->
  APS (fst (calc_ap_coord randint w)) = APS w
  /\ NODES (fst (calc_ap_coord randint w)) = NODES w.
Proof.
  intros Hm.
  assert (Hm' : APS_COORD_METHOD (G (update_avr_nfloor w)) = "manual"%string).
  { unfold update_avr_nfloor. destruct (_ >? 0); cbn; exact Hm. }
  assert (HA : APS (update_avr_nfloor w) = APS w /\ NODES (update_avr_nfloor w) = NODES w).
  { unfold update_avr_nfloor. destruct (_ >? 0); split; reflexivity. }
  unfold calc_ap_coord, bind, modify, gets, lift.
  destruct (candidates (update_avr_nfloor w)) as [e | l0]; cbn [fst]; [exact HA |].
  rewrite walk_manual by exact Hm'. exact HA.
Qed.

End SingleRadio.

Lemma single_radio_ap_stops_sweep_witness :
  exists e, snd (calc_ap_coord no_randint solo_world) = inl e.
Proof.
  eapply (single_radio_ap_stops_sweep no_randint solo_world ["S"%string] "S"%string).
  - vm_compute. reflexivity.
  - left. reflexivity.
  - reflexivity.
  - reflexivity.
Defined.

Lemma manual_sweep_moves_nothing_witness :
  APS (fst (calc_ap_coord no_randint manual_world)) = APS manual_world
  /\ NODES (fst (calc_ap_coord no_randint manual_world)) = NODES manual_world.
Proof. apply (manual_sweep_moves_nothing no_randint manual_world). reflexivity. Defined.

(** ** detect_new_aps and find_ap_at_xy *)

Section Discovery.

(** X9: one turn of [detect_new_aps] (lines 796-822) starts exactly one
    [detect_ap] thread for each answering host that is not yet in
    [NODES], however often the host answers the scan, and none for a
    host that is already there.  The started hosts are appended to
    [NODES] in the order of their first answer, and [APS] is not
    touched. *)
Theorem detect_new_aps_starts_each_host_once (ans : list string) (w : World) :
  let '(w', started) := detect_new_aps ans w in
  NoDup started
  /\ (forall ip, In ip started <-> In ip ans /\ ~ In ip (NODES w))
  /\ NODES w' = NODES w ++ started
  /\ APS w' = APS w.
Proof.
  revert w. induction ans as [| ip0 ans IH]; intros w; cbn [detect_new_aps].
  - split; [constructor |]. split; [| split; [rewrite app_nil_r |]; reflexivity].
    intros ip. split; [intros [] | intros [[] _]].
  - destruct (mem_str ip0 (NODES w)) eqn:E.
    + apply mem_str_In in E. specialize (IH w).
      destruct (detect_new_aps ans w) as [w' started].
      destruct IH as (Hnd & Hin & HN & HA).
      split; [exact Hnd |]. split; [| split; assumption].
      intros ip. rewrite Hin. split.
      * intros [H1 H2]. split; [right; exact H1 | exact H2].
      * intros [[<- | H1] H2]; [contradiction |]. split; assumption.
    + assert (Hnot : ~ In ip0 (NODES w)).
      { intros H. apply mem_str_In in H. congruence. }
      specialize (IH (set_NODES (NODES w ++ [ip0]) w)).
      destruct (detect_new_aps ans (set_NODES (NODES w ++ [ip0]) w)) as [w' started].
      cbn [NODES APS set_NODES] in IH.
      destruct IH as (Hnd & Hin & HN & HA).
      split; [| split; [| split; [rewrite HN, <- app_assoc; reflexivity | exact HA]]].
      * constructor; [| exact Hnd]. intros H. apply Hin in H. destruct H as [_ H].
        apply H. apply in_or_app. right. left. reflexivity.
      * intros ip. split.
        -- intros [<- | H]; [split; [left; reflexivity | exact Hnot] |].
           apply Hin in H. destruct H as [H1 H2]. split; [right; exact H1 |].
           intros H'. apply H2. apply in_or_app. left. exact H'.
        -- intros [[<- | H1] H2]; [left; reflexivity |].
           destruct (string_dec ip0 ip) as [-> | Hne]; [left; reflexivity |].
           right. apply Hin. split; [exact H1 |].
           intros H'. apply in_app_or in H'. destruct H' as [H' | [H' | []]];
             [exact (H2 H') | exact (Hne H')].
Qed.







End Discovery.

(** ** The poller keeps running *)

Section PollerRuns.

Lemma get_in_keys {V} (k : string) (v : V) (d : list (string * V)) :
  Dict.get k d = Some v -> In k (Dict.keys d).
Proof.
  unfold Dict.keys. induction d as [| [k0 v0] d IH]; cbn [Dict.get map fst]; [discriminate |].
  destruct (String.eqb k k0) eqn:E.
  - apply String.eqb_eq in E. intros _. left. symmetry. exact E.
  - intros H. right. apply IH. exact H.
Qed.

(** X1: no exception ends the poller of an AP.  For an AP that is in
    [APS], any number of turns of [while True: node.update_ap_stats()]
    (lines 720-733 and 790-792) ends normally or with the thread blocked
    in the [APS_LOCK.acquire()] of line 409, whatever the device answers
    and whether or not the session is lost on the way: what the body
    raises is caught by [update_radio_stats] or by [update_ap_stats].  The
    turns leave the keys of [APS] and the list [NODES] as they were. *)
Theorem poll_never_raises (n : nat) (ip : string) (now : nat -> string) (w : World)
    (ap : AP.t) :
  Dict.get ip (APS w) = Some ap ->
  exists w' res, poll n ip now w = (w', res)
                 /\ (res = inr tt \/ res = inl Blocked)
                 /\ Dict.keys (APS w') = Dict.keys (APS w)
                 /\ NODES w' = NODES w.
Proof.
  revert now w ap. induction n as [| n IH]; intros now w ap Ha; cbn [poll].
  - exists w, (inr tt). repeat split. left. reflexivity.
  - destruct (update_ap_stats_completes ip (now O) ap w Ha) as (w1 & res1 & E1 & Hres).
    pose proof (update_ap_stats_known (Dict.keys (APS w)) (NODES w) ip (now O) w
                  (conj eq_refl eq_refl)) as HKN.
    rewrite E1 in HKN. cbn [fst] in HKN. destruct HKN as [HK HN].
    destruct Hres as [-> | ->].
    + destruct (Dict.get ip (APS w1)) as [ap1 |] eqn:Ha1.
      * destruct (IH (fun k => now (S k)) w1 ap1 Ha1) as (w' & res & E' & Hres & HK' & HN').
        exists w', res. erewrite bind_inr by exact E1. split; [exact E' |].
        split; [exact Hres |]. split; congruence.
      * exfalso. apply (keys_get ip (APS w1)); [| exact Ha1].
        rewrite HK. apply (get_in_keys _ ap). exact Ha.
    + exists w1, (inl Blocked). erewrite bind_inl by exact E1.
      split; [reflexivity |]. split; [right; reflexivity |]. split; assumption.
Qed.

(** X1 on the scenario "steady poll": two turns, both of which end
    normally. *)
Lemma poll_never_raises_witness :
  exists w' res, poll 2 "10.0.0.2"%string (fun _ => "t"%string) steady_world = (w', res)
                 /\ (res = inr tt \/ res = inl Blocked)
                 /\ Dict.keys (APS w') = Dict.keys (APS steady_world)
                 /\ NODES w' = NODES steady_world.
Proof. eapply poll_never_raises. reflexivity. Defined.

End PollerRuns.

(** ** The poller and [APS_LOCK] *)

Section LockFrames.














End LockFrames.

Section Sober.










End Sober.








Section LockDiscipline.
Local Open Scope string_scope.












(** X24: a neighbor row that does not parse stops the poller for good.  In
    the scenario "garbled neighbor row" the first turn ends normally, the
    exception of line 432 being caught in [update_ap_stats], but it leaves
    [APS_LOCK] held; the second turn blocks in the [acquire] of line
    409. *)
Theorem failed_neighbor_row_blocks_poller :
  let ip := "10.0.0.3"%string in
  let '(w1, r1) := update_ap_stats ip "t1" leak_world in
  APS_LOCK leak_world = false
  /\ r1 = inr tt
  /\ APS_LOCK w1 = true
  /\ snd (update_ap_stats ip "t2" w1) = inl Blocked
  /\ snd (poll 2 ip (fun _ => "t"%string) leak_world) = inl Blocked.
Proof. vm_compute. repeat split; reflexivity. Qed.


End LockDiscipline.

(** ** The noise-floor window *)

Section NfloorWindow.

Lemma window_push_fits (smooth_window : Z) (window : list Z) (x : Z) :
  Z.of_nat (List.length window) <= smooth_window ->
  Z.of_nat (List.length (window_push smooth_window window x)) <= smooth_window.
Proof.
  intros H. unfold window_push.
  destruct (Z.of_nat (List.length (window ++ [x])) >? smooth_window) eqn:E.
  - rewrite length_app in E. cbn [List.length] in E.
    destruct window as [| y window]; cbn [app tl List.length] in *.
    + lia.
    + rewrite length_app. cbn [List.length]. lia.
  - rewrite Z.gtb_ltb in E. apply Z.ltb_ge in E. exact E.
Qed.

Lemma window_push_nonempty (smooth_window : Z) (window : list Z) (x : Z) :
  1 <= smooth_window -> window_push smooth_window window x <> [].
Proof.
  intros H. unfold window_push.
  destruct (Z.of_nat (List.length (window ++ [x])) >? smooth_window) eqn:E.
  - rewrite Z.gtb_ltb in E. apply Z.ltb_lt in E.
    rewrite length_app in E. cbn [List.length] in E.
    destruct window as [| y [| z window]]; cbn [app tl List.length] in *; try lia; discriminate.
  - destruct window; discriminate.
Qed.

(** An assignment that leaves [nfloor] and [nfloor_window] alone. *)
Lemma assign_smoothed (i : rid) (f : Radio.t -> Radio.t) :
  (forall rd, Radio.nfloor_window (f rd) = Radio.nfloor_window rd
              /\ Radio.nfloor (f rd) = Radio.nfloor rd) ->
  stable nfloor_smoothed (assign i f).
Proof.
  intros Hf. apply stable_assign. intros w rd [HW H] Hget. split.
  - rewrite put_G. exact HW.
  - intros j rd' Hget'. rewrite put_G.
    rewrite (get_put _ _ _ rd) in Hget' by exact Hget.
    destruct (rid_eqb j i) eqn:E.
    + injection Hget' as <-. destruct (Hf rd) as [-> ->]. apply (H i). exact Hget.
    + apply (H j). exact Hget'.
Qed.

Lemma on_ap_smoothed {A} (ip : string) (f : AP.t -> AP.t * (exn + A)) :
  (forall a, AP.radios (fst (f a)) = AP.radios a) ->
  stable nfloor_smoothed (on_ap ip f).
Proof.
  intros Hf. apply stable_on_ap. intros w a [HW H] Ha. split; [exact HW |].
  intros j rd Hget. cbn [G set_APS]. apply (H j).
  unfold get_radio in *. cbn [APS set_APS] in Hget.
  rewrite get_set in Hget. destruct (String.eqb (fst j) ip) eqn:E; [| exact Hget].
  apply String.eqb_eq in E. rewrite E, Ha. rewrite Hf in Hget. exact Hget.
Qed.

Ltac smoothed_step :=
  first [ apply assign_smoothed; intros ?; split; reflexivity
        | apply on_ap_smoothed; intros ?;
          first [apply ssh_cmd_lines_radios | apply ssh_cmd_radios]
        | lazymatch goal with
          | |- stable _ (for_each _ _) => apply stable_for_each; intros ? _; cbv beta
          end
        | stable_step
        | progress cbv zeta ].

Lemma keyed_smoothed (l : list ACSPNbr.t) : stable nfloor_smoothed (keyed l).
Proof.
  induction l as [| n l IH]; cbn [keyed]; [apply stable_ret |].
  apply stable_bind; [unfold sort_nbr_bydist; repeat smoothed_step | intros k].
  apply stable_bind; [exact IH | intros rest; apply stable_ret].
Qed.

Lemma update_acsp_stats_smoothed (self : rid) (now : string) :
  stable nfloor_smoothed (update_acsp_stats self now).
Proof.
  unfold update_acsp_stats, update_acsp_nbrs, update_one_nbr.
  repeat first [apply keyed_smoothed | smoothed_step].
Qed.

Lemma redraw_smoothed (self : rid) : stable nfloor_smoothed (redraw self).
Proof. unfold redraw, show, draw. repeat smoothed_step. Qed.

(** The last four statements of the [try] of [update_radio_stats]: the
    sample is pushed, the mean is taken, and both are stored. *)
Lemma parse_interface_smoothed (self : rid) (out : pyout) :
  stable nfloor_smoothed (parse_interface self out).
Proof.
  unfold parse_interface.
  do 7 (apply stable_bind; [repeat smoothed_step | intros ?; cbv beta]).
  apply stable_bind; [repeat smoothed_step | intros nf; cbv beta].
  intros w [HW H]. unfold bind at 1. unfold the_radio.
  destruct (get_radio w self) as [rd |] eqn:Hget; cbn [fst]; [| exact (conj HW H)].
  unfold bind at 1. cbn [gets fst snd].
  set (window := window_push (RF_SMOOTH_WINDOW (G w)) (Radio.nfloor_window rd) _).
  pose proof (window_push_fits (RF_SMOOTH_WINDOW (G w)) (Radio.nfloor_window rd) nf
                (proj1 (H self rd Hget))) as Hfit.
  pose proof (window_push_nonempty (RF_SMOOTH_WINDOW (G w)) (Radio.nfloor_window rd) nf HW)
    as Hne.
  fold window in Hfit, Hne.
  erewrite bind_inr by (apply assign_run; exact Hget).
  pose proof (get_put_same w self rd (Radio.set_nfloor_window window rd) Hget) as Hget1.
  set (w1 := put_radio self (Radio.set_nfloor_window window rd) w) in *.
  destruct window as [| x0 window0] eqn:Ew; [contradiction Hne; reflexivity |].
  unfold window_mean. erewrite bind_inr by reflexivity.
  rewrite (assign_run w1 self _ _ Hget1). cbn [fst].
  assert (HG : G w1 = G w) by apply put_G.
  split.
  - rewrite put_G, HG. exact HW.
  - intros j rd' Hget'. rewrite put_G, HG.
    rewrite (get_put _ _ _ _ ) in Hget' by exact Hget1.
    destruct (rid_eqb j self) eqn:E.
    + injection Hget' as <-. cbn. split; [exact Hfit | reflexivity].
    + unfold w1 in Hget'. rewrite (get_put _ _ _ rd) in Hget' by exact Hget.
      rewrite E in Hget'. apply (H j). exact Hget'.
Qed.

Lemma update_ap_stats_smoothed (self now : string) :
  stable nfloor_smoothed (update_ap_stats self now).
Proof.
  unfold update_ap_stats, update_radio_guarded, radio_failed, update_radio_stats, draw.
  repeat first [ apply parse_interface_smoothed | apply update_acsp_stats_smoothed
               | apply redraw_smoothed | smoothed_step ].
Qed.

(** X2: the noise-floor window of [update_radio_stats] (lines 655-667) is a
    sliding window.  If [RF_SMOOTH_WINDOW] is at least 1, every radio's
    [nfloor_window] holds at most [RF_SMOOTH_WINDOW] samples and [nfloor]
    is [None] on an empty window and [sum(window) / len(window)]
    otherwise, then the same holds after any number of polls of any AP,
    whatever the devices answer. *)
Theorem nfloor_window_smoothed (n : nat) (ip : string) (now : nat -> string) (w : World) :
  nfloor_smoothed w -> nfloor_smoothed (fst (poll n ip now w)).
Proof.
  revert now w. induction n as [| n IH]; intros now w H; cbn [poll].
  - exact H.
  - revert w H. fold (stable nfloor_smoothed (update_ap_stats ip (now O) ;;; poll n ip (fun k => now (S k)))%py).
    apply stable_bind; [apply update_ap_stats_smoothed | intros _ w H; apply IH; exact H].
Qed.

Lemma nfloor_window_smoothed_witness :
  nfloor_smoothed steady_world
  /\ nfloor_smoothed (fst (poll 2 "10.0.0.2"%string (fun _ => "t"%string) steady_world))
  /\ option_map (fun rd => (Radio.nfloor_window rd, Radio.nfloor rd))
       (get_radio (fst (poll 2 "10.0.0.2"%string (fun _ => "t"%string) steady_world))
          ("10.0.0.2"%string, IFNAME_WIFI0))
     = Some ([-95; -92], Some (-94)).
Proof.
  assert (H : nfloor_smoothed steady_world).
  { split; [cbn; lia |].
    intros [ip name] rd. unfold get_radio, steady_world. cbn [fst snd APS Dict.get].
    destruct (String.eqb ip "10.0.0.2"); [| discriminate].
    cbn. destruct (String.eqb name IFNAME_WIFI0); [| discriminate].
    intros [= <-]. cbn. split; [lia | reflexivity]. }
  split; [exact H |].
  split; [exact (nfloor_window_smoothed 2 _ _ steady_world H) | vm_compute; reflexivity].
Defined.

End NfloorWindow.

(** ** update_acsp_nbrs: the lists derived from the table *)

Section NeighborOrder.

Lemma assign_nbr_lists (self i : rid) (bydist : list ACSPNbr.t) (radios : list rid)
    (f : Radio.t -> Radio.t) :
  (forall rd, Radio.nbrs_bydist (f rd) = Radio.nbrs_bydist rd
              /\ Radio.nbrs_radios (f rd) = Radio.nbrs_radios rd) ->
  stable (fun w => nbr_lists w self bydist radios) (assign i f).
Proof.
  intros Hf. apply stable_assign. intros w rd H Hget rd' Hget'.
  rewrite (get_put _ _ _ rd) in Hget' by exact Hget.
  destruct (rid_eqb self i) eqn:E.
  - apply rid_eqb_eq in E. subst i. injection Hget' as <-.
    destruct (Hf rd) as [-> ->]. apply H. exact Hget.
  - apply H. exact Hget'.
Qed.

Lemma assign_has_nbrs (self i : rid) (nbrs : list (string * ACSPNbr.t))
    (f : Radio.t -> Radio.t) :
  (forall rd, Radio.nbrs (f rd) = Radio.nbrs rd) ->
  stable (fun w => has_nbrs w self nbrs) (assign i f).
Proof.
  intros Hf. apply stable_assign. intros w rd H Hget rd' Hget'.
  rewrite (get_put _ _ _ rd) in Hget' by exact Hget.
  destruct (rid_eqb self i) eqn:E.
  - apply rid_eqb_eq in E. subst i. injection Hget' as <-.
    rewrite Hf. apply H. exact Hget.
  - apply H. exact Hget'.
Qed.

Lemma on_ap_get_radio {A} (ip : string) (f : AP.t -> AP.t * (exn + A)) (w : World) (i : rid) :
  (forall a, AP.radios (fst (f a)) = AP.radios a) ->
  get_radio (fst (on_ap ip f w)) i = get_radio w i.
Proof.
  intros Hf. unfold on_ap.
  destruct (Dict.get ip (APS w)) as [a |] eqn:Ha; [| reflexivity].
  specialize (Hf a). destruct (f a) as [a' res]. cbn [fst] in *.
  unfold get_radio. cbn [APS set_APS]. rewrite get_set.
  destruct (String.eqb (fst i) ip) eqn:E; [| reflexivity].
  apply String.eqb_eq in E. rewrite E, Ha, Hf. reflexivity.
Qed.

(** [sort_nbr_bydist] returns the path loss the world has afterwards, and
    the transmit power it read or set is not zero. *)
Lemma sort_nbr_bydist_key (n : ACSPNbr.t) (w w' : World) (k : Z) :
  sort_nbr_bydist n w = (w', inr k) ->
  nbr_path_loss w' n = Some k
  /\ exists t, has_txpwr w' (ACSPNbr.radio n) t /\ t <> 0.
Proof.
  unfold sort_nbr_bydist, bind, the_radio.
  destruct (get_radio w (ACSPNbr.radio n)) as [rd |] eqn:Hget; [| discriminate].
  assert (Hset : assign (ACSPNbr.radio n) (Radio.set_txpwr (Some 20)) w
                 = (put_radio (ACSPNbr.radio n) (Radio.set_txpwr (Some 20) rd) w, inr tt))
    by (apply assign_run; exact Hget).
  pose proof (get_put_same w (ACSPNbr.radio n) rd (Radio.set_txpwr (Some 20) rd) Hget) as Hput.
  assert (H20 : forall w0,
            w0 = put_radio (ACSPNbr.radio n) (Radio.set_txpwr (Some 20) rd) w ->
            nbr_path_loss w0 n = Some (20 - ACSPNbr.rssi n)
            /\ exists t, has_txpwr w0 (ACSPNbr.radio n) t /\ t <> 0).
  { intros w0 ->. unfold nbr_path_loss, has_txpwr. rewrite Hput.
    split; [reflexivity |]. exists 20. split; [| lia]. eexists. split; reflexivity. }
  destruct (Radio.txpwr rd) as [t |] eqn:Ht.
  - destruct (t =? 0) eqn:E0.
    + rewrite Hset. cbn [ret]. intros [= <- <-]. apply H20. reflexivity.
    + cbn [ret]. intros [= <- <-]. apply Z.eqb_neq in E0.
      unfold nbr_path_loss, has_txpwr. rewrite Hget, Ht. split; [reflexivity |].
      exists t. split; [| exact E0]. exists rd. split; first [assumption | reflexivity].
  - rewrite Hset. cbn [ret]. intros [= <- <-]. apply H20. reflexivity.
Qed.

(** A transmit power that is not zero is not touched by the key function. *)
Lemma sort_nbr_bydist_keeps_txpwr (n : ACSPNbr.t) (i : rid) (t : Z) :
  t <> 0 -> stable (fun w => has_txpwr w i t) (sort_nbr_bydist n).
Proof.
  intros Ht w (rd & Hget & Htx). unfold sort_nbr_bydist, bind, the_radio.
  destruct (get_radio w (ACSPNbr.radio n)) as [rdn |] eqn:Hn; cbn [fst];
    [| exists rd; split; assumption].
  assert (Hkeep : has_txpwr (fst (assign (ACSPNbr.radio n) (Radio.set_txpwr (Some 20)) w)) i t
                  \/ (Radio.txpwr rdn = Some t)).
  { destruct (rid_eqb i (ACSPNbr.radio n)) eqn:E.
    - apply rid_eqb_eq in E. subst i. right. rewrite Hn in Hget. injection Hget as ->.
      exact Htx.
    - left. rewrite (assign_run _ _ _ _ Hn). cbn [fst]. exists rd. split; [| exact Htx].
      rewrite (get_put _ _ _ rdn) by exact Hn. rewrite E. exact Hget. }
  destruct (Radio.txpwr rdn) as [tn |] eqn:Etn.
  - destruct (tn =? 0) eqn:E0.
    + destruct Hkeep as [Hk | Hk].
      * destruct (assign _ _ w) as [w1 [e | []]]; cbn [fst] in *; exact Hk.
      * injection Hk as ->. apply Z.eqb_eq in E0. contradiction.
    + cbn [ret fst]. exists rd. split; assumption.
  - destruct Hkeep as [Hk | Hk]; [| discriminate].
    destruct (assign _ _ w) as [w1 [e | []]]; cbn [fst] in *; exact Hk.
Qed.

Lemma keyed_keeps_txpwr (l : list ACSPNbr.t) (i : rid) (t : Z) :
  t <> 0 -> stable (fun w => has_txpwr w i t) (keyed l).
Proof.
  intros Ht. induction l as [| n l IH]; cbn [keyed]; [apply stable_ret |].
  apply stable_bind; [apply sort_nbr_bydist_keeps_txpwr; exact Ht | intros k].
  apply stable_bind; [exact IH | intros rest; apply stable_ret].
Qed.

Lemma path_loss_of_txpwr (w : World) (n : ACSPNbr.t) (t : Z) :
  has_txpwr w (ACSPNbr.radio n) t -> nbr_path_loss w n = Some (t - ACSPNbr.rssi n).
Proof.
  intros (rd & Hget & Htx). unfold nbr_path_loss. rewrite Hget, Htx. reflexivity.
Qed.

(** The keys [keyed] returns are the path losses the world has when it is
    done, one per entry, in the order of the entries. *)
Lemma keyed_keys (l : list ACSPNbr.t) (w w' : World) (ks : list (Z * ACSPNbr.t)) :
  keyed l w = (w', inr ks) ->
  map snd ks = l
  /\ Forall (fun kn => nbr_path_loss w' (snd kn) = Some (fst kn)) ks.
Proof.
  revert w ks. induction l as [| n l IH]; intros w ks; cbn [keyed].
  - intros [= <- <-]. split; [reflexivity | constructor].
  - unfold bind at 1.
    destruct (sort_nbr_bydist n w) as [w1 [e | k]] eqn:E1; [discriminate |].
    unfold bind at 1.
    destruct (keyed l w1) as [w2 [e | rest]] eqn:E2; [discriminate |].
    cbn [ret]. intros [= <- <-].
    destruct (IH w1 rest E2) as [Hm Hf].
    destruct (sort_nbr_bydist_key n w w1 k E1) as [Hk (t & Ht & Ht0)].
    split; [cbn [map snd]; rewrite Hm; reflexivity |].
    constructor; [| exact Hf]. cbn [fst snd].
    pose proof (keyed_keeps_txpwr l (ACSPNbr.radio n) t Ht0 w1 Ht) as H2.
    rewrite E2 in H2. cbn [fst] in H2.
    rewrite (path_loss_of_txpwr _ _ _ H2).
    rewrite (path_loss_of_txpwr _ _ _ Ht) in Hk. exact Hk.
Qed.

(** [sorted] by insertion. *)
Lemma insert_by_key_perm {A} (x : Z * A) (l : list (Z * A)) :
  Permutation (insert_by_key x l) (x :: l).
Proof.
  induction l as [| y l IH]; cbn [insert_by_key]; [reflexivity |].
  destruct (fst x <? fst y); [reflexivity |].
  rewrite IH. apply perm_swap.
Qed.

Lemma insert_by_key_sorted {A} (x : Z * A) (l : list (Z * A)) :
  StronglySorted (fun a b => fst a <= fst b) l ->
  StronglySorted (fun a b => fst a <= fst b) (insert_by_key x l).
Proof.
  induction l as [| y l IH]; intros Hs; cbn [insert_by_key].
  - constructor; constructor.
  - inversion Hs as [| ? ? Hs' Hall]; subst.
    destruct (fst x <? fst y) eqn:E.
    + apply Z.ltb_lt in E. constructor; [exact Hs |].
      constructor; [lia |]. eapply Forall_impl; [| exact Hall].
      cbn beta. intros a Ha. lia.
    + apply Z.ltb_ge in E. constructor; [apply IH; exact Hs' |].
      eapply Permutation_Forall; [symmetry; apply insert_by_key_perm |].
      constructor; [exact E | exact Hall].
Qed.

Lemma fold_insert_sorted {A} (l acc : list (Z * A)) :
  StronglySorted (fun a b => fst a <= fst b) acc ->
  StronglySorted (fun a b => fst a <= fst b) (fold_left (fun acc x => insert_by_key x acc) l acc)
  /\ Permutation (fold_left (fun acc x => insert_by_key x acc) l acc) (acc ++ l).
Proof.
  revert acc. induction l as [| x l IH]; intros acc Hs; cbn [fold_left].
  - split; [exact Hs | rewrite app_nil_r; reflexivity].
  - destruct (IH (insert_by_key x acc) (insert_by_key_sorted x acc Hs)) as [H1 H2].
    split; [exact H1 |]. rewrite H2. rewrite insert_by_key_perm.
    apply Permutation_cons_app. reflexivity.
Qed.

Lemma sorted_by_key_spec (w : World) (ks : list (Z * ACSPNbr.t)) :
  Forall (fun kn => nbr_path_loss w (snd kn) = Some (fst kn)) ks ->
  Permutation (sorted_by_key ks) (map snd ks)
  /\ StronglySorted (nearer w) (sorted_by_key ks).
Proof.
  intros Hk. unfold sorted_by_key.
  destruct (fold_insert_sorted ks [] (SSorted_nil _)) as [Hs Hp]. cbn [app] in Hp.
  split; [apply Permutation_map; exact Hp |].
  assert (Hk' : Forall (fun kn => nbr_path_loss w (snd kn) = Some (fst kn))
                  (fold_left (fun acc x => insert_by_key x acc) ks []))
    by (eapply Permutation_Forall; [symmetry; exact Hp | exact Hk]).
  revert Hs Hk'. generalize (fold_left (fun acc x => insert_by_key x acc) ks []) as l.
  induction l as [| a l IH]; intros Hs Hk'; cbn [map]; [constructor |].
  inversion Hs as [| ? ? Hs' Hall]; subst. inversion Hk' as [| ? ? Ha Hl]; subst.
  constructor; [apply IH; assumption |].
  apply Forall_map. rewrite Forall_forall in *. intros b Hb.
  exists (fst a), (fst b). repeat split; [exact Ha | apply Hl; exact Hb | apply Hall; exact Hb].
Qed.

Lemma put_path_loss (w : World) (i : rid) (rd : Radio.t) (f : Radio.t -> Radio.t)
    (n : ACSPNbr.t) :
  get_radio w i = Some rd -> Radio.txpwr (f rd) = Radio.txpwr rd ->
  nbr_path_loss (put_radio i (f rd) w) n = nbr_path_loss w n.
Proof.
  intros Hget Hf. unfold nbr_path_loss. rewrite (get_put _ _ _ rd) by exact Hget.
  destruct (rid_eqb (ACSPNbr.radio n) i) eqn:E; [| reflexivity].
  apply rid_eqb_eq in E. rewrite E, Hget, Hf. reflexivity.
Qed.

Ltac lists_step :=
  first [ apply assign_nbr_lists; intros ?; split; reflexivity
        | lazymatch goal with
          | |- stable _ (for_each _ _) => apply stable_for_each; intros ? _; cbv beta
          end
        | stable_step
        | progress cbv zeta ].

Ltac nbrs_step :=
  first [ apply assign_has_nbrs; intros ?; reflexivity
        | stable_step
        | progress cbv zeta ].

Lemma keyed_has_nbrs (self : rid) (nbrs : list (string * ACSPNbr.t)) (l : list ACSPNbr.t) :
  stable (fun w => has_nbrs w self nbrs) (keyed l).
Proof.
  induction l as [| n l IH]; cbn [keyed]; [apply stable_ret |].
  apply stable_bind; [unfold sort_nbr_bydist; repeat nbrs_step | intros k].
  apply stable_bind; [exact IH | intros rest; apply stable_ret].
Qed.

(** The three neighbor fields of a radio once [update_acsp_nbrs] is done. *)
Lemma update_acsp_nbrs_lists (self : rid) (w w' : World) (rd rd' : Radio.t) :
  get_radio w self = Some rd ->
  update_acsp_nbrs self w = (w', inr tt) ->
  get_radio w' self = Some rd' ->
  match Radio.nbrs rd' with
  | [] =>
      Radio.nbrs_bydist rd' = Radio.nbrs_bydist rd
      /\ Radio.nbrs_radios rd' = Radio.nbrs_radios rd
  | _ :: _ =>
      Permutation (Radio.nbrs_bydist rd') (Dict.values (Radio.nbrs rd'))
      /\ Radio.nbrs_radios rd' = map ACSPNbr.radio (Radio.nbrs_bydist rd')
      /\ StronglySorted (nearer w') (Radio.nbrs_bydist rd')
  end.
Proof.
  intros Hget H Hget'. unfold update_acsp_nbrs in H.
  unfold bind at 1 in H.
  pose proof (on_ap_get_radio (fst self)
                (fun ssh => ssh_cmd_lines ssh ("show acsp neighbor" ++ nl)%string) w self
                (fun a => ssh_cmd_lines_radios a _)) as Hget1.
  destruct (on_ap (fst self) _ w) as [w1 [e | nbrtab]]; [discriminate |].
  cbn [fst] in Hget1. rewrite Hget in Hget1.
  unfold bind at 1 in H. rewrite (assign_run _ _ _ _ Hget1) in H.
  pose proof (get_put_same w1 self rd (Radio.set_nbrs [] rd) Hget1) as Hget2.
  set (w2 := put_radio self (Radio.set_nbrs [] rd) w1) in *.
  unfold bind at 1 in H. unfold acquire_APS_LOCK at 1 in H.
  destruct (APS_LOCK w2); [discriminate |].
  change (get_radio w2 self) with (get_radio (set_APS_LOCK true w2) self) in Hget2.
  set (w2' := set_APS_LOCK true w2) in *.
  unfold bind at 1 in H. unfold gets at 1 in H.
  unfold bind at 1 in H.
  assert (H2 : nbr_lists w2' self (Radio.nbrs_bydist rd) (Radio.nbrs_radios rd)).
  { intros r Hr. rewrite Hget2 in Hr. injection Hr as <-. split; reflexivity. }
  match type of H with
  | context [for_each ?l ?body w2'] =>
      assert (Hst : stable (fun w0 => nbr_lists w0 self (Radio.nbrs_bydist rd)
                                        (Radio.nbrs_radios rd)) (for_each l body))
        by (unfold update_one_nbr; repeat lists_step);
      pose proof (Hst w2' H2) as H3; clear Hst;
      destruct (for_each l body w2') as [w3 [e | []]]; [discriminate |]
  end.
  cbn [fst] in H3.
  unfold bind at 1 in H. unfold the_radio at 1 in H.
  destruct (get_radio w3 self) as [rd3 |] eqn:Hget3; [| discriminate].
  destruct (H3 rd3 Hget3) as [Hb Hr].
  destruct (Radio.nbrs rd3) as [| x xs] eqn:Hn.
  - unfold bind, ret, release_APS_LOCK, modify in H. injection H as <-.
    change (get_radio (set_APS_LOCK false w3) self) with (get_radio w3 self) in Hget'.
    rewrite Hget3 in Hget'. injection Hget' as <-.
    rewrite Hn. split; assumption.
  - unfold bind at 1 in H. unfold bind at 1 in H.
    pose proof (keyed_has_nbrs self (x :: xs) (Dict.values (x :: xs)) w3) as Hk4.
    pose proof (keyed_keys (Dict.values (x :: xs)) w3) as Hkeys.
    destruct (keyed (Dict.values (x :: xs)) w3) as [w4 [e | ks]]; [discriminate |].
    cbn [fst] in Hk4. destruct (Hkeys w4 ks eq_refl) as [Hmap Hloss].
    unfold assign in H.
    destruct (get_radio w4 self) as [rd4 |] eqn:Hget4; [| discriminate].
    unfold release_APS_LOCK, modify in H. injection H as <-.
    match type of Hget' with
    | get_radio (set_APS_LOCK false ?w5) self = _ =>
        change (get_radio (set_APS_LOCK false w5) self) with (get_radio w5 self) in Hget';
        change (nearer (set_APS_LOCK false w5)) with (nearer w5)
    end.
    rewrite (get_put_same _ _ _ _ Hget4) in Hget'. injection Hget' as <-.
    cbn [Radio.nbrs Radio.set_nbrs_radios Radio.set_nbrs_bydist
         Radio.nbrs_bydist Radio.nbrs_radios].
    assert (Hn4 : Radio.nbrs rd4 = x :: xs).
    { apply Hk4; [| exact Hget4]. intros r Hr3. rewrite Hget3 in Hr3. injection Hr3 as <-.
      exact Hn. }
    rewrite Hn4.
    assert (Hloss' : Forall (fun kn => nbr_path_loss
                               (put_radio self
                                  (Radio.set_nbrs_radios (map ACSPNbr.radio (sorted_by_key ks))
                                     (Radio.set_nbrs_bydist (sorted_by_key ks) rd4)) w4)
                               (snd kn) = Some (fst kn)) ks).
    { eapply Forall_impl; [| exact Hloss]. cbn beta. intros kn Hkn.
      rewrite (put_path_loss w4 self rd4
                 (fun r => Radio.set_nbrs_radios (map ACSPNbr.radio (sorted_by_key ks))
                             (Radio.set_nbrs_bydist (sorted_by_key ks) r)))
        by (exact Hget4 || reflexivity).
      exact Hkn. }
    destruct (sorted_by_key_spec _ ks Hloss') as [Hperm Hsorted].
    split; [rewrite Hperm, Hmap; reflexivity |]. split; [reflexivity | exact Hsorted].
Qed.

(** X4: a poll that hears nobody leaves the stale order behind.
    [update_acsp_nbrs] empties [self.nbrs] at line 408 and reassigns
    [nbrs_bydist] and [nbrs_radios] only under [if self.nbrs:] (lines
    467-470): when the call returns with an empty [nbrs], both lists
    are the ones the radio had before the call. *)
Theorem silent_poll_keeps_old_neighbor_order (self : rid) (w w' : World)
    (rd rd' : Radio.t) :
  get_radio w self = Some rd ->
  update_acsp_nbrs self w = (w', inr tt) ->
  get_radio w' self = Some rd' ->
  Radio.nbrs rd' = [] ->
  Radio.nbrs_bydist rd' = Radio.nbrs_bydist rd
  /\ Radio.nbrs_radios rd' = Radio.nbrs_radios rd.
Proof.
  intros Hget H Hget' Hn.
  pose proof (update_acsp_nbrs_lists self w w' rd rd' Hget H Hget') as Hl.
  rewrite Hn in Hl. exact Hl.
Qed.

(** X5: when [update_acsp_nbrs] returns with a non-empty [nbrs], then
    [nbrs_bydist] is a rearrangement of [nbrs.values()], [nbrs_radios]
    lists the radios of [nbrs_bydist] in the same order, and
    [nbrs_bydist] is in ascending order of [n.radio.txpwr - n.rssi],
    the key of [sort_nbr_bydist] (lines 398-401 and 467-470), taken with
    the [txpwr] the radios have once the call is over. *)
Theorem heard_neighbors_are_ordered_by_path_loss (self : rid) (w w' : World)
    (rd rd' : Radio.t) :
  get_radio w self = Some rd ->
  update_acsp_nbrs self w = (w', inr tt) ->
  get_radio w' self = Some rd' ->
  Radio.nbrs rd' <> [] ->
  Permutation (Radio.nbrs_bydist rd') (Dict.values (Radio.nbrs rd'))
  /\ Radio.nbrs_radios rd' = map ACSPNbr.radio (Radio.nbrs_bydist rd')
  /\ StronglySorted (nearer w') (Radio.nbrs_bydist rd').
Proof.
  intros Hget H Hget' Hn.
  pose proof (update_acsp_nbrs_lists self w w' rd rd' Hget H Hget') as Hl.
  destruct (Radio.nbrs rd'); [contradiction | exact Hl].
Qed.

Lemma silent_poll_keeps_old_neighbor_order_witness :
  let self := ("X", IFNAME_WIFI0)%string in
  exists rd rd',
    get_radio silent_world self = Some rd
    /\ get_radio (fst (update_acsp_nbrs self silent_world)) self = Some rd'
    /\ Radio.nbrs_bydist rd <> []
    /\ Radio.nbrs_bydist rd' = Radio.nbrs_bydist rd
    /\ Radio.nbrs_radios rd' = Radio.nbrs_radios rd.
Proof.
  intros self.
  assert (Hb : option_map (fun r => List.length (Radio.nbrs_bydist r))
                 (get_radio silent_world self) = Some 1%nat) by (vm_compute; reflexivity).
  assert (Hn : option_map Radio.nbrs (get_radio (fst (update_acsp_nbrs self silent_world)) self)
               = Some []) by (vm_compute; reflexivity).
  destruct (get_radio silent_world self) as [rd |] eqn:E; [| discriminate Hb].
  destruct (get_radio (fst (update_acsp_nbrs self silent_world)) self) as [rd' |] eqn:E';
    [| discriminate Hn].
  cbn [option_map] in Hb, Hn. injection Hn as Hn.
  exists rd, rd'. split; [reflexivity |]. split; [reflexivity |].
  split; [intros H0; rewrite H0 in Hb; discriminate Hb |].
  apply (silent_poll_keeps_old_neighbor_order self silent_world
           (fst (update_acsp_nbrs self silent_world)) rd rd' E); [| exact E' | exact Hn].
  vm_compute. reflexivity.
Defined.

Lemma heard_neighbors_are_ordered_by_path_loss_witness :
  let self := ("X", IFNAME_WIFI0)%string in
  let w' := fst (update_acsp_nbrs self hear_world) in
  exists rd',
    get_radio w' self = Some rd'
    /\ Radio.nbrs rd' <> []
    /\ Permutation (Radio.nbrs_bydist rd') (Dict.values (Radio.nbrs rd'))
    /\ Radio.nbrs_radios rd' = map ACSPNbr.radio (Radio.nbrs_bydist rd')
    /\ StronglySorted (nearer w') (Radio.nbrs_bydist rd').
Proof.
  intros self w'.
  assert (Hb : option_map (fun _ => tt) (get_radio hear_world self) = Some tt)
    by (vm_compute; reflexivity).
  assert (Hl : option_map (fun r => List.length (Radio.nbrs r)) (get_radio w' self)
               = Some 1%nat) by (vm_compute; reflexivity).
  destruct (get_radio hear_world self) as [rd |] eqn:E; [| discriminate Hb].
  destruct (get_radio w' self) as [rd' |] eqn:E'; [| discriminate Hl].
  cbn [option_map] in Hl.
  assert (Hn : Radio.nbrs rd' <> []) by (intros H0; rewrite H0 in Hl; discriminate Hl).
  exists rd'. split; [reflexivity |]. split; [exact Hn |].
  apply (heard_neighbors_are_ordered_by_path_loss self hear_world w' rd rd' E);
    [| exact E' | exact Hn].
  vm_compute. reflexivity.
Defined.

End NeighborOrder.

(** ** key_press_callback *)

Section KeyboardFacts.
Local Open Scope string_scope.
Variable float : string -> option R.

Lemma key_branch_keeps_num (keysym : string) (g : Globals) (k : Keys) :
  shortcut_num (snd (fst (key_branch float keysym g k))) = shortcut_num k.
Proof.
  unfold key_branch.
  repeat match goal with
         | |- context [if ?b then _ else _] =>
             lazymatch b with
             | (_ || negb (Str.is_empty "equal"))%bool =>
                 replace b with true by (cbn; symmetry; apply orb_true_r)
             | _ => destruct b
             end
         | |- context [match float ?s with _ => _ end] => destruct (float s)
         end; reflexivity.
Qed.

Lemma key_branch_keeps_order (keysym : string) (g : Globals) (k : Keys) :
  APS_COORD_NBRSCORE_ORDER (fst (fst (key_branch float keysym g k)))
  = APS_COORD_NBRSCORE_ORDER g.
Proof.
  unfold key_branch.
  repeat match goal with
         | |- context [if ?b then _ else _] => destruct b
         | |- context [match float ?s with _ => _ end] => destruct (float s)
         end; reflexivity.
Qed.

Lemma key_press_keeps_num (keysym : string) (g : Globals) (k : Keys) :
  shortcut_num k = "" ->
  shortcut_num (snd (fst (key_press_callback float keysym g k))) = "".
Proof.
  intros H. unfold key_press_callback.
  destruct (String.eqb keysym "a").
  - cbn [List.length RADIO_DISPLAYED_LIST].
    destruct (nth_error _ _); [| exact H].
    match goal with
    | |- context [key_branch float keysym ?g' ?k'] =>
        pose proof (key_branch_keeps_num keysym g' k') as Hb;
        destruct (key_branch float keysym g' k') as [[g1 k1] [e | []]]
    end; cbn [fst snd] in *.
    + rewrite Hb. exact H.
    + destruct (_ && _); cbn; [reflexivity | rewrite Hb; exact H].
  - pose proof (key_branch_keeps_num keysym g k) as Hb.
    destruct (key_branch float keysym g k) as [[g1 k1] [e | []]]; cbn [fst snd] in *.
    + rewrite Hb. exact H.
    + destruct (_ && _); cbn; [reflexivity | rewrite Hb; exact H].
Qed.

Lemma key_press_keeps_order (keysym : string) (g : Globals) (k : Keys) :
  APS_COORD_NBRSCORE_ORDER (fst (fst (key_press_callback float keysym g k)))
  = APS_COORD_NBRSCORE_ORDER g.
Proof.
  unfold key_press_callback.
  destruct (String.eqb keysym "a").
  - cbn [List.length RADIO_DISPLAYED_LIST].
    destruct (nth_error _ _); [| reflexivity].
    match goal with
    | |- context [key_branch float keysym ?g' ?k'] =>
        pose proof (key_branch_keeps_order keysym g' k') as Hb;
        destruct (key_branch float keysym g' k') as [[g1 k1] [e | []]]
    end; cbn [fst snd] in *; [exact Hb |].
    destruct (_ && _); exact Hb.
  - pose proof (key_branch_keeps_order keysym g k) as Hb.
    destruct (key_branch float keysym g k) as [[g1 k1] [e | []]]; cbn [fst snd] in *;
      [exact Hb |].
    destruct (_ && _); exact Hb.
Qed.

(** X20: a number typed after a shortcut key is never applied.  The
    branch [elif event.keysym == 'minus' or 'equal'] of line 1486 is
    always taken, so lines 1499-1502 never run and [shortcut_num], once
    empty, stays empty after any sequence of keys;  [Return] then finds
    [shortcut_num] empty, sets no parameter and only clears the two
    shortcut variables (lines 1471-1485 and 1506-1508). *)
Theorem typed_number_is_never_applied (keys : list string) (g : Globals) (k : Keys) :
  shortcut_num k = "" ->
  let '(g', k') := press_keys float keys g k in
  shortcut_num k' = ""
  /\ key_press_callback float "Return" g' k'
     = (g', set_shortcut_num "" (set_shortcut_key "" k'), inr tt).
Proof.
  revert g k. induction keys as [| keysym keys IH]; intros g k H; cbn [press_keys].
  - split; [exact H |].
    unfold key_press_callback, key_branch. cbn. rewrite H. cbn.
    rewrite !andb_false_r. reflexivity.
  - pose proof (key_press_keeps_num keysym g k H) as H1.
    destruct (key_press_callback float keysym g k) as [[g1 k1] res]. cbn [fst snd] in H1.
    apply IH. exact H1.
Qed.

(** X21: [APS_COORD_NBRSCORE_ORDER] cannot be toggled from the keyboard.
    The name is missing from the [global] statement of lines 1423-1426,
    so key [s] raises at line 1465 and leaves every variable as it was,
    and no sequence of keys changes [APS_COORD_NBRSCORE_ORDER]. *)
Theorem nbrscore_order_has_no_key (keys : list string) (g : Globals) (k : Keys) :
  key_press_callback float "s" g k = (g, k, inl NameError)
  /\ APS_COORD_NBRSCORE_ORDER (fst (press_keys float keys g k)) = APS_COORD_NBRSCORE_ORDER g.
Proof.
  split; [reflexivity |].
  revert g k. induction keys as [| keysym keys IH]; intros g k; cbn [press_keys].
  - reflexivity.
  - pose proof (key_press_keeps_order keysym g k) as H1.
    destruct (key_press_callback float keysym g k) as [[g1 k1] res]. cbn [fst snd] in H1.
    rewrite IH. exact H1.
Qed.

Lemma digit_differs (c c' : ascii) :
  Str.is_digit c = true -> Str.is_digit c' = false -> Ascii.eqb c c' = false.
Proof.
  intros H H'. destruct (Ascii.eqb c c') eqn:E; [| reflexivity].
  apply Ascii.eqb_eq in E. subst c'. congruence.
Qed.

Lemma digits_not_equal (keysym : string) (c' : ascii) (s' : string) :
  isdigit keysym = true -> Str.is_digit c' = false ->
  String.eqb keysym (String c' s') = false.
Proof.
  unfold isdigit. destruct keysym as [| c rest]; [discriminate |].
  cbn [Str.is_empty negb andb all_digits]. intros H H'.
  apply andb_true_iff in H. destruct H as [Hc _].
  cbn [String.eqb]. rewrite (digit_differs c c' Hc H'). reflexivity.
Qed.

Lemma digits_not_inside (keysym s : string) :
  isdigit keysym = true ->
  forallb (fun c => negb (Str.is_digit c)) (list_ascii_of_string s) = true ->
  Str.contains keysym s = false.
Proof.
  unfold isdigit, Str.contains. destruct keysym as [| c rest]; [discriminate |].
  cbn [Str.is_empty negb andb all_digits]. intros H.
  apply andb_true_iff in H. destruct H as [Hc _].
  induction s as [| c' s' IH]; intros Hs; [reflexivity |].
  cbn [list_ascii_of_string forallb] in Hs. apply andb_true_iff in Hs.
  destruct Hs as [Hc' Hs']. apply negb_true_iff in Hc'.
  cbn [index prefix].
  destruct (ascii_dec c c') as [-> | _]; [congruence |].
  specialize (IH Hs'). destruct (index 0 (String c rest) s'); [discriminate | reflexivity].
Qed.

(** X22: a digit pressed after [m] acts as the key [equal]: it adds 1 to
    [RF_AVR_NFLOOR_MARGIN] (lines 1486-1492) and leaves the pending
    shortcut key and [shortcut_num] as they are. *)
Theorem digit_key_steps_like_equal (keysym : string) (g : Globals) (k : Keys) :
  isdigit keysym = true ->
  shortcut_key k = "m" ->
  key_press_callback float keysym g k
  = (set_RF_AVR_NFLOOR_MARGIN (RF_AVR_NFLOOR_MARGIN g + 1)%R g, k, inr tt).
Proof.
  intros Hd Hk. unfold key_press_callback, key_branch.
  rewrite !(digits_not_equal keysym _ _ Hd) by reflexivity.
  rewrite (digits_not_inside keysym "cempw" Hd) by reflexivity.
  rewrite Hk, Hd. cbn [orb negb Str.is_empty].
  change ("m" =? "e") with false. change ("m" =? "m") with true. cbv iota.
  rewrite andb_false_r. reflexivity.
Qed.

End KeyboardFacts.

Section KeyboardSamples.
Local Open Scope string_scope.

Lemma typed_number_is_never_applied_witness :
  let '(g', k') :=
    press_keys (fun _ => None) ["m"; "5"; "Return"] default_globals default_keys in
  shortcut_num k' = ""
  /\ key_press_callback (fun _ => None) "Return" g' k'
     = (g', set_shortcut_num "" (set_shortcut_key "" k'), inr tt).
Proof.
  apply (typed_number_is_never_applied (fun _ => None) ["m"; "5"; "Return"]
           default_globals default_keys).
  reflexivity.
Defined.

Lemma digit_key_steps_like_equal_witness :
  key_press_callback (fun _ => None) "5" default_globals (set_shortcut_key "m" default_keys)
  = (set_RF_AVR_NFLOOR_MARGIN (RF_AVR_NFLOOR_MARGIN default_globals + 1)%R default_globals,
     set_shortcut_key "m" default_keys, inr tt).
Proof.
  apply (digit_key_steps_like_equal (fun _ => None) "5" default_globals
           (set_shortcut_key "m" default_keys)); reflexivity.
Defined.

End KeyboardSamples.

(** ** Instances *)

Section Instances.
Local Open Scope string_scope.

Lemma update_acsp_nbrs_fresh_windows_witness :
  fresh_windows ("X", IFNAME_WIFI0) (fst (update_acsp_nbrs ("X", IFNAME_WIFI0) hear_world)).
Proof.
  apply (update_acsp_nbrs_fresh_windows ("X", IFNAME_WIFI0) hear_world).
  vm_compute. reflexivity.
Defined.

Lemma detect_ap_rejects_failed_probe_witness :
  exists w',
    detect_ap pc_world pc_node
    = (w',
       fst (ssh_cmd_lines (fst (ssh_open pc_node)) ("show interface | in " ++ IFNAME_WIFI0 ++ nl)),
       Returned)
    /\ mem_str (AP.ip pc_node) (NODES w') = false
    /\ APS w' = APS pc_world.
Proof.
  apply (detect_ap_rejects_failed_probe pc_world pc_node (fst (ssh_open pc_node)) _ (LLines []));
    reflexivity.
Defined.

End Instances.
